(** * pdfviewer: the page content-stream interpreter of [viewer.py]

    A shallow embedding of the drawing-command generator of
    [pypdfProcessor] (methods [ProcessOperators], [SetFont],
    [DrawTextString], [DrawTextItem], [DrawPath], [SetClippingPath],
    [InsertXObject], [InlineImage], [UnpackImage], [FixColour],
    [DeindexImage], [AddBitmap], [ConvertGrey], [ConvertCMYK]) and of
    [pdfState], followed by theorems about them.

    Conventions of the embedding.
    - Python exceptions are values of [exn]; a function that can raise
      returns a [result].  Methods that update [self] run in the monad
      [M], a state monad over [interp] whose state survives a raise, as
      attribute updates do in Python.
    - [copy.deepcopy] and list copies are value copies.  No list of a
      [pdfState] is reachable from two places ([BT], [Tm] and
      [__init__] build the two text matrices separately, the moves
      copy one into the other), so updating in place and replacing
      agree.
    - Numbers are rationals [Q].  The operands of an operator are
      exact (PyPDF2's [FloatObject] is a [Decimal], its [NumberObject]
      an [int]); the finite values of a Python [float] are the
      rationals [m * 2^e] with [|m| < 2^53] and [-1074 <= e].  Where
      the code computes with floats (the colour operands of [RG] and
      [rg], the operands of the path operators and the origin of a
      rectangle, the scaling of a font), [float(n)] and the operation
      round to the nearest float: [py_float], [float_sub],
      [float_mul], [float_div].  In the other branches an operand
      stands for the float the branch reads; negations and
      comparisons, which are exact on floats, are those of [Q], and
      so is the remaining arithmetic (the text position, the alpha of
      a colour, the quotients of the transform fold).  Infinities are
      not modelled.
    - [bytes] are lists of integers in 0..255.
    - The operands of an operator have the types the branch of
      [ProcessOperators] for that operator reads; where the branch
      unpacks or indexes a list, the list is kept and the arity is
      checked as the code does.
    - A nested call of [ProcessOperators] for a form counts against a
      depth, as against Python's recursion limit.
    - Calls into wx, reportlab and the PyPDF2 filter codecs go through
      the record [Host].  [print] calls and the list [missing_fonts],
      which only feeds them, are dropped. *)

From Stdlib Require Import ZArith QArith Qround Qabs Qpower Qcanon.
From Stdlib Require Import Lia Lqa List String Ascii Bool.
From stdpp Require Import base option list gmap strings.

Local Open Scope Z_scope.

(** ** Python exceptions and results *)

Inductive exn :=
| IndexError | KeyError | TypeError | ValueError | AttributeError
| UnboundLocalError | NameError | ImportError | ZeroDivisionError
| AssertionError | RecursionError
| HostError. (* raised inside wx, reportlab or a filter codec *)

Inductive result (A : Type) :=
| Ok (a : A)
| Raise (e : exn).
Arguments Ok {A} a.
Arguments Raise {A} e.

Definition rbind {A B} (r : result A) (k : A -> result B) : result B :=
  match r with
  | Ok a => k a
  | Raise e => Raise e
  end.

Declare Scope py_scope.
Delimit Scope py_scope with py.
Notation "'let?' x ':=' r 'in' k" := (rbind r (fun x => k))
  (at level 10, x pattern, r at level 100, k at level 200) : py_scope.
Local Open Scope py_scope.

(** [l[i]] on a Python list or tuple, for a non-negative index. *)
Definition py_index {A} (l : list A) (i : nat) : result A :=
  match l !! i with
  | Some x => Ok x
  | None => Raise IndexError
  end.

(** [l[i] = x]. *)
Definition py_setitem {A} (l : list A) (i : nat) (x : A) : result (list A) :=
  if decide (i < length l)%nat then Ok (<[i:=x]> l) else Raise IndexError.

(** [l[i:j]] for [0 <= i <= j]: slicing never raises. *)
Definition py_slice {A} (l : list A) (i j : nat) : list A :=
  take (j - i) (drop i l).

(** ** Numbers *)

(** [int(x)]: truncation towards zero. *)
Definition py_int (x : Q) : Z := Z.quot (Qnum x) (Zpos (Qden x)).

(** [round(x)] with one argument: the nearest integer, ties to even. *)
Definition py_round (x : Q) : Z :=
  let f := Qfloor x in
  match Qcompare (x - inject_Z f) (1 # 2) with
  | Lt => f
  | Gt => f + 1
  | Eq => if Z.even f then f else f + 1
  end.

Definition Qgtb (x y : Q) : bool := negb (Qle_bool x y).
Definition Qltb (x y : Q) : bool := negb (Qle_bool y x).

(** [max(a, b)] on numbers: the first argument wins a tie. *)
Definition py_max (a b : Q) : Q := if Qgtb b a then b else a.

(** ** Binary floating point *)

(** The exponent of the leading binary digit of a positive [q]:
    [2^k <= q < 2^(k+1)]. *)
Definition Qlog2 (q : Q) : Z :=
  let k := Z.log2 (Qnum q) - Z.log2 (Zpos (Qden q)) in
  if Qle_bool (2 ^ k) q then k else k - 1.

(** The exponent of the unit in the last place of the float nearest
    to [q]: 52 binary digits below the leading one, and not below
    that of the subnormal numbers. *)
Definition float_exponent (q : Q) : Z :=
  Z.max (Qlog2 (Qred (Qabs q)) - 52) (-1074).

(** The float nearest to [q], ties to the even mantissa: what the
    operations of IEEE binary64 return for the exact result [q].
    The exponent has no upper bound: a result beyond the largest
    float, which Python turns into [inf], is outside the model. *)
Definition float_round (q : Q) : Q :=
  let a := Qred (Qabs q) in
  let e := float_exponent q in
  let v := Qred (inject_Z (py_round (a / 2 ^ e)) * 2 ^ e) in
  if Qnum q <? 0 then (- v)%Q else v.

(** [float(n)] for a number object [n]. *)
Definition py_float (n : Q) : Q := float_round n.

(** [x - y] and [x * y] on floats. *)
Definition float_sub (x y : Q) : Q := float_round (x - y).
Definition float_mul (x y : Q) : Q := float_round (x * y).

(** [x / y] on floats. *)
Definition float_div (x y : Q) : result Q :=
  if Qeq_bool y 0 then Raise ZeroDivisionError else Ok (float_round (x / y)).

(** ** Bytes and text *)

Abbreviation bytes := (list Z).

Definition zeros (n : nat) : bytes := replicate n 0.

Definition bytes_of_string (s : string) : bytes :=
  map (fun c => Z.of_nat (nat_of_ascii c)) (list_ascii_of_string s).

(** A Python text value is either a [bytes] or a [str] (code points). *)
Inductive pytext :=
| PyBytes (b : bytes)
| PyStr (s : list Z).

(** [b.split(b' ')] with an explicit separator: every occurrence
    splits, so the result is never empty. *)
Fixpoint bytes_split (sep : Z) (b : bytes) : list bytes :=
  match b with
  | [] => [[]]
  | c :: r =>
      if decide (c = sep) then [] :: bytes_split sep r
      else match bytes_split sep r with
           | h :: t => (c :: h) :: t
           | [] => [[c]]
           end
  end.

(** [b.decode('latin-1')]: each byte is its own code point. *)
Definition decode_latin1 (b : bytes) : list Z := b.

(** [s.encode()]: UTF-8 of code points below 256. *)
Definition encode_utf8 (s : list Z) : bytes :=
  flat_map (fun c => if decide (c < 128) then [c]
                     else [Z.lor 192 (Z.shiftr c 6); Z.lor 128 (Z.land c 63)]) s.

(** ** [io.BytesIO] *)

Record BytesIO := mkBytesIO { getvalue : bytes; tell : nat }.

(** [BytesIO(buffer)]: the initial content is [buffer], position 0. *)
Definition BytesIO_new (buffer : bytes) : BytesIO := mkBytesIO buffer 0.

(** [d2b.write(chunk)] overwrites at the position and extends the
    buffer when the chunk runs past its end. *)
Definition BytesIO_write (d2b : BytesIO) (chunk : bytes) : BytesIO :=
  let b := getvalue d2b in
  let p := tell d2b in
  mkBytesIO (take p b ++ zeros (p - length b) ++ chunk
               ++ drop (p + length chunk) b)
            (p + length chunk).

(** ** Colour conversion *)

(** [ConvertGrey]. *)
Definition ConvertGrey (operand : list Q) : result (Z * Z * Z) :=
  let? x := py_index operand 0 in
  let r := py_round (x * 255) in
  let g := py_round (x * 255) in
  let b := py_round (x * 255) in
  Ok (r, g, b).

(** [ConvertCMYK]. *)
Definition ConvertCMYK (operand : list Q) : result (Z * Z * Z) :=
  match operand with
  | [c; m; y; k] =>
      let r := py_round ((1 - c) * (1 - k) * 255) in
      let b := py_round ((1 - y) * (1 - k) * 255) in
      let g := py_round ((1 - m) * (1 - k) * 255) in
      Ok (r, g, b)
  | _ => Raise ValueError
  end.

(** ** Image rasters *)

(** The loop of [FixColour]; [rest] is [RGBdata[pos:]]. *)
Fixpoint FixColour_loop (R1 R9 G1 G9 B1 B9 : Z) (colour_key_fix : bytes)
    (rest : bytes) (d2b : BytesIO) : result BytesIO :=
  match rest with
  | [] => Ok d2b
  | R :: G :: B :: rest' =>
      let d2b' :=
        if (R1 <=? R) && (R <=? R9) && (G1 <=? G) && (G <=? G9)
           && (B1 <=? B) && (B <=? B9)
        then BytesIO_write d2b colour_key_fix
        else BytesIO_write d2b [R; G; B] in
      FixColour_loop R1 R9 G1 G9 B1 B9 colour_key_fix rest' d2b'
  | _ => Raise IndexError
  end.

(** [FixColour]. *)
Definition FixColour (RGBdata colour_key_limits colour_key_fix : bytes)
    : result bytes :=
  match colour_key_limits with
  | [R1; R9; G1; G9; B1; B9] =>
      let d2b := BytesIO_new (zeros (length RGBdata)) in
      let? d2b := FixColour_loop R1 R9 G1 G9 B1 B9 colour_key_fix RGBdata d2b in
      let d2 := getvalue d2b in
      if decide (length RGBdata = length d2) then Ok d2
      else Raise AssertionError
  | _ => Raise ValueError
  end.

(** [x_palette[b * palette_chunk : (b + 1) * palette_chunk]]. *)
Definition palette_entry (x_palette : bytes) (palette_chunk : nat) (b : Z)
    : bytes :=
  py_slice x_palette (Z.to_nat b * palette_chunk)
           ((Z.to_nat b + 1) * palette_chunk).

(** The samples written for one input byte [d], in the order written. *)
Definition DeindexImage_samples (x_depth : Z) (d : Z) : list Z :=
  if decide (x_depth = 1) then
    let b8 := Z.land d 1 in
    let b7 := Z.shiftr (Z.land d 2) 1 in
    let b6 := Z.shiftr (Z.land d 4) 2 in
    let b5 := Z.shiftr (Z.land d 8) 3 in
    let b4 := Z.shiftr (Z.land d 16) 4 in
    let b3 := Z.shiftr (Z.land d 32) 5 in
    let b2 := Z.shiftr (Z.land d 64) 6 in
    let b1 := Z.shiftr (Z.land d 128) 7 in
    [b1; b2; b3; b4; b5; b6; b7; b8]
  else if decide (x_depth = 2) then
    (* [>>] binds tighter than [&] in Python *)
    let b4 := Z.land d 3 in
    let b3 := Z.land d (Z.shiftr 12 2) in
    let b2 := Z.land d (Z.shiftr 48 4) in
    let b1 := Z.land d (Z.shiftr 192 6) in
    [b1; b2; b3; b4]
  else if decide (x_depth = 4) then
    let b1 := Z.land d 15 in
    let b2 := Z.shiftr (Z.land d 240) 4 in
    [b1; b2]
  else if decide (x_depth = 8) then
    let b1 := d in
    [b1]
  else [].

(** [DeindexImage]. *)
Definition DeindexImage (width height : Z) (data : bytes) (x_depth : Z)
    (x_palette_size : Z) (x_palette : bytes) (palette_chunk : nat)
    : result bytes :=
  let size := width * height * Z.of_nat palette_chunk in
  if decide (size < 0) then Raise ValueError else
  let buffer := zeros (Z.to_nat size) in
  let d2b := BytesIO_new buffer in
  let d2b :=
    fold_left (fun d2b d =>
                 fold_left (fun d2b b =>
                              BytesIO_write d2b
                                (palette_entry x_palette palette_chunk b))
                           (DeindexImage_samples x_depth d) d2b)
              data d2b in
  Ok (getvalue d2b).

(** ** wx value objects *)

Inductive wxCap := CAP_BUTT | CAP_ROUND | CAP_PROJECTING.
Inductive wxJoin := JOIN_MITER | JOIN_ROUND | JOIN_BEVEL.
Inductive wxPenStyle := PENSTYLE_SOLID | PENSTYLE_USER_DASH.
(** The third component of the [acts] table: a wx constant or literal 0. *)
Inductive wxRule := WINDING_RULE | ODDEVEN_RULE | RULE_0.
Inductive wxFontFamily :=
  FONTFAMILY_MODERN | FONTFAMILY_SWISS | FONTFAMILY_ROMAN | FONTFAMILY_DEFAULT.
Inductive wxFontWeight := FONTWEIGHT_NORMAL | FONTWEIGHT_BOLD.
Inductive wxFontStyle := FONTSTYLE_NORMAL | FONTSTYLE_ITALIC.

(** [wx.Colour(red, green, blue, alpha=wx.ALPHA_OPAQUE)]. *)
Record wxColour := Colour { Red : Z; Green : Z; Blue : Z; Alpha : Q }.
Definition ALPHA_OPAQUE : Q := 255.
Definition Colour3 (r g b : Z) : wxColour := Colour r g b ALPHA_OPAQUE.

Record wxFont := Font {
  pointSize : Q; family : wxFontFamily; style : wxFontStyle;
  weight : wxFontWeight; faceName : string }.

(** [f.Scale(x)]: the point size times [x], a product of floats. *)
Definition Font_Scale (f : wxFont) (x : Q) : wxFont :=
  Font (float_mul (pointSize f) x) (family f) (style f) (weight f)
       (faceName f).

Inductive wxPen :=
| Pen (colour : wxColour) (width : Q) (style : wxPenStyle)
      (cap : wxCap) (join : wxJoin) (dashes : list Q)
| TRANSPARENT_PEN.

Inductive wxBrush :=
| Brush (colour : wxColour)
| TRANSPARENT_BRUSH.

(** A [wx.Bitmap], described by the call that built it. *)
Inductive wxBitmap :=
| Bitmap_FromBuffer (width height : Z) (data : bytes)
| Bitmap_FromJPEG (data : bytes)
| Bitmap_SetMask (bitmap mask_bitmap : wxBitmap) (mask_colour : wxColour).

(** ** Paths *)

Inductive path_op := path_m | path_c | path_l | path_re | path_v | path_y | path_h.
Inductive paint_op :=
  paint_b | paint_B | paint_bstar | paint_Bstar | paint_f | paint_F
| paint_fstar | paint_s | paint_S | paint_n.
Inductive clip_op := clip_W | clip_Wstar.

(** An entry [[xylist, op]] of the local [path] list. *)
Definition path_item : Type := list Q * path_op.

(** ** [pdfState] *)

Record pdfState := mkState {
  lineWidth : Q;
  lineCapStyle : wxCap;
  lineJoinStyle : wxJoin;
  lineDashArray : list Q;
  lineDashPhase : Q;
  miterLimit : option Q;
  automaticStrokeAdjustment : bool;
  overprint : bool;
  overprintNS : bool;
  overprintMode : Z;
  strokeTransparency : Q;
  strokeRGB : wxColour;
  fillTransparency : Q;
  fillRGB : wxColour;
  fillMode : option Z;
  clippingPath : option (list (list path_item));
  clippingRule : option clip_op;
  (* the attribute [ClippingRule] created by [SetClippingPath] *)
  ClippingRule : option clip_op;
  textMatrix : list Q;
  textLineMatrix : list Q;
  charSpacing : Q;
  wordSpacing : Q;
  horizontalScaling : Q;
  leading : option Q;
  font : option string;
  fontSize : option Q;
  textRenderMode : option Z;
  textRise : Q }.

(** [pdfState.__init__]. *)
Definition pdfState_init : pdfState := {|
  lineWidth := 1;
  lineCapStyle := CAP_BUTT;
  lineJoinStyle := JOIN_MITER;
  lineDashArray := [];
  lineDashPhase := 0;
  miterLimit := None;
  automaticStrokeAdjustment := false;
  overprint := false;
  overprintNS := false;
  overprintMode := 0;
  strokeTransparency := 1;
  strokeRGB := Colour3 0 0 0;
  fillTransparency := 1;
  fillRGB := Colour3 0 0 0;
  fillMode := None;
  clippingPath := None;
  clippingRule := None;
  ClippingRule := None;
  textMatrix := [1; 0; 0; 1; 0; 0]%Q;
  textLineMatrix := [1; 0; 0; 1; 0; 0]%Q;
  charSpacing := 0;
  wordSpacing := 0;
  horizontalScaling := 1;
  leading := None;
  font := None;
  fontSize := None;
  textRenderMode := None;
  textRise := 0 |}.

(** [GetFillRGBA]. *)
Definition GetFillRGBA (self : pdfState) : wxColour :=
  let red := Red (fillRGB self) in
  let green := Green (fillRGB self) in
  let blue := Blue (fillRGB self) in
  let alpha := (fillTransparency self * ALPHA_OPAQUE)%Q in
  Colour red green blue alpha.

(** [GetStrokeRGBA]. *)
Definition GetStrokeRGBA (self : pdfState) : wxColour :=
  let red := Red (strokeRGB self) in
  let green := Green (strokeRGB self) in
  let blue := Blue (strokeRGB self) in
  let alpha := (strokeTransparency self * ALPHA_OPAQUE)%Q in
  Colour red green blue alpha.

(** ** Draw commands *)

(** One entry [[name, args, {}]] of a draw list.  The argument tuples
    have the shapes this module builds them with. *)
Module Cmd.
Inductive drawcmd :=
| ConcatTransform (a b c d e f : Q)
| PushState
| PopState
| SetFont (f : wxFont) (colour : wxColour)
| SetPen (pen : wxPen)
| SetBrush (brush : wxBrush)
| DrawText (text : pytext) (x y : Q)
| DrawBitmap (bitmap : wxBitmap) (x y w h : Q)
| CreatePath
| MoveToPoint (x y : Q)
| AddLineToPoint (x y : Q)
| AddRectangle (x y w h : Q)
| AddCurveToPoint (args : list Q)
| CloseSubpath
| DrawPath (rule : wxRule).
End Cmd.
Export Cmd.

(** ** [DrawPath] *)

(** The [acts] table. *)
Definition acts (action : paint_op) : bool * bool * wxRule :=
  match action with
  | paint_S => (true, false, RULE_0)
  | paint_s => (true, false, RULE_0)
  | paint_f => (false, true, WINDING_RULE)
  | paint_F => (false, true, WINDING_RULE)
  | paint_fstar => (false, true, ODDEVEN_RULE)
  | paint_B => (true, true, WINDING_RULE)
  | paint_Bstar => (true, true, ODDEVEN_RULE)
  | paint_b => (true, true, WINDING_RULE)
  | paint_bstar => (true, true, ODDEVEN_RULE)
  | paint_n => (false, false, RULE_0)
  end.

(** One turn of the loop [for xylist, op in path]; [cur] holds the
    locals [xc], [yc] once they are bound. *)
Definition DrawPath_item (cur : option (Q * Q)) (item : path_item)
    : result (option (Q * Q) * list drawcmd) :=
  let '(xylist, op) := item in
  match op with
  | path_m =>
      let? x0 := py_index xylist 0 in
      let? y := py_index xylist 1 in
      let y0 := (- y)%Q in
      Ok (Some (x0, y0), [MoveToPoint x0 y0])
  | path_l =>
      let? x2 := py_index xylist 0 in
      let? y := py_index xylist 1 in
      let y2 := (- y)%Q in
      Ok (Some (x2, y2), [AddLineToPoint x2 y2])
  | path_re =>
      let? x := py_index xylist 0 in
      let? y1 := py_index xylist 1 in
      let y := (- y1)%Q in
      let? w := py_index xylist 2 in
      let? h := py_index xylist 3 in
      let retuple := (x, float_sub y h, w, h) in
      let retuple := if Qltb h 0 then (x, y, w, - h)%Q else retuple in
      let '(rx, ry, rw, rh) := retuple in
      Ok (cur, [AddRectangle rx ry rw rh])
  | path_c | path_v | path_y =>
      let args : list Q := [] in
      let? args :=
        match op with
        | path_v => match cur with
                    | Some (xc, yc) => Ok (args ++ [xc; yc])
                    | None => Raise UnboundLocalError
                    end
        | _ => Ok args
        end in
      let? a0 := py_index xylist 0 in
      let? a1 := py_index xylist 1 in
      let? a2 := py_index xylist 2 in
      let? a3 := py_index xylist 3 in
      let args := args ++ [a0; - a1; a2; - a3]%Q in
      let args :=
        match op with
        | path_y => args ++ [a2; - a3]%Q
        | _ => args
        end in
      let? args :=
        match op with
        | path_c =>
            let? a4 := py_index xylist 4 in
            let? a5 := py_index xylist 5 in
            Ok (args ++ [a4; - a5]%Q)
        | _ => Ok args
        end in
      Ok (cur, [AddCurveToPoint args])
  | path_h => Ok (cur, [CloseSubpath])
  end.

Fixpoint DrawPath_loop (cur : option (Q * Q)) (path : list path_item)
    : result (list drawcmd) :=
  match path with
  | [] => Ok []
  | item :: path' =>
      let? (cur', cmds) := DrawPath_item cur item in
      let? rest := DrawPath_loop cur' path' in
      Ok (cmds ++ rest)
  end.

(** [DrawPath]: returns the commands and the [path] list, which the
    method extends in place for the closing actions. *)
Definition DrawPath (g : pdfState) (path : list path_item) (action : paint_op)
    : result (list drawcmd * list path_item) :=
  let '(stroke, fill, rule) := acts action in
  let path :=
    match action with
    | paint_s | paint_b | paint_bstar => path ++ [([], path_h)]
    | _ => path
    end in
  let pen :=
    if stroke then
      let style := match lineDashArray g with
                   | [] => PENSTYLE_SOLID
                   | _ => PENSTYLE_USER_DASH
                   end in
      SetPen (Pen (GetStrokeRGBA g) (lineWidth g) style
                  (lineCapStyle g) (lineJoinStyle g) (lineDashArray g))
    else SetPen TRANSPARENT_PEN in
  let brush :=
    if fill then SetBrush (Brush (GetFillRGBA g))
    else SetBrush TRANSPARENT_BRUSH in
  let? segs := DrawPath_loop None path in
  Ok ([pen; brush; CreatePath] ++ segs ++ [Cmd.DrawPath rule], path).

(** ** The transform fold at the end of [ProcessOperators] *)

(** [x / y] on numbers. *)
Definition py_div (x y : Q) : result Q :=
  if Qeq_bool y 0 then Raise ZeroDivisionError else Ok (x / y)%Q.

(** The body of [for k in range(len(drawlist)-1)]. *)
Definition fold_transform_at (drawlist : list drawcmd) (k : nat)
    : result (list drawcmd) :=
  match drawlist !! k, drawlist !! (k + 1)%nat with
  | Some (ConcatTransform a b c d e f), Some (DrawBitmap bmp x y w0 h0) =>
      let w := a in
      let h := d in
      let bm := DrawBitmap bmp x (- d)%Q a d in
      let? b' := py_div b w in
      let? c' := py_div c h in
      Ok (<[(k + 1)%nat := bm]> (<[k := ConcatTransform 1 b' c' 1 e f]> drawlist))
  | _, _ => Ok drawlist
  end.

Fixpoint fold_transform_loop (ks : list nat) (drawlist : list drawcmd)
    : result (list drawcmd) :=
  match ks with
  | [] => Ok drawlist
  | k :: ks' =>
      let? drawlist' := fold_transform_at drawlist k in
      fold_transform_loop ks' drawlist'
  end.

Definition fold_transform (drawlist : list drawcmd) : result (list drawcmd) :=
  fold_transform_loop (seq 0 (length drawlist - 1)) drawlist.

(** ** Operators and resources *)

(** An operator name.  [extractOperators] decodes the names of a
    page to [str]; [InsertXObject] takes the operations of a form from
    [ContentStream] as they are, and PyPDF2 has the names there as
    [bytes], which equal no [str]. *)
Inductive opname :=
| str_name (s : string)
| bytes_name (s : string).

#[global] Instance opname_eq_dec : EqDecision opname.
Proof. solve_decision. Defined.

#[global] Instance opname_countable : Countable opname.
Proof.
  refine (inj_countable'
            (fun n => match n with str_name s => inl s | bytes_name s => inr s end)
            (fun x => match x with inl s => str_name s | inr s => bytes_name s end)
            _).
  intros []; reflexivity.
Defined.

(** An element of a [TJ] array. *)
Inductive tj_element :=
| tj_number (n : Q)
| tj_string (b : bytes).

Inductive filters :=
| filter_name (s : string)
| filter_array (l : list string).

Definition DecodeParms : Type := list (string * Z).

(** The [settings] dictionary of an inline image. *)
Record inline_settings := {
  inline_W : Z;
  inline_H : Z;
  inline_BPC : Z;
  inline_F : option filters;
  inline_DecodeParms : option DecodeParms;
  inline_DP : option DecodeParms }.

(** One [(operand, operator)] pair of an operator list, with the
    operand in the shape the branch for that operator reads.
    [Op_other] stands for a pair no branch accepts: a [str] name
    outside the dispatch chain, or any [bytes] name. *)
Inductive operation :=
| Op_cm (operand : list Q)
| Op_q
| Op_Q
| Op_gs (name : string)
| Op_CSxxx
| Op_RG (operand : list Q)
| Op_rg (operand : list Q)
| Op_K (operand : list Q)
| Op_k (operand : list Q)
| Op_G (operand : list Q)
| Op_g (operand : list Q)
| Op_w (x : Q)
| Op_J (ix : Q)
| Op_j (ix : Q)
| Op_d (array : list Q) (phase : Q)
| Op_path (operator : path_op) (operand : list Q)
| Op_clip (operator : clip_op)
| Op_paint (operator : paint_op)
| Op_BT
| Op_ET
| Op_Tm (operand : list Q)
| Op_TL (x : Q)
| Op_Tc (x : Q)
| Op_Tw (x : Q)
| Op_Tz (x : Q)
| Op_Ts (x : Q)
| Op_Td (tx ty : Q)
| Op_Tf (name : string) (size : Q)
| Op_Tstar
| Op_Tj (text : bytes)
| Op_quote (text : bytes)
| Op_dquote (aw ac : Q) (text : bytes)
| Op_TJ (operand : list (list tj_element))
| Op_Do (name : string)
| Op_INLINE_IMAGE (settings : inline_settings) (data : bytes)
| Op_other (operator : opname).

(** An entry of an [/ExtGState] dictionary, by key. *)
Inductive extg_entry :=
| EGS_Type (v : string)
| EGS_SA (v : bool)
| EGS_BM (v : string)
| EGS_CA (v : Q)
| EGS_ca (v : Q)
| EGS_LW (v : Q)
| EGS_LC (v : Q)
| EGS_LJ (v : Q)
| EGS_ML (v : Q)
| EGS_D (array : list Q) (phase : Q)
| EGS_RI
| EGS_OP (v : bool)
| EGS_op (v : bool)
| EGS_OPM (v : Z)
| EGS_BG | EGS_BG2 | EGS_TR | EGS_TR2
| EGS_other (key : string).

(** The value of [/ColorSpace]: a name, the array
    [[/Indexed base hival lookup]], or another array [[family ...]]
    whose further elements are no names. *)
Inductive colorspace :=
| CS_Name (name : string)
| CS_Indexed (base : colorspace) (hival : Z) (lookup : bytes)
| CS_Array (family : string).

(** The stream a [/Mask] reference resolves to. *)
Record MaskStream := {
  mask_Filter : option filters;
  mask_DecodeParms : option DecodeParms;
  mask_data : bytes;
  mask_Height : Z;
  mask_Width : Z }.

Inductive image_mask :=
| Mask_list (x_masked : list Z)
| Mask_stream (x_mo : MaskStream).

(** An image XObject.  A key the stream lacks reads as [None]. *)
Record ImageStream := {
  Width : Z;
  Height : Z;
  BitsPerComponent : Z;
  ColorSpace : option colorspace;
  Filter : option filters;
  image_DecodeParms : option DecodeParms;
  Mask : option image_mask;
  ImageMask : option bool;
  _data : bytes }.

(** A form XObject: [/Matrix] ([None] reads as no operands), the
    operations of its content stream, and what [FetchFonts] returns.
    Any operations are admitted here; those PyPDF2 delivers for a form
    are all of the kind [Op_other (bytes_name _)]. *)
Record FormStream := {
  Matrix : list Q;
  operations : list operation;
  form_fonts : gmap string string }.

Inductive xobject :=
| XForm (stream : FormStream)
| XImage (stream : ImageStream)
| XOther.

(** [self.page["/Resources"]]. *)
Record PageObject := {
  ExtGState : gmap string (list extg_entry);
  XObject : gmap string xobject }.

(** ** [pdfState.LoadResource] *)

Definition cap_table (ix : Q) : result wxCap :=
  if Qeq_bool ix 0 then Ok CAP_BUTT
  else if Qeq_bool ix 1 then Ok CAP_ROUND
  else if Qeq_bool ix 2 then Ok CAP_PROJECTING
  else Raise KeyError.

Definition join_table (ix : Q) : result wxJoin :=
  if Qeq_bool ix 0 then Ok JOIN_MITER
  else if Qeq_bool ix 1 then Ok JOIN_ROUND
  else if Qeq_bool ix 2 then Ok JOIN_BEVEL
  else Raise KeyError.

Section StateUpdates.
Variable g : pdfState.

Definition set_lineWidth v :=
  mkState v (lineCapStyle g) (lineJoinStyle g) (lineDashArray g)
    (lineDashPhase g) (miterLimit g) (automaticStrokeAdjustment g)
    (overprint g) (overprintNS g) (overprintMode g) (strokeTransparency g)
    (strokeRGB g) (fillTransparency g) (fillRGB g) (fillMode g)
    (clippingPath g) (clippingRule g) (ClippingRule g) (textMatrix g)
    (textLineMatrix g) (charSpacing g) (wordSpacing g)
    (horizontalScaling g) (leading g) (font g) (fontSize g)
    (textRenderMode g) (textRise g).

Definition set_lineCapStyle v :=
  mkState (lineWidth g) v (lineJoinStyle g) (lineDashArray g)
    (lineDashPhase g) (miterLimit g) (automaticStrokeAdjustment g)
    (overprint g) (overprintNS g) (overprintMode g) (strokeTransparency g)
    (strokeRGB g) (fillTransparency g) (fillRGB g) (fillMode g)
    (clippingPath g) (clippingRule g) (ClippingRule g) (textMatrix g)
    (textLineMatrix g) (charSpacing g) (wordSpacing g)
    (horizontalScaling g) (leading g) (font g) (fontSize g)
    (textRenderMode g) (textRise g).

Definition set_lineJoinStyle v :=
  mkState (lineWidth g) (lineCapStyle g) v (lineDashArray g)
    (lineDashPhase g) (miterLimit g) (automaticStrokeAdjustment g)
    (overprint g) (overprintNS g) (overprintMode g) (strokeTransparency g)
    (strokeRGB g) (fillTransparency g) (fillRGB g) (fillMode g)
    (clippingPath g) (clippingRule g) (ClippingRule g) (textMatrix g)
    (textLineMatrix g) (charSpacing g) (wordSpacing g)
    (horizontalScaling g) (leading g) (font g) (fontSize g)
    (textRenderMode g) (textRise g).

Definition set_lineDash a p :=
  mkState (lineWidth g) (lineCapStyle g) (lineJoinStyle g) a p
    (miterLimit g) (automaticStrokeAdjustment g) (overprint g)
    (overprintNS g) (overprintMode g) (strokeTransparency g) (strokeRGB g)
    (fillTransparency g) (fillRGB g) (fillMode g) (clippingPath g)
    (clippingRule g) (ClippingRule g) (textMatrix g) (textLineMatrix g)
    (charSpacing g) (wordSpacing g) (horizontalScaling g) (leading g)
    (font g) (fontSize g) (textRenderMode g) (textRise g).

Definition set_miterLimit v :=
  mkState (lineWidth g) (lineCapStyle g) (lineJoinStyle g)
    (lineDashArray g) (lineDashPhase g) v (automaticStrokeAdjustment g)
    (overprint g) (overprintNS g) (overprintMode g) (strokeTransparency g)
    (strokeRGB g) (fillTransparency g) (fillRGB g) (fillMode g)
    (clippingPath g) (clippingRule g) (ClippingRule g) (textMatrix g)
    (textLineMatrix g) (charSpacing g) (wordSpacing g)
    (horizontalScaling g) (leading g) (font g) (fontSize g)
    (textRenderMode g) (textRise g).

Definition set_automaticStrokeAdjustment v :=
  mkState (lineWidth g) (lineCapStyle g) (lineJoinStyle g)
    (lineDashArray g) (lineDashPhase g) (miterLimit g) v (overprint g)
    (overprintNS g) (overprintMode g) (strokeTransparency g) (strokeRGB g)
    (fillTransparency g) (fillRGB g) (fillMode g) (clippingPath g)
    (clippingRule g) (ClippingRule g) (textMatrix g) (textLineMatrix g)
    (charSpacing g) (wordSpacing g) (horizontalScaling g) (leading g)
    (font g) (fontSize g) (textRenderMode g) (textRise g).

Definition set_overprint v :=
  mkState (lineWidth g) (lineCapStyle g) (lineJoinStyle g)
    (lineDashArray g) (lineDashPhase g) (miterLimit g)
    (automaticStrokeAdjustment g) v (overprintNS g) (overprintMode g)
    (strokeTransparency g) (strokeRGB g) (fillTransparency g) (fillRGB g)
    (fillMode g) (clippingPath g) (clippingRule g) (ClippingRule g)
    (textMatrix g) (textLineMatrix g) (charSpacing g) (wordSpacing g)
    (horizontalScaling g) (leading g) (font g) (fontSize g)
    (textRenderMode g) (textRise g).

Definition set_overprintNS v :=
  mkState (lineWidth g) (lineCapStyle g) (lineJoinStyle g)
    (lineDashArray g) (lineDashPhase g) (miterLimit g)
    (automaticStrokeAdjustment g) (overprint g) v (overprintMode g)
    (strokeTransparency g) (strokeRGB g) (fillTransparency g) (fillRGB g)
    (fillMode g) (clippingPath g) (clippingRule g) (ClippingRule g)
    (textMatrix g) (textLineMatrix g) (charSpacing g) (wordSpacing g)
    (horizontalScaling g) (leading g) (font g) (fontSize g)
    (textRenderMode g) (textRise g).

Definition set_overprintMode v :=
  mkState (lineWidth g) (lineCapStyle g) (lineJoinStyle g)
    (lineDashArray g) (lineDashPhase g) (miterLimit g)
    (automaticStrokeAdjustment g) (overprint g) (overprintNS g) v
    (strokeTransparency g) (strokeRGB g) (fillTransparency g) (fillRGB g)
    (fillMode g) (clippingPath g) (clippingRule g) (ClippingRule g)
    (textMatrix g) (textLineMatrix g) (charSpacing g) (wordSpacing g)
    (horizontalScaling g) (leading g) (font g) (fontSize g)
    (textRenderMode g) (textRise g).

Definition set_strokeTransparency v :=
  mkState (lineWidth g) (lineCapStyle g) (lineJoinStyle g)
    (lineDashArray g) (lineDashPhase g) (miterLimit g)
    (automaticStrokeAdjustment g) (overprint g) (overprintNS g)
    (overprintMode g) v (strokeRGB g) (fillTransparency g) (fillRGB g)
    (fillMode g) (clippingPath g) (clippingRule g) (ClippingRule g)
    (textMatrix g) (textLineMatrix g) (charSpacing g) (wordSpacing g)
    (horizontalScaling g) (leading g) (font g) (fontSize g)
    (textRenderMode g) (textRise g).

Definition set_strokeRGB v :=
  mkState (lineWidth g) (lineCapStyle g) (lineJoinStyle g)
    (lineDashArray g) (lineDashPhase g) (miterLimit g)
    (automaticStrokeAdjustment g) (overprint g) (overprintNS g)
    (overprintMode g) (strokeTransparency g) v (fillTransparency g)
    (fillRGB g) (fillMode g) (clippingPath g) (clippingRule g)
    (ClippingRule g) (textMatrix g) (textLineMatrix g) (charSpacing g)
    (wordSpacing g) (horizontalScaling g) (leading g) (font g) (fontSize g)
    (textRenderMode g) (textRise g).

Definition set_fillTransparency v :=
  mkState (lineWidth g) (lineCapStyle g) (lineJoinStyle g)
    (lineDashArray g) (lineDashPhase g) (miterLimit g)
    (automaticStrokeAdjustment g) (overprint g) (overprintNS g)
    (overprintMode g) (strokeTransparency g) (strokeRGB g) v (fillRGB g)
    (fillMode g) (clippingPath g) (clippingRule g) (ClippingRule g)
    (textMatrix g) (textLineMatrix g) (charSpacing g) (wordSpacing g)
    (horizontalScaling g) (leading g) (font g) (fontSize g)
    (textRenderMode g) (textRise g).

Definition set_fillRGB v :=
  mkState (lineWidth g) (lineCapStyle g) (lineJoinStyle g)
    (lineDashArray g) (lineDashPhase g) (miterLimit g)
    (automaticStrokeAdjustment g) (overprint g) (overprintNS g)
    (overprintMode g) (strokeTransparency g) (strokeRGB g)
    (fillTransparency g) v (fillMode g) (clippingPath g) (clippingRule g)
    (ClippingRule g) (textMatrix g) (textLineMatrix g) (charSpacing g)
    (wordSpacing g) (horizontalScaling g) (leading g) (font g) (fontSize g)
    (textRenderMode g) (textRise g).

Definition set_clipping p r :=
  mkState (lineWidth g) (lineCapStyle g) (lineJoinStyle g)
    (lineDashArray g) (lineDashPhase g) (miterLimit g)
    (automaticStrokeAdjustment g) (overprint g) (overprintNS g)
    (overprintMode g) (strokeTransparency g) (strokeRGB g)
    (fillTransparency g) (fillRGB g) (fillMode g) p (clippingRule g) r
    (textMatrix g) (textLineMatrix g) (charSpacing g) (wordSpacing g)
    (horizontalScaling g) (leading g) (font g) (fontSize g)
    (textRenderMode g) (textRise g).

Definition set_textMatrix v :=
  mkState (lineWidth g) (lineCapStyle g) (lineJoinStyle g)
    (lineDashArray g) (lineDashPhase g) (miterLimit g)
    (automaticStrokeAdjustment g) (overprint g) (overprintNS g)
    (overprintMode g) (strokeTransparency g) (strokeRGB g)
    (fillTransparency g) (fillRGB g) (fillMode g) (clippingPath g)
    (clippingRule g) (ClippingRule g) v (textLineMatrix g) (charSpacing g)
    (wordSpacing g) (horizontalScaling g) (leading g) (font g) (fontSize g)
    (textRenderMode g) (textRise g).

Definition set_textLineMatrix v :=
  mkState (lineWidth g) (lineCapStyle g) (lineJoinStyle g)
    (lineDashArray g) (lineDashPhase g) (miterLimit g)
    (automaticStrokeAdjustment g) (overprint g) (overprintNS g)
    (overprintMode g) (strokeTransparency g) (strokeRGB g)
    (fillTransparency g) (fillRGB g) (fillMode g) (clippingPath g)
    (clippingRule g) (ClippingRule g) (textMatrix g) v (charSpacing g)
    (wordSpacing g) (horizontalScaling g) (leading g) (font g) (fontSize g)
    (textRenderMode g) (textRise g).

Definition set_charSpacing v :=
  mkState (lineWidth g) (lineCapStyle g) (lineJoinStyle g)
    (lineDashArray g) (lineDashPhase g) (miterLimit g)
    (automaticStrokeAdjustment g) (overprint g) (overprintNS g)
    (overprintMode g) (strokeTransparency g) (strokeRGB g)
    (fillTransparency g) (fillRGB g) (fillMode g) (clippingPath g)
    (clippingRule g) (ClippingRule g) (textMatrix g) (textLineMatrix g) v
    (wordSpacing g) (horizontalScaling g) (leading g) (font g) (fontSize g)
    (textRenderMode g) (textRise g).

Definition set_wordSpacing v :=
  mkState (lineWidth g) (lineCapStyle g) (lineJoinStyle g)
    (lineDashArray g) (lineDashPhase g) (miterLimit g)
    (automaticStrokeAdjustment g) (overprint g) (overprintNS g)
    (overprintMode g) (strokeTransparency g) (strokeRGB g)
    (fillTransparency g) (fillRGB g) (fillMode g) (clippingPath g)
    (clippingRule g) (ClippingRule g) (textMatrix g) (textLineMatrix g)
    (charSpacing g) v (horizontalScaling g) (leading g) (font g)
    (fontSize g) (textRenderMode g) (textRise g).

Definition set_horizontalScaling v :=
  mkState (lineWidth g) (lineCapStyle g) (lineJoinStyle g)
    (lineDashArray g) (lineDashPhase g) (miterLimit g)
    (automaticStrokeAdjustment g) (overprint g) (overprintNS g)
    (overprintMode g) (strokeTransparency g) (strokeRGB g)
    (fillTransparency g) (fillRGB g) (fillMode g) (clippingPath g)
    (clippingRule g) (ClippingRule g) (textMatrix g) (textLineMatrix g)
    (charSpacing g) (wordSpacing g) v (leading g) (font g) (fontSize g)
    (textRenderMode g) (textRise g).

Definition set_leading v :=
  mkState (lineWidth g) (lineCapStyle g) (lineJoinStyle g)
    (lineDashArray g) (lineDashPhase g) (miterLimit g)
    (automaticStrokeAdjustment g) (overprint g) (overprintNS g)
    (overprintMode g) (strokeTransparency g) (strokeRGB g)
    (fillTransparency g) (fillRGB g) (fillMode g) (clippingPath g)
    (clippingRule g) (ClippingRule g) (textMatrix g) (textLineMatrix g)
    (charSpacing g) (wordSpacing g) (horizontalScaling g) v (font g)
    (fontSize g) (textRenderMode g) (textRise g).

Definition set_font v :=
  mkState (lineWidth g) (lineCapStyle g) (lineJoinStyle g)
    (lineDashArray g) (lineDashPhase g) (miterLimit g)
    (automaticStrokeAdjustment g) (overprint g) (overprintNS g)
    (overprintMode g) (strokeTransparency g) (strokeRGB g)
    (fillTransparency g) (fillRGB g) (fillMode g) (clippingPath g)
    (clippingRule g) (ClippingRule g) (textMatrix g) (textLineMatrix g)
    (charSpacing g) (wordSpacing g) (horizontalScaling g) (leading g) v
    (fontSize g) (textRenderMode g) (textRise g).

Definition set_fontSize v :=
  mkState (lineWidth g) (lineCapStyle g) (lineJoinStyle g)
    (lineDashArray g) (lineDashPhase g) (miterLimit g)
    (automaticStrokeAdjustment g) (overprint g) (overprintNS g)
    (overprintMode g) (strokeTransparency g) (strokeRGB g)
    (fillTransparency g) (fillRGB g) (fillMode g) (clippingPath g)
    (clippingRule g) (ClippingRule g) (textMatrix g) (textLineMatrix g)
    (charSpacing g) (wordSpacing g) (horizontalScaling g) (leading g)
    (font g) v (textRenderMode g) (textRise g).

Definition set_textRise v :=
  mkState (lineWidth g) (lineCapStyle g) (lineJoinStyle g)
    (lineDashArray g) (lineDashPhase g) (miterLimit g)
    (automaticStrokeAdjustment g) (overprint g) (overprintNS g)
    (overprintMode g) (strokeTransparency g) (strokeRGB g)
    (fillTransparency g) (fillRGB g) (fillMode g) (clippingPath g)
    (clippingRule g) (ClippingRule g) (textMatrix g) (textLineMatrix g)
    (charSpacing g) (wordSpacing g) (horizontalScaling g) (leading g)
    (font g) (fontSize g) (textRenderMode g) v.
End StateUpdates.

(** One turn of [for EGS in resource.keys()]. *)
Definition LoadResource_entry (self : pdfState) (entry : extg_entry)
    : result pdfState :=
  match entry with
  | EGS_Type _ => Ok self
  | EGS_SA v => Ok (set_automaticStrokeAdjustment self v)
  | EGS_BM _ => Ok self
  | EGS_CA v => Ok (set_strokeTransparency self v)
  | EGS_ca v => Ok (set_fillTransparency self v)
  | EGS_LW v => Ok (set_lineWidth self (py_max v 1))
  | EGS_LC v => let? c := cap_table v in Ok (set_lineCapStyle self c)
  | EGS_LJ v => let? j := join_table v in Ok (set_lineJoinStyle self j)
  | EGS_ML v => Ok (set_miterLimit self (Some v))
  | EGS_D array phase => Ok (set_lineDash self array phase)
  | EGS_RI => Ok self
  | EGS_OP v => Ok (set_overprint self v)
  | EGS_op v => Ok (set_overprintNS self v)
  | EGS_OPM v => Ok (set_overprintMode self v)
  | EGS_BG | EGS_BG2 | EGS_TR | EGS_TR2 => Ok self
  | EGS_other _ => Ok self
  end.

(** [LoadResource]: on a raise the entries before it stay applied. *)
Fixpoint LoadResource (self : pdfState) (resource : list extg_entry)
    : result unit * pdfState :=
  match resource with
  | [] => (Ok tt, self)
  | entry :: resource' =>
      match LoadResource_entry self entry with
      | Ok self' => LoadResource self' resource'
      | Raise e => (Raise e, self)
      end
  end.

(** ** The host: wx, reportlab, PyPDF2 filters *)

Record Host := {
  (* [self.parent.font_scale_metrics], [self.parent.font_scale_size] *)
  font_scale_metrics : Q;
  font_scale_size : Q;
  (* [dc.GetFullTextExtent(textitem, f)]: wid, ht, descend, x_lead *)
  GetFullTextExtent : pytext -> wxFont -> Q * Q * Q * Q;
  (* reportlab's [stringWidth], when it could be imported *)
  have_rlwidth : bool;
  stringWidth : pytext -> string -> Q -> Q;
  LZWDecode_decode : bytes -> result bytes;
  ASCII85Decode_decode : bytes -> result bytes;
  FlateDecode_decode : bytes -> option DecodeParms -> result bytes;
  CCITTFaxDecode_decode : bytes -> option DecodeParms -> result bytes;
  (* whether [wx.Bitmap.FromBuffer(width, height, data)] takes the
     buffer; it raises ValueError on one of the wrong size *)
  FromBuffer_fits : Z -> Z -> bytes -> bool;
  (* whether [from PIL import Image] succeeds *)
  have_PIL : bool }.

(** ** Strings *)

Definition ascii_lower (c : ascii) : ascii :=
  let n := nat_of_ascii c in
  if (65 <=? n)%nat && (n <=? 90)%nat then ascii_of_nat (n + 32) else c.

(** [s.lower()]. *)
Fixpoint lower (s : string) : string :=
  match s with
  | EmptyString => EmptyString
  | String c r => String (ascii_lower c) (lower r)
  end.

(** [sub in s], that is [s.count(sub) > 0]. *)
Fixpoint contains (sub s : string) : bool :=
  String.prefix sub s ||
  match s with
  | EmptyString => false
  | String _ r => contains sub r
  end.

(** [needle in filters]: a substring of a name, an element of an array. *)
Definition in_filters (needle : string) (f : filters) : bool :=
  match f with
  | filter_name s => contains needle s
  | filter_array l => bool_decide (needle ∈ l)
  end.

(** ** The interpreter object *)

(** The attributes of [pypdfProcessor] that drawing reads and writes.
    [saved_state] has the most recently appended state first. *)
Record interp := mkInterp {
  gstate : pdfState;
  saved_state : list pdfState;
  knownfont : bool;
  formdrawings : gmap string (list drawcmd);
  unimplemented : gmap opname Z }.

Definition M (A : Type) : Type := interp -> result A * interp.

Definition ret {A} (a : A) : M A := fun s => (Ok a, s).
Definition raise {A} (e : exn) : M A := fun s => (Raise e, s).
Definition bind {A B} (m : M A) (k : A -> M B) : M B :=
  fun s => match m s with
           | (Ok a, s') => k a s'
           | (Raise e, s') => (Raise e, s')
           end.
Definition lift {A} (r : result A) : M A := fun s => (r, s).

(** [try: m / except: h], a bare [except]. *)
Definition try_except {A} (m : M A) (h : M A) : M A :=
  fun s => match m s with
           | (Ok a, s') => (Ok a, s')
           | (Raise _, s') => h s'
           end.

Notation "'let*' x ':=' m 'in' k" := (bind m (fun x => k))
  (at level 10, x pattern, m at level 100, k at level 200) : py_scope.

Definition get_gstate : M pdfState := fun s => (Ok (gstate s), s).
Definition put_gstate (g : pdfState) : M unit :=
  fun s => (Ok tt, mkInterp g (saved_state s) (knownfont s)
                           (formdrawings s) (unimplemented s)).
Definition put_saved_state (l : list pdfState) : M unit :=
  fun s => (Ok tt, mkInterp (gstate s) l (knownfont s)
                           (formdrawings s) (unimplemented s)).
Definition put_knownfont (b : bool) : M unit :=
  fun s => (Ok tt, mkInterp (gstate s) (saved_state s) b
                           (formdrawings s) (unimplemented s)).
Definition put_formdrawings (d : gmap string (list drawcmd)) : M unit :=
  fun s => (Ok tt, mkInterp (gstate s) (saved_state s) (knownfont s)
                           d (unimplemented s)).
Definition put_unimplemented (u : gmap opname Z) : M unit :=
  fun s => (Ok tt, mkInterp (gstate s) (saved_state s) (knownfont s)
                           (formdrawings s) u).

(** ** Text *)

(** [SetFont]. *)
Definition SetFont (pdfont : option string) (size : option Q) : M wxFont :=
  let* _ := put_knownfont true in
  match pdfont with
  | None => raise AttributeError
  | Some pdfont =>
      let pdfont := lower pdfont in
      let* (family, font) :=
        if contains "courier" pdfont then
          ret (FONTFAMILY_MODERN, "Courier New"%string)
        else if contains "helvetica" pdfont then
          ret (FONTFAMILY_SWISS, "Arial"%string)
        else if contains "times" pdfont then
          ret (FONTFAMILY_ROMAN, "Times New Roman"%string)
        else if contains "symbol" pdfont then
          ret (FONTFAMILY_DEFAULT, "Symbol"%string)
        else if contains "zapfdingbats" pdfont then
          ret (FONTFAMILY_DEFAULT, "Wingdings"%string)
        else
          let* _ := put_knownfont false in
          ret (FONTFAMILY_SWISS, "Arial"%string) in
      let weight := if contains "bold" pdfont then FONTWEIGHT_BOLD
                    else FONTWEIGHT_NORMAL in
      let style := if contains "oblique" pdfont || contains "italic" pdfont
                   then FONTSTYLE_ITALIC else FONTSTYLE_NORMAL in
      match size with
      | None => raise TypeError
      | Some size => ret (Font (py_max 1 size) family style weight font)
      end
  end.

Section WithHost.
Context (host : Host).

(** [wx.Bitmap.FromBuffer(width, height, data)]. *)
Definition wx_Bitmap_FromBuffer (width height : Z) (data : bytes)
    : result wxBitmap :=
  if FromBuffer_fits host width height data
  then Ok (Bitmap_FromBuffer width height data)
  else Raise ValueError.

(** [DrawTextItem]. *)
Definition DrawTextItem (textitem : pytext) (f : wxFont) : M drawcmd :=
  let* g := get_gstate in
  let* x := lift (py_index (textMatrix g) 4) in
  let* y5 := lift (py_index (textMatrix g) 5) in
  let y := (y5 + textRise g)%Q in
  let* textitem :=
    if Qgtb (wordSpacing g) 0 then
      match textitem with
      | PyBytes b => ret (PyBytes (b ++ [32]))
      | PyStr _ => raise TypeError
      end
    else ret textitem in
  let '(wid, ht, descend, x_lead) := GetFullTextExtent host textitem f in
  let* kf := (fun s => (Ok (knownfont s), s)) in
  let* width :=
    if have_rlwidth host && kf then
      match font g, fontSize g with
      | Some fnt, Some sz => ret (stringWidth host textitem fnt sz)
      | _, _ => raise TypeError
      end
    else ret wid in
  let* tm := lift (py_setitem (textMatrix g) 4 (x + (width + wordSpacing g))%Q) in
  let* _ := put_gstate (set_textMatrix g tm) in
  ret (DrawText textitem x (- y - (ht - descend))%Q).

Fixpoint DrawTextItems (textlist : list pytext) (f : wxFont)
    : M (list drawcmd) :=
  match textlist with
  | [] => ret []
  | item :: textlist' =>
      let* c := DrawTextItem item f in
      let* cs := DrawTextItems textlist' f in
      ret (c :: cs)
  end.

(** [DrawTextString]. *)
Definition DrawTextString (text : pytext) : M (list drawcmd) :=
  let* g := get_gstate in
  let* f0 := SetFont (font g) (fontSize g) in
  let f0 := Font_Scale f0 (font_scale_metrics host) in
  let* f1 := SetFont (font g) (fontSize g) in
  let f1 := Font_Scale f1 (font_scale_size host) in
  let* textlist :=
    if Qgtb (wordSpacing g) 0 then
      match text with
      | PyBytes b => ret (map PyBytes (bytes_split 32 b))
      | PyStr _ => raise TypeError
      end
    else ret [text] in
  let* items := DrawTextItems textlist f0 in
  ret (Cmd.SetFont f1 (GetFillRGBA g) :: items).

(** ** Images *)

(** [UnpackImage]. *)
Definition UnpackImage (data : bytes) (filters : option filters)
    (decode_parms : option DecodeParms) : result bytes :=
  match filters with
  | None => Raise TypeError
  | Some filters =>
      let? data := if in_filters "/LZWDecode" filters
                   then LZWDecode_decode host data else Ok data in
      let? data := if in_filters "/A85" filters
                      || in_filters "/ASCII85Decode" filters
                   then ASCII85Decode_decode host data else Ok data in
      let? data := if in_filters "/Fl" filters
                      || in_filters "/FlateDecode" filters
                   then FlateDecode_decode host data None else Ok data in
      let? data := if in_filters "/CCF" filters
                      || in_filters "/CCITTFaxDecode" filters
                   then CCITTFaxDecode_decode host data decode_parms
                   else Ok data in
      Ok data
  end.

(** [AddBitmap]: one draw command. *)
Definition AddBitmap (data : bytes) (width height : Z)
    (filters : option filters) (decode_parms : option DecodeParms)
    : result (option drawcmd) :=
  match filters with
  | None => Raise TypeError
  | Some filters =>
      let? data := if in_filters "/LZWDecode" filters
                   then LZWDecode_decode host data else Ok data in
      let? data := if in_filters "/A85" filters
                      || in_filters "/ASCII85Decode" filters
                   then ASCII85Decode_decode host data else Ok data in
      let? data := if in_filters "/Fl" filters
                      || in_filters "/FlateDecode" filters
                   then FlateDecode_decode host data decode_parms
                   else Ok data in
      let? data := if in_filters "/CCF" filters
                      || in_filters "/CCITTFaxDecode" filters
                   then CCITTFaxDecode_decode host data decode_parms
                   else Ok data in
      let? bitmap :=
        if in_filters "/DCT" filters || in_filters "/DCTDecode" filters
        then Ok (Bitmap_FromJPEG data)
        else match wx_Bitmap_FromBuffer width height data with
             | Ok bitmap => Ok bitmap
             | Raise _ =>
                 (* the handler imports PIL, then names the
                    undefined [image_format] *)
                 if have_PIL host then Raise NameError
                 else Raise ImportError
             end in
      Ok (Some (DrawBitmap bitmap 0 (0 - inject_Z height)%Q
                           (inject_Z width) (inject_Z height)))
  end.

(** [InlineImage]. *)
Definition InlineImage (settings : inline_settings) (data : bytes)
    : result (list drawcmd) :=
  let width := inline_W settings in
  let height := inline_H settings in
  let filters := inline_F settings in
  let decode_parms :=
    match inline_DecodeParms settings with
    | Some p => Some p
    | None => inline_DP settings
    end in
  let? item := AddBitmap data width height filters decode_parms in
  match item with
  | Some item => Ok [item]
  | None => Ok []
  end.

(** [x_color == name]. *)
Definition colour_is (x_color : option colorspace) (name : string) : bool :=
  match x_color with
  | Some (CS_Name n) => bool_decide (n = name)
  | _ => false
  end.

Definition colour_is_None (x_color : option colorspace) : bool :=
  match x_color with
  | None => true
  | Some _ => false
  end.

(** The [try] block of the image branch that looks for [/Indexed]:
    [x_indexed], [x_palette_size], [x_palette] and the new [x_color].
    For a name that merely contains the text [/Indexed] the palette
    values are single characters, which only [print] reads; they are
    left out here. *)
Definition image_indexed (x_color : option colorspace)
    : result (bool * Z * bytes * option colorspace) :=
  match x_color with
  | None => Ok (false, 0, [], None)
  | Some (CS_Name name) =>
      if contains "/Indexed" name then
        match name with
        | String _ (String c1 _) =>
            Ok (true, 0, [], Some (CS_Name (String c1 EmptyString)))
        | _ => Raise IndexError
        end
      else Ok (false, 0, [], x_color)
  | Some (CS_Indexed base hival lookup) => Ok (true, hival, lookup, Some base)
  | Some (CS_Array family) =>
      if bool_decide (family = "/Indexed"%string) then Raise IndexError
      else Ok (false, 0, [], x_color)
  end.

(** [bytes.fromhex] literals and the depth-8 comprehension. *)
Definition palette_1 : bytes := [0; 0; 0; 255; 255; 255].
Definition palette_2 : bytes :=
  [0; 0; 0; 85; 85; 85; 170; 170; 170; 255; 255; 255].
Definition palette_4 : bytes :=
  [0; 0; 0; 17; 17; 17; 34; 34; 34; 51; 51; 51; 68; 68; 68; 85; 85; 85;
   102; 102; 102; 119; 119; 119; 136; 136; 136; 153; 153; 153;
   170; 170; 170; 187; 187; 187; 204; 204; 204; 221; 221; 221;
   238; 238; 238; 255; 255; 255].
Definition palette_8 : bytes :=
  flat_map (fun x => [Z.of_nat x; Z.of_nat x; Z.of_nat x]) (seq 0 256).

(** The chain of branches that binds [bitmap] and [RGBdata]; [None]
    stands for a local the taken branch left unbound. *)
Definition image_bitmap (width height x_depth : Z) (filters : filters)
    (x_indexed : bool) (x_palette_size : Z) (x_palette : bytes)
    (x_color : option colorspace) (data : bytes)
    : result (option wxBitmap * option bytes) :=
  if in_filters "/DCT" filters || in_filters "/DCTDecode" filters then
    Ok (Some (Bitmap_FromJPEG data), None)
  else if negb x_indexed && colour_is x_color "/DeviceRGB"
          && bool_decide (x_depth = 8) then
    match wx_Bitmap_FromBuffer width height data with
    | Ok bitmap => Ok (Some bitmap, Some data)
    | Raise _ => Ok (None, Some data)
    end
  else if colour_is_None x_color && negb (bool_decide (x_depth = 1)) then
    Ok (None, None)
  else if x_indexed && colour_is x_color "/DeviceRGB" then
    let? RGBdata := DeindexImage width height data x_depth
                                 x_palette_size x_palette 3 in
    let? bitmap := wx_Bitmap_FromBuffer width height RGBdata in
    Ok (Some bitmap, Some RGBdata)
  else if x_indexed && colour_is x_color "/DeviceGray" then
    (* reads the local [palette] before any assignment *)
    Raise UnboundLocalError
  else if x_indexed then
    Ok (None, None)
  else if colour_is x_color "/DeviceGray"
          && bool_decide (x_depth ∈ [1; 2; 4; 8]) then
    let palette :=
      if bool_decide (x_depth = 1) then palette_1
      else if bool_decide (x_depth = 2) then palette_2
      else if bool_decide (x_depth = 4) then palette_4
      else palette_8 in
    let palette_size := Z.of_nat (length palette) in
    let? RGBdata := DeindexImage width height data x_depth
                                 palette_size palette 3 in
    let? bitmap := wx_Bitmap_FromBuffer width height RGBdata in
    Ok (Some bitmap, Some RGBdata)
  else if colour_is_None x_color && bool_decide (x_depth = 1) then
    let palette := palette_1 in
    let palette_size := Z.of_nat (length palette) in
    let? RGBdata := DeindexImage width height data x_depth
                                 palette_size palette 3 in
    let? bitmap := wx_Bitmap_FromBuffer width height RGBdata in
    Ok (Some bitmap, Some RGBdata)
  else if colour_is_None x_color then
    Ok (None, None)
  else
    (* '{} colour space is not implemented' *)
    Ok (None, None).

(** Reading a local that may be unbound. *)
Definition local {A} (x : option A) : result A :=
  match x with
  | Some a => Ok a
  | None => Raise UnboundLocalError
  end.

(** "Retrieve and apply Image Mask". *)
Definition image_apply_mask (width height : Z) (x_masked : option image_mask)
    (bitmap : option wxBitmap) (RGBdata : option bytes)
    : result (option wxBitmap) :=
  match x_masked with
  | None => Ok bitmap
  | Some (Mask_list x_masked) =>
      let? ck_bytes :=
        if forallb (fun v => (0 <=? v) && (v <? 256)) x_masked
        then Ok x_masked else Raise ValueError in
      match x_masked with
      | [r1; r9; g1; g9; b1; b9] =>
          let ck_key := [r9; g9; b9] in
          let? RGBdata := local RGBdata in
          let? mask_data := FixColour RGBdata ck_bytes ck_key in
          let? mask_bitmap := wx_Bitmap_FromBuffer width height mask_data in
          let? bitmap := local bitmap in
          Ok (Some (Bitmap_SetMask bitmap mask_bitmap (Colour3 r9 g9 b9)))
      | _ => Raise ValueError
      end
  | Some (Mask_stream x_mo) =>
      let mask_height := mask_Height x_mo in
      let mask_width := mask_Width x_mo in
      let? mask_data := UnpackImage (mask_data x_mo) (mask_Filter x_mo)
                                    (mask_DecodeParms x_mo) in
      let palette := palette_1 in
      let palette_size := Z.of_nat (length palette) in
      let? mask_RGB := DeindexImage mask_width mask_height mask_data 1
                                    palette_size palette 3 in
      let? mask_bitmap := wx_Bitmap_FromBuffer mask_width mask_height mask_RGB in
      let? bitmap := local bitmap in
      Ok (Some (Bitmap_SetMask bitmap mask_bitmap (Colour3 255 255 255)))
  end.

(** The [/Image] branch of [InsertXObject]. *)
Definition InsertXObject_image (stream : ImageStream) : result (list drawcmd) :=
  let dlist : list drawcmd := [] in
  let width := Width stream in
  let height := Height stream in
  let x_depth := BitsPerComponent stream in
  let x_color := ColorSpace stream in
  let? (x_indexed, x_palette_size, x_palette, x_color) := image_indexed x_color in
  let filters := Filter stream in
  let decode_parms := image_DecodeParms stream in
  let x_masked := Mask stream in
  let? data := UnpackImage (_data stream) filters decode_parms in
  let? filters := match filters with
                  | Some f => Ok f
                  | None => Raise TypeError
                  end in
  let? (bitmap, RGBdata) :=
    image_bitmap width height x_depth filters x_indexed x_palette_size
                 x_palette x_color data in
  let? bitmap := image_apply_mask width height x_masked bitmap RGBdata in
  let? bitmap := local bitmap in
  Ok (dlist ++ [DrawBitmap bitmap 0 (0 - inject_Z height)%Q
                           (inject_Z width) (inject_Z height)]).

(** ** [ProcessOperators] *)

(** The locals of [ProcessOperators] that live across loop turns. *)
Record locals := mkLocals {
  drawlist : list drawcmd;
  path : list path_item;
  NewClippingPathRequired : option bool;
  NewClippingRule : option clip_op }.

Definition extend (l : locals) (dlist : list drawcmd) : locals :=
  mkLocals (drawlist l ++ dlist) (path l)
           (NewClippingPathRequired l) (NewClippingRule l).

(** [SetClippingPath]; it returns an empty list. *)
Definition SetClippingPath (path : list path_item) (rule : clip_op) : M unit :=
  let* g := get_gstate in
  let clippingPath0 := match clippingPath g with
                       | None => []
                       | Some c => c
                       end in
  put_gstate (set_clipping g (Some (clippingPath0 ++ [path])) (Some rule)).

(** [g.textLineMatrix[4] += dx; g.textLineMatrix[5] += dy;
     g.textMatrix = copy.copy(g.textLineMatrix)]. *)
Definition next_line (dx dy : Q) : M unit :=
  let* g := get_gstate in
  let* t4 := lift (py_index (textLineMatrix g) 4) in
  let* tl := lift (py_setitem (textLineMatrix g) 4 (t4 + dx)%Q) in
  let* _ := put_gstate (set_textLineMatrix g tl) in
  let* g := get_gstate in
  let* t5 := lift (py_index (textLineMatrix g) 5) in
  let* tl := lift (py_setitem (textLineMatrix g) 5 (t5 + dy)%Q) in
  let* _ := put_gstate (set_textLineMatrix g tl) in
  let* g := get_gstate in
  put_gstate (set_textMatrix g (textLineMatrix g)).

(** The three lines shared by the next-line operator and the two
    quote operators. *)
Definition next_line_leading : M unit :=
  let* g := get_gstate in
  next_line 0 (- match leading g with
                 | Some l => l
                 | None => 0
                 end)%Q.

(** The [else] branch: report an operator once. *)
Definition report (operator : opname) : M unit :=
  fun s =>
    match unimplemented s !! operator with
    | Some _ => (Ok tt, s)
    | None => put_unimplemented (<[operator := 1]> (unimplemented s)) s
    end.

(** One string element of a [TJ] array. *)
Definition show_TJ_string (e2 : bytes) : M (list drawcmd) :=
  try_except (DrawTextString (PyBytes e2))
    (try_except
       (let e3 := replicate (length e2) 63 in
        DrawTextString (PyStr e3))
       (ret [])).

Fixpoint show_TJ_array (el : list tj_element) : M (list drawcmd) :=
  match el with
  | [] => ret []
  | tj_number _ :: el' => show_TJ_array el'
  | tj_string e2 :: el' =>
      let* d := show_TJ_string e2 in
      let* ds := show_TJ_array el' in
      ret (d ++ ds)
  end.

Fixpoint show_TJ (operand : list (list tj_element)) : M (list drawcmd) :=
  match operand with
  | [] => ret []
  | el :: operand' =>
      let* d := show_TJ_array el in
      let* ds := show_TJ operand' in
      ret (d ++ ds)
  end.

Section Body.
Context (page : PageObject).
(** [self.ProcessOperators], as the form branch calls it. *)
Context (rec : list operation -> gmap string string -> M (list drawcmd)).

(** [InsertXObject]; [None] is the implicit [return None]. *)
Definition InsertXObject (name : string) : M (option (list drawcmd)) :=
  match XObject page !! name with
  | None => raise KeyError
  | Some (XForm stream) =>
      let* cached := (fun s => (Ok (formdrawings s !! name), s)) in
      let* _ :=
        match cached with
        | Some _ => ret tt
        | None =>
            let pdf_fonts := form_fonts stream in
            let oplist := [Op_q; Op_cm (Matrix stream)]
                            ++ operations stream ++ [Op_Q] in
            let* d := rec oplist pdf_fonts in
            fun s => put_formdrawings (<[name := d]> (formdrawings s)) s
        end in
      ret None
  | Some (XImage stream) =>
      let* dlist := lift (InsertXObject_image stream) in
      ret (Some dlist)
  | Some XOther => ret None
  end.

(** One turn of [for operand, operator in opslist]. *)
Definition exec_op (pdf_fonts : gmap string string) (op : operation)
    (l : locals) : M locals :=
  let* g := get_gstate in
  match op with
  | Op_cm operand =>
      match operand with
      | [] => let* _ := report (str_name "cm") in ret l
      | [a; b; c; d; e; f] =>
          ret (extend l [ConcatTransform a (- b) (- c) d e (- f)])
      | _ => raise ValueError
      end
  | Op_q =>
      let* _ := (fun s => put_saved_state (g :: saved_state s) s) in
      ret (extend l [PushState])
  | Op_Q =>
      let* _ := (fun s => match saved_state s with
                          | [] => (Raise IndexError, s)
                          | top :: stack =>
                              bind (put_saved_state stack)
                                   (fun _ => put_gstate top) s
                          end) in
      ret (extend l [PopState])
  | Op_gs name =>
      match ExtGState page !! name with
      | None => raise KeyError
      | Some resource =>
          let '(r, g') := LoadResource g resource in
          let* _ := put_gstate g' in
          let* _ := lift r in
          ret l
      end
  | Op_CSxxx => ret l
  | Op_RG operand =>
      match map (fun n => py_int (float_mul (py_float n) 255)) operand with
      | [rs; gs; bs] =>
          let* _ := put_gstate (set_strokeRGB g (Colour3 rs gs bs)) in ret l
      | _ => raise ValueError
      end
  | Op_rg operand =>
      match map (fun n => py_int (float_mul (py_float n) 255)) operand with
      | [rf; gf; bf] =>
          let* _ := put_gstate (set_fillRGB g (Colour3 rf gf bf)) in ret l
      | _ => raise ValueError
      end
  | Op_K operand =>
      let* (rs, gs, bs) := lift (ConvertCMYK operand) in
      let* _ := put_gstate (set_strokeRGB g (Colour3 rs gs bs)) in ret l
  | Op_k operand =>
      let* (rf, gf, bf) := lift (ConvertCMYK operand) in
      let* _ := put_gstate (set_fillRGB g (Colour3 rf gf bf)) in ret l
  | Op_G operand =>
      let* (rs, gs, bs) := lift (ConvertGrey operand) in
      let* _ := put_gstate (set_strokeRGB g (Colour3 rs gs bs)) in ret l
  | Op_g operand =>
      let* (rf, gf, bf) := lift (ConvertGrey operand) in
      let* _ := put_gstate (set_fillRGB g (Colour3 rf gf bf)) in ret l
  | Op_w x =>
      let* _ := put_gstate (set_lineWidth g (py_max x 1)) in ret l
  | Op_J ix =>
      let* c := lift (cap_table ix) in
      let* _ := put_gstate (set_lineCapStyle g c) in ret l
  | Op_j ix =>
      let* j := lift (join_table ix) in
      let* _ := put_gstate (set_lineJoinStyle g j) in ret l
  | Op_d array phase =>
      let* _ := put_gstate
                  (set_lineDash g (map (fun n => inject_Z (py_int n)) array)
                                (inject_Z (py_int phase))) in
      ret l
  | Op_path operator operand =>
      ret (mkLocals (drawlist l)
                    (path l ++ [(map py_float operand, operator)])
                    (Some false) (NewClippingRule l))
  | Op_clip operator =>
      ret (mkLocals (drawlist l) (path l) (Some true) (Some operator))
  | Op_paint operator =>
      let* (dlist, path') := lift (DrawPath g (path l) operator) in
      let l := extend l dlist in
      let* required := lift (local (NewClippingPathRequired l)) in
      let* _ :=
        if (required : bool) then
          let* rule := lift (local (NewClippingRule l)) in
          SetClippingPath path' rule
        else ret tt in
      ret (mkLocals (drawlist l) [] (NewClippingPathRequired l)
                    (NewClippingRule l))
  | Op_BT =>
      let* _ := put_gstate (set_textMatrix g [1; 0; 0; 1; 0; 0]%Q) in
      let* g := get_gstate in
      let* _ := put_gstate (set_textLineMatrix g [1; 0; 0; 1; 0; 0]%Q) in
      ret l
  | Op_ET => ret l
  | Op_Tm operand =>
      let* _ := put_gstate (set_textMatrix g operand) in
      let* g := get_gstate in
      let* _ := put_gstate (set_textLineMatrix g operand) in
      ret l
  | Op_TL x => let* _ := put_gstate (set_leading g (Some x)) in ret l
  | Op_Tc x => let* _ := put_gstate (set_charSpacing g x) in ret l
  | Op_Tw x => let* _ := put_gstate (set_wordSpacing g x) in ret l
  | Op_Tz x => let* _ := put_gstate (set_horizontalScaling g (x / 100)%Q) in ret l
  | Op_Ts x => let* _ := put_gstate (set_textRise g x) in ret l
  | Op_Td tx ty => let* _ := next_line tx ty in ret l
  | Op_Tf name size =>
      match pdf_fonts !! name with
      | None => raise KeyError
      | Some basefont =>
          let* _ := put_gstate (set_font g (Some basefont)) in
          let* g := get_gstate in
          let* _ := put_gstate (set_fontSize g (Some size)) in
          ret l
      end
  | Op_Tstar => let* _ := next_line_leading in ret l
  | Op_Tj text =>
      let text := encode_utf8 (decode_latin1 text) in
      let* dlist := DrawTextString (PyBytes text) in
      ret (extend l dlist)
  | Op_quote text =>
      let* _ := next_line_leading in
      let* dlist := DrawTextString (PyStr (decode_latin1 text)) in
      ret (extend l dlist)
  | Op_dquote aw ac text =>
      let* _ := put_gstate (set_wordSpacing g aw) in
      let* g := get_gstate in
      let* _ := put_gstate (set_charSpacing g ac) in
      let* _ := next_line_leading in
      let* dlist := DrawTextString (PyStr (decode_latin1 text)) in
      ret (extend l dlist)
  | Op_TJ operand =>
      let* dlist := show_TJ operand in
      ret (extend l dlist)
  | Op_Do name =>
      let* dlist := InsertXObject name in
      match dlist with
      | Some dlist => ret (extend l dlist)
      | None => ret l
      end
  | Op_INLINE_IMAGE settings data =>
      let* dlist := lift (InlineImage settings data) in
      ret (extend l dlist)
  | Op_other operator =>
      let* _ := report operator in ret l
  end.

Fixpoint exec_ops (pdf_fonts : gmap string string) (opslist : list operation)
    (l : locals) : M locals :=
  match opslist with
  | [] => ret l
  | op :: opslist' =>
      let* l' := exec_op pdf_fonts op l in
      exec_ops pdf_fonts opslist' l'
  end.

(** The body of [ProcessOperators]. *)
Definition ProcessOperators_body (opslist : list operation)
    (pdf_fonts : gmap string string) : M (list drawcmd) :=
  let* l := exec_ops pdf_fonts opslist (mkLocals [] [] None None) in
  lift (fold_transform (drawlist l)).

End Body.

(** [ProcessOperators], with [depth] bounding the nesting of Python
    calls: past it the interpreter raises [RecursionError]. *)
Fixpoint ProcessOperators (depth : nat) (page : PageObject)
    (opslist : list operation) (pdf_fonts : gmap string string)
    : M (list drawcmd) :=
  match depth with
  | O => raise RecursionError
  | S depth' =>
      ProcessOperators_body page (ProcessOperators depth' page)
                            opslist pdf_fonts
  end.

(** The state [DrawFile] starts each page in; the other attributes
    are whatever earlier pages left. *)
Definition new_page (s : interp) : interp :=
  mkInterp pdfState_init [] (knownfont s) (formdrawings s) (unimplemented s).

End WithHost.

(** ** A concrete host and page for running examples *)

(** A host whose text extent is six units per character, ten high
    with a descent of two, whose codecs pass the data through and
    whose bitmaps take buffers of three bytes per pixel. *)
Definition plain_host : Host := {|
  font_scale_metrics := 1;
  font_scale_size := 1;
  GetFullTextExtent := fun t _ =>
    (match t with
     | PyBytes b | PyStr b => inject_Z (6 * Z.of_nat (length b))
     end, 10, 2, 0)%Q;
  have_rlwidth := false;
  stringWidth := fun _ _ _ => 0%Q;
  LZWDecode_decode := Ok;
  ASCII85Decode_decode := Ok;
  FlateDecode_decode := fun d _ => Ok d;
  CCITTFaxDecode_decode := fun d _ => Ok d;
  FromBuffer_fits := fun width height data =>
    bool_decide (Z.of_nat (length data) = width * height * 3);
  have_PIL := false |}.

Definition empty_page : PageObject := {| ExtGState := ∅; XObject := ∅ |}.

(** A fresh processor at the start of a page. *)
Definition fresh : interp := mkInterp pdfState_init [] false ∅ ∅.

Definition no_locals : locals := mkLocals [] [] None None.

Definition helvetica : gmap string string := {[ "/F1"%string := "Helvetica"%string ]}.

(** ** Notions the statements are phrased with *)

Definition in_key_range (R1 R9 G1 G9 B1 B9 : Z) (px : bytes) : bool :=
  match px with
  | [R; G; B] =>
      bool_decide (R1 <= R <= R9 /\ G1 <= G <= G9 /\ B1 <= B <= B9)
  | _ => false
  end.

(** The [i]-th pixel of a packed RGB raster. *)
Definition pixel (data : bytes) (i : nat) : bytes :=
  take 3 (drop (3 * i) data).

(** The raster [FixColour] builds, pixel by pixel. *)
Fixpoint recolour (R1 R9 G1 G9 B1 B9 : Z) (key : bytes) (data : bytes) : bytes :=
  match data with
  | R :: G :: B :: rest =>
      (if in_key_range R1 R9 G1 G9 B1 B9 [R; G; B] then key else [R; G; B])
        ++ recolour R1 R9 G1 G9 B1 B9 key rest
  | _ => []
  end.



(** De-indexing, in the spec's words. *)

(** The samples of one byte at bit depth [depth], the most significant
    first: sample [i] is the bits [8 - depth*(i+1) .. 8 - depth*i - 1]. *)
Definition spec_samples (depth : Z) (d : Z) : list Z :=
  map (fun i => Z.land (Z.shiftr d (8 - depth * (Z.of_nat i + 1)))
                       (Z.ones depth))
      (seq 0 (Z.to_nat (8 / depth))).

(** Each sample replaced by its 3-byte palette chunk. *)
Definition spec_deindex (depth : Z) (x_palette : bytes) (data : bytes) : bytes :=
  flat_map (fun d => flat_map (palette_entry x_palette 3) (spec_samples depth d))
           data.

(** What [DeindexImage] writes, before the buffer is taken into account. *)
Definition DeindexImage_written (x_depth : Z) (x_palette : bytes)
    (palette_chunk : nat) (data : bytes) : bytes :=
  flat_map (fun d => flat_map (palette_entry x_palette palette_chunk)
                              (DeindexImage_samples x_depth d))
           data.

(** [q] is a float: rounding leaves it as it is. *)
Definition is_float (q : Q) : Prop := (float_round q == q)%Q.

(** Two commands that agree, rectangle arguments compared as numbers. *)
Definition same_rectangle (c1 c2 : drawcmd) : Prop :=
  match c1, c2 with
  | AddRectangle x1 y1 w1 h1, AddRectangle x2 y2 w2 h2 =>
      (x1 == x2 /\ y1 == y2 /\ w1 == w2 /\ h1 == h2)%Q
  | _, _ => c1 = c2
  end.

(** The transform fold as a recursion over the list: a
    ConcatTransform directly before a DrawBitmap is rewritten together
    with it, anything else is kept. *)
Fixpoint fold_pairs (l : list drawcmd) : result (list drawcmd) :=
  match l with
  | [] => Ok []
  | c1 :: tl =>
      match c1, tl with
      | ConcatTransform a b c d e f, DrawBitmap bmp x y w0 h0 :: rest =>
          let? b' := py_div b a in
          let? c' := py_div c d in
          let? rest' := fold_pairs rest in
          Ok (ConcatTransform 1 b' c' 1 e f
                :: DrawBitmap bmp x (- d)%Q a d :: rest')
      | _, _ =>
          let? tl' := fold_pairs tl in
          Ok (c1 :: tl')
      end
  end.

(** [c1] directly before [c2] is a pair the fold rewrites. *)
Definition is_pair (c1 c2 : drawcmd) : bool :=
  match c1, c2 with
  | ConcatTransform _ _ _ _ _ _, DrawBitmap _ _ _ _ _ => true
  | _, _ => false
  end.

(** No ConcatTransform directly before a DrawBitmap has a zero on its
    diagonal. *)
Fixpoint nonzero_scales (l : list drawcmd) : bool :=
  match l with
  | [] => true
  | c1 :: tl =>
      match c1, tl with
      | ConcatTransform a _ _ d _ _, DrawBitmap _ _ _ _ _ :: _ =>
          negb (Qeq_bool a 0) && negb (Qeq_bool d 0)
      | _, _ => true
      end && nonzero_scales tl
  end.

(** ** Notions for the interpreter statements *)

(** What drawing text, paths and images leaves alone: the stack of
    saved states and the current font. *)
Definition framed (s s' : interp) : Prop :=
  saved_state s' = saved_state s /\ font (gstate s') = font (gstate s).

(** [m] changes the interpreter only within [framed], whether it
    returns or raises. *)
Definition frame {A} (m : M A) : Prop := forall s, framed s (m s).2.

Definition with_gstate (s : interp) (g : pdfState) : interp :=
  mkInterp g (saved_state s) (knownfont s) (formdrawings s) (unimplemented s).

(** [Q] holds of the outcome of [m] run from [s]. *)
Definition wp {A} (m : M A) (s : interp) (Q : result A -> interp -> Prop) : Prop :=
  Q (m s).1 (m s).2.

(** The operators that neither touch the stack of saved states nor
    the font: all but [q], [Q], [Tf] and [Do]. *)
Definition plain_op (op : operation) : bool :=
  match op with
  | Op_q | Op_Q | Op_Tf _ _ | Op_Do _ => false
  | _ => true
  end.

(** The depth of [q] nesting after [ops], starting at [depth]; [None]
    when a [Q] finds no open [q]. *)
Fixpoint nesting (depth : nat) (ops : list operation) : option nat :=
  match ops with
  | [] => Some depth
  | Op_q :: ops' => nesting (S depth) ops'
  | Op_Q :: ops' =>
      match depth with
      | O => None
      | S d => nesting d ops'
      end
  | _ :: ops' => nesting depth ops'
  end.

(** Every [Q] of [ops] has its [q] in [ops], and every [q] its [Q]. *)
Definition well_nested (ops : list operation) : bool :=
  bool_decide (nesting 0 ops = Some 0%nat).

(** [P] holds of the operations of every form of the page. *)
Definition forms_all (P : list operation -> bool) (page : PageObject) : bool :=
  forallb (fun kv => match kv.2 with
                     | XForm stream => P (operations stream)
                     | _ => true
                     end)
          (map_to_list (XObject page)).

(** The operator list [InsertXObject] builds for a form. *)
Definition form_oplist (stream : FormStream) : list operation :=
  [Op_q; Op_cm (Matrix stream)] ++ operations stream ++ [Op_Q].

Definition with_saved_state (s : interp) (l : list pdfState) : interp :=
  mkInterp (gstate s) l (knownfont s) (formdrawings s) (unimplemented s).

Definition with_formdrawings (s : interp) (d : gmap string (list drawcmd)) : interp :=
  mkInterp (gstate s) (saved_state s) (knownfont s) d (unimplemented s).

(** [rec], run on the operator list of a form of the page: if it
    returns, then from a state satisfying [I] it reaches states
    related by [R]. *)
Definition on_forms (page : PageObject)
    (rec : list operation -> gmap string string -> M (list drawcmd))
    (I : interp -> Prop) (R : interp -> interp -> Prop) : Prop :=
  forall name stream s d s',
    XObject page !! name = Some (XForm stream) ->
    I s ->
    rec (form_oplist stream) (form_fonts stream) s = (Ok d, s') ->
    R s s'.

(** No font is set, in the current state or in any saved one. *)
Definition no_font (s : interp) : Prop :=
  font (gstate s) = None /\ Forall (fun g => font g = None) (saved_state s).

(** No operator of [ops] is [Tf]. *)
Definition sets_no_font (ops : list operation) : bool :=
  forallb (fun op => match op with
                     | Op_Tf _ _ => false
                     | _ => true
                     end) ops.

Definition with_knownfont (s : interp) (b : bool) : interp :=
  mkInterp (gstate s) (saved_state s) b (formdrawings s) (unimplemented s).

(** The font [SetFont] builds for a base font and size, and whether it
    knows the base font. *)
Definition font_for (pdfont : string) (size : Q) : wxFont :=
  match (SetFont (Some pdfont) (Some size) fresh).1 with
  | Ok f => f
  | Raise _ => Font size FONTFAMILY_DEFAULT FONTSTYLE_NORMAL FONTWEIGHT_NORMAL ""
  end.

Definition known_font (pdfont : string) : bool :=
  knownfont (SetFont (Some pdfont) (Some 1%Q) fresh).2.






(** The texts of the DrawText commands of a list. *)
Definition drawn_texts (cmds : list drawcmd) : list pytext :=
  omap (fun c => match c with
                 | DrawText t _ _ => Some t
                 | _ => None
                 end) cmds.


(** The state after a run: the text matrix moved to [x']. *)
Definition moved (s : interp) (x' : Q) (kf : bool) : interp :=
  with_knownfont
    (with_gstate s (set_textMatrix (gstate s)
                                   (<[4%nat := x']> (textMatrix (gstate s)))))
    kf.

(** ** Inputs for the examples *)

(** The colour spaces the image branch reports as not implemented:
    a name other than DeviceRGB and DeviceGray, an array such as
    [[/ICCBased ...]], or an Indexed space over such a base. *)
Definition unsupported_colour (cs : colorspace) : bool :=
  match cs with
  | CS_Name name =>
      negb (contains "/Indexed" name)
      && negb (bool_decide (name = "/DeviceRGB"%string))
      && negb (bool_decide (name = "/DeviceGray"%string))
  | CS_Array family => negb (bool_decide (family = "/Indexed"%string))
  | CS_Indexed base _ _ =>
      negb (colour_is (Some base) "/DeviceRGB")
      && negb (colour_is (Some base) "/DeviceGray")
  end.

(** A one-pixel DeviceCMYK image and a page that draws it. *)
Definition cmyk_image : ImageStream := {|
  Width := 1;
  Height := 1;
  BitsPerComponent := 8;
  ColorSpace := Some (CS_Name "/DeviceCMYK");
  Filter := Some (filter_name "/FlateDecode");
  image_DecodeParms := None;
  Mask := None;
  ImageMask := None;
  _data := [0; 0; 0; 255] |}.

Definition cmyk_page : PageObject := {|
  ExtGState := ∅;
  XObject := {[ "/Im0"%string := XImage cmyk_image ]} |}.

Definition cmyk_stream : list operation :=
  [Op_path path_re [0; 0; 10; 10]%Q; Op_paint paint_f;
   Op_q; Op_cm [1; 0; 0; 1; 0; 0]%Q; Op_Do "/Im0"; Op_Q].

(** The same stream without the image. *)
Definition cmyk_stream_rest : list operation :=
  [Op_path path_re [0; 0; 10; 10]%Q; Op_paint paint_f;
   Op_q; Op_cm [1; 0; 0; 1; 0; 0]%Q; Op_Q].

(** A form that changes the state between its own [q] and [Q], and a
    page holding it together with an extended graphics state. *)
Definition demo_form : FormStream := {|
  Matrix := [1; 0; 0; 1; 5; 5]%Q;
  operations := [Op_q; Op_w 9; Op_rg [0; 0; 1]%Q; Op_Q;
                 Op_other (bytes_name "re")];
  form_fonts := ∅ |}.

Definition form_page : PageObject := {|
  ExtGState := {[ "/GS0"%string := [EGS_Type "/ExtGState"; EGS_LW 4;
                                     EGS_CA (1 # 2)] ]};
  XObject := {[ "/Fm0"%string := XForm demo_form ]} |}.

Definition demo_pre : list operation := [Op_rg [1; 0; 0]%Q; Op_w 3].

Definition demo_body : list operation :=
  [Op_RG [0; 1; 0]%Q; Op_w 7; Op_d [3; 2]%Q 1; Op_J 1; Op_k [0; 0; 0; 1]%Q;
   Op_BT; Op_Tf "/F1" 12; Op_Td 10 20; Op_Tj (bytes_of_string "Hi");
   Op_q; Op_Tw 2; Op_TL 14; Op_Tstar; Op_Q;
   Op_gs "/GS0"; Op_Do "/Fm0";
   Op_path path_re [0; 0; 5; 5]%Q; Op_clip clip_W; Op_paint paint_n].

Definition hello_world : list tj_element :=
  [tj_string (bytes_of_string "Hello"); tj_number (-120);
   tj_string (bytes_of_string "World")].


(** * Further definitions *)

(** The bytes of a text value. *)
Definition text_bytes (t : pytext) : bytes :=
  match t with
  | PyBytes b => b
  | PyStr s => s
  end.

(** The bytes of all DrawText commands of a list, in order. *)
Definition drawn_bytes (cmds : list drawcmd) : bytes :=
  concat (map text_bytes (drawn_texts cmds)).

(** The number of bytes of [b] equal to [c]. *)
Definition count_byte (c : Z) (b : bytes) : nat :=
  length (filter (fun x => x = c) b).

(** The commands that build a path. *)
Definition is_path_cmd (c : drawcmd) : bool :=
  match c with
  | MoveToPoint _ _ | AddLineToPoint _ _ | AddRectangle _ _ _ _
  | AddCurveToPoint _ | CloseSubpath => true
  | _ => false
  end.

(** The paint operators that close the path first: s, b and b*. *)
Definition closes (action : paint_op) : bool :=
  match action with
  | paint_s | paint_b | paint_bstar => true
  | _ => false
  end.

(** A curve command carries three points. *)
Definition six_args (c : drawcmd) : Prop :=
  match c with
  | AddCurveToPoint args => length args = 6%nat
  | _ => True
  end.

(** The point the locals [xc], [yc] of [DrawPath] hold after the
    items of [path], starting from [cur]: the end of the last move or
    line, whatever curves and rectangles came after it. *)
Fixpoint last_point (cur : option (Q * Q)) (path : list path_item)
    : option (Q * Q) :=
  match path with
  | [] => cur
  | (x :: y :: _, (path_m | path_l)) :: rest => last_point (Some (x, - y)%Q) rest
  | _ :: rest => last_point cur rest
  end.

(** Neither a path-construction, a clipping nor a paint operator. *)
Definition no_path_op (op : operation) : bool :=
  match op with
  | Op_path _ _ | Op_clip _ | Op_paint _ => false
  | _ => true
  end.

(** The locals of the path machinery. *)
Definition same_path_locals (l l' : locals) : Prop :=
  path l' = path l
  /\ NewClippingPathRequired l' = NewClippingPathRequired l
  /\ NewClippingRule l' = NewClippingRule l.

(** Sample [k] of the byte [d] at bit depth [depth], counting from the
    most significant bits. *)
Definition sample_at (depth d : Z) (k : nat) : Z :=
  Z.land (Z.shiftr d (8 - depth * (Z.of_nat k + 1))) (Z.ones depth).

(** ** [pypdfProcessor.RenderPage] *)

(** A call [RenderPage] makes on the graphics context [gc] or on a
    path [gp] that [gc.CreatePath] returned; the paths are numbered in
    the order of their creation. *)
Inductive gc_call :=
| gc_CreateMatrix (a b c d e f : Q)
| gc_ConcatTransform (cm : Q * Q * Q * Q * Q * Q)
| gc_PushState
| gc_PopState
| gc_SetFont (f : wxFont) (colour : wxColour)
| gc_SetPen (pen : wxPen)
| gc_SetBrush (brush : wxBrush)
| gc_DrawText (text : pytext) (x y : Q)
| gc_DrawBitmap (bitmap : wxBitmap) (x y w h : Q)
| gc_CreatePath
| gc_DrawPath (gp : nat) (rule : wxRule)
| gp_MoveToPoint (gp : nat) (x y : Q)
| gp_AddLineToPoint (gp : nat) (x y : Q)
| gp_AddRectangle (gp : nat) (x y w h : Q)
| gp_AddCurveToPoint (gp : nat) (args : list Q)
| gp_CloseSubpath (gp : nat).

(** The graphics context as [RenderPage] sees it: the attribute
    [font_scale], which only the printout sets, and whether wx raises
    on a call, given the calls made before it. *)
Record GraphicsContext := {
  font_scale : option Q;
  gc_raises : list gc_call -> gc_call -> bool }.

(** The calls made so far, the local [gp] once it is bound, and the
    number of paths created. *)
Record rendering := mkRendering {
  calls : list gc_call;
  gp : option nat;
  created : nat }.

(** A call on [gc] or [gp]: an exception of wx passes through. *)
Definition gc_invoke (gc : GraphicsContext) (call : gc_call) (r : rendering)
    : result rendering :=
  if gc_raises gc (calls r) call then Raise HostError
  else Ok (mkRendering (calls r ++ [call]) (gp r) (created r)).

(** Reading the local [gp]. *)
Definition read_gp (r : rendering) : result nat := local (gp r).

(** One turn of [for drawcmd, args, kwargs in self.pagedrawings[pageno]].
    The second component is the entry as the turn leaves it in the
    list: a font is scaled in place before the call and scaled back
    after it. *)
Definition RenderPage_entry (gc : GraphicsContext) (entry : drawcmd)
    (r : rendering) : result rendering * drawcmd :=
  match entry with
  | Cmd.SetFont f colour =>
      match font_scale gc with
      | Some fs =>
          let f1 := Font_Scale f fs in
          match gc_invoke gc (gc_SetFont f1 colour) r with
          | Ok r' =>
              match float_div 1 fs with
              | Ok back => (Ok r', Cmd.SetFont (Font_Scale f1 back) colour)
              | Raise e => (Raise e, Cmd.SetFont f1 colour)
              end
          | Raise e => (Raise e, Cmd.SetFont f1 colour)
          end
      | None => (gc_invoke gc (gc_SetFont f colour) r, entry)
      end
  | ConcatTransform a b c d e f =>
      (let? r := gc_invoke gc (gc_CreateMatrix a b c d e f) r in
       gc_invoke gc (gc_ConcatTransform (a, b, c, d, e, f)) r, entry)
  | CreatePath =>
      (let? r := gc_invoke gc gc_CreatePath r in
       Ok (mkRendering (calls r) (Some (created r)) (S (created r))), entry)
  | Cmd.DrawPath rule =>
      (let? p := read_gp r in gc_invoke gc (gc_DrawPath p rule) r, entry)
  | PushState => (gc_invoke gc gc_PushState r, entry)
  | PopState => (gc_invoke gc gc_PopState r, entry)
  | SetPen pen => (gc_invoke gc (gc_SetPen pen) r, entry)
  | SetBrush brush => (gc_invoke gc (gc_SetBrush brush) r, entry)
  | DrawText text x y => (gc_invoke gc (gc_DrawText text x y) r, entry)
  | DrawBitmap bitmap x y w h =>
      (gc_invoke gc (gc_DrawBitmap bitmap x y w h) r, entry)
  | MoveToPoint x y =>
      (let? p := read_gp r in gc_invoke gc (gp_MoveToPoint p x y) r, entry)
  | AddLineToPoint x y =>
      (let? p := read_gp r in gc_invoke gc (gp_AddLineToPoint p x y) r, entry)
  | AddRectangle x y w h =>
      (let? p := read_gp r in gc_invoke gc (gp_AddRectangle p x y w h) r, entry)
  | AddCurveToPoint args =>
      (let? p := read_gp r in gc_invoke gc (gp_AddCurveToPoint p args) r, entry)
  | CloseSubpath =>
      (let? p := read_gp r in gc_invoke gc (gp_CloseSubpath p) r, entry)
  end.

(** The loop: the outcome, the rendering reached (when a turn
    raises, the one before that turn), and the list as the loop
    leaves it. *)
Fixpoint RenderPage_loop (gc : GraphicsContext) (entries : list drawcmd)
    (r : rendering) : result unit * rendering * list drawcmd :=
  match entries with
  | [] => (Ok tt, r, [])
  | entry :: entries' =>
      match RenderPage_entry gc entry r with
      | (Ok r', entry') =>
          let '(res, r'', rest) := RenderPage_loop gc entries' r' in
          (res, r'', entry' :: rest)
      | (Raise e, entry') => (Raise e, r, entry' :: entries')
      end
  end.

(** [RenderPage]: the outcome, the calls made, and [pagedrawings]
    after it. *)
Definition RenderPage (gc : GraphicsContext)
    (pagedrawings : gmap Z (list drawcmd)) (pageno : Z)
    : result unit * list gc_call * gmap Z (list drawcmd) :=
  match pagedrawings !! pageno with
  | None => (Raise KeyError, [], pagedrawings)
  | Some entries =>
      let '(res, r, entries') :=
        RenderPage_loop gc entries (mkRendering [] None 0) in
      (res, calls r, <[pageno := entries']> pagedrawings)
  end.

(** *** Notions for the draw-list statements *)

(** The commands that set state, show text or draw a bitmap: no pen,
    no brush and no path. *)
Definition simple_cmd (c : drawcmd) : bool :=
  match c with
  | ConcatTransform _ _ _ _ _ _ | PushState | PopState | Cmd.SetFont _ _
  | DrawText _ _ _ | DrawBitmap _ _ _ _ _ => true
  | _ => false
  end.

(** What one operator appends to the draw list from the graphics
    state [g]: simple commands, or the commands of one [DrawPath]. *)
Definition segment (g : pdfState) (new : list drawcmd) : Prop :=
  forallb simple_cmd new = true
  \/ exists path action path', DrawPath g path action = Ok (new, path').

(** The width of a pen is at least 1. *)
Definition pen_wide (c : drawcmd) : Prop :=
  match c with
  | SetPen (Pen _ w _ _ _ _) => (1 <= w)%Q
  | _ => True
  end.

(** The line width is at least 1 in the current state and in every
    saved one. *)
Definition all_wide (s : interp) : Prop :=
  (1 <= lineWidth (gstate s))%Q
  /\ Forall (fun g => (1 <= lineWidth g)%Q) (saved_state s).

(** What drawing text leaves alone, besides the saved states: the
    line width. *)
Definition lw_framed (s s' : interp) : Prop :=
  saved_state s' = saved_state s
  /\ lineWidth (gstate s') = lineWidth (gstate s).

Definition lw_frame {A} (m : M A) : Prop := forall s, lw_framed s (m s).2.

(** Whether [RenderPage] finds [gp] bound wherever the entries read
    it, when it is bound at the start or not ([bound]). *)
Fixpoint gp_ready (bound : bool) (entries : list drawcmd) : bool :=
  match entries with
  | [] => true
  | CreatePath :: entries' => gp_ready true entries'
  | entry :: entries' =>
      (simple_cmd entry
       || match entry with SetPen _ | SetBrush _ => true | _ => bound end)
      && gp_ready bound entries'
  end.

(** The draw list after an operator is the one before it followed by
    [new]. *)
Definition appends (g : pdfState) (l l' : locals) : Prop :=
  exists new, drawlist l' = drawlist l ++ new /\ segment g new.

(** The operators that leave the line width and the saved states
    alone: all but q, Q, w, gs and Do. *)
Definition lw_plain_op (op : operation) : bool :=
  match op with
  | Op_q | Op_Q | Op_w _ | Op_gs _ | Op_Do _ => false
  | _ => true
  end.

(** Two commands of the same kind: equal, or two transforms, or two
    bitmaps. *)
Definition same_kind (c c' : drawcmd) : Prop :=
  match c, c' with
  | ConcatTransform _ _ _ _ _ _, ConcatTransform _ _ _ _ _ _ => True
  | DrawBitmap _ _ _ _ _, DrawBitmap _ _ _ _ _ => True
  | _, _ => c = c'
  end.

(** The number of transforms of a list: each takes two calls. *)
Definition transforms (entries : list drawcmd) : nat :=
  length (List.filter (fun c => match c with
                                | ConcatTransform _ _ _ _ _ _ => true
                                | _ => false
                                end) entries).

(** A graphics context on which no call raises and whose font scale,
    if it has one, is not zero. *)
Definition calm (gc : GraphicsContext) : Prop :=
  (forall trace call, gc_raises gc trace call = false)
  /\ match font_scale gc with
     | Some fs => ~ (fs == 0)%Q
     | None => True
     end.




(** *** Notions for the statements about forms *)

(** [Do name] where [name] is a form of the page. *)
Definition invokes_form (page : PageObject) (op : operation) : bool :=
  match op with
  | Op_Do name =>
      match XObject page !! name with
      | Some (XForm _) => true
      | _ => false
      end
  | _ => false
  end.

(** The operator list without its form invocations. *)
Definition without_forms (page : PageObject) (opslist : list operation)
    : list operation :=
  List.filter (fun op => negb (invokes_form page op)) opslist.

(** Two interpreters with the same graphics state and saved states. *)
Definition core_eq (s1 s2 : interp) : Prop :=
  gstate s1 = gstate s2 /\ saved_state s1 = saved_state s2.

(** ... and the same [knownfont]. *)
Definition core_eq_k (s1 s2 : interp) : Prop :=
  core_eq s1 s2 /\ knownfont s1 = knownfont s2.

(** [m] reads nothing of the interpreter but the graphics state and
    the saved states: from two interpreters that agree on them it gives
    the same outcome and interpreters that agree on them again. *)
Definition respects {A} (m : M A) : Prop :=
  forall s1 s2, core_eq s1 s2 ->
    (m s1).1 = (m s2).1 /\ core_eq (m s1).2 (m s2).2.

Definition respects_k {A} (m : M A) : Prop :=
  forall s1 s2, core_eq_k s1 s2 ->
    (m s1).1 = (m s2).1 /\ core_eq_k (m s1).2 (m s2).2.

(** ** [pypdfProcessor.FetchFonts] *)

(** What reading a key of a PDF dictionary gives: a value, the value
    [None] (for a library that answers a missing key so), or KeyError. *)
Inductive entry (A : Type) :=
| Found (a : A)
| ReadsNone
| Missing.
Arguments Found {A} a.
Arguments ReadsNone {A}.
Arguments Missing {A}.

(** The [/Font] dictionary in the order its keys are iterated: each
    font with what reading its [/BaseFont] gives. *)
Definition FontDict : Type := list (string * entry string).

(** [name[1:]]. *)
Definition tail_of (name : string) : string :=
  match name with
  | EmptyString => EmptyString
  | String _ r => r
  end.

(** The loop [for key in fonts]; at the first font whose [/BaseFont]
    cannot be sliced the exception leaves the loop and is caught, and
    the fonts entered so far are returned. *)
Fixpoint FetchFonts_loop (fonts : FontDict) (pdf_fonts : gmap string string)
    : gmap string string :=
  match fonts with
  | [] => pdf_fonts
  | (key, Found basefont) :: fonts' =>
      FetchFonts_loop fonts' (<[key := tail_of basefont]> pdf_fonts)
  | (key, ReadsNone) :: _ => pdf_fonts   (* TypeError, caught *)
  | (key, Missing) :: _ => pdf_fonts     (* KeyError, caught *)
  end.

(** [FetchFonts]: [resources] is what [currentobject["/Resources"]]
    gives and, inside it, what [['/Font']] gives. *)
Definition FetchFonts (resources : entry (entry FontDict))
    : result (gmap string string) :=
  match resources with
  | Missing => Ok ∅                       (* KeyError, caught *)
  | ReadsNone => Raise AttributeError     (* None.getObject() *)
  | Found Missing => Ok ∅                 (* KeyError, caught *)
  | Found ReadsNone => Ok ∅               (* fonts is None *)
  | Found (Found fonts) => Ok (FetchFonts_loop fonts ∅)
  end.

(** ** [pypdfProcessor.DrawFile] *)

(** A page of the document: its resources, what [FetchFonts] reads of
    it, and what [extractOperators] returns or raises. *)
Record DocPage := {
  page_resources : PageObject;
  page_fonts : entry (entry FontDict);
  page_operators : result (list operation) }.

(** What [DrawFile] shows: the progress dialog and the call of
    [self.parent.GoPage]. *)
Inductive ui_event :=
| Progress_start (value : Z)
| Progress_progress (value : Z)
| Progress_end
| GoPage (pagenum : Z).

(** The processor: the interpreter attributes, the page draw lists,
    the document and the events shown so far. *)
Record processor := mkProcessor {
  core : interp;
  pagedrawings : gmap Z (list drawcmd);
  events : list ui_event }.

(** [self.pdfdoc.getPage(pageno)]: an index into the list of pages,
    a negative one counting from the end. *)
Definition getPage (pdfdoc : list DocPage) (pageno : Z) : result DocPage :=
  let n := Z.of_nat (length pdfdoc) in
  if decide (0 <= pageno < n) then py_index pdfdoc (Z.to_nat pageno)
  else if decide (- n <= pageno < 0) then py_index pdfdoc (Z.to_nat (n + pageno))
  else Raise IndexError.

(** [range(a, b)]. *)
Definition py_range (a b : Z) : list Z :=
  map (fun i => a + Z.of_nat i) (seq 0 (Z.to_nat (b - a))).

(** [self.numpages]. *)
Definition numpages (pdfdoc : list DocPage) : Z := Z.of_nat (length pdfdoc).

(** One turn of [for pageno in range(frompage, topage+1)];
    [generated] is [numpages_generated] before the turn. *)
Definition DrawFile_page (host : Host) (depth : nat) (pdfdoc : list DocPage)
    (rp : bool) (pageno generated : Z) (p : processor)
    : result unit * processor :=
  let s := new_page (core p) in
  match getPage pdfdoc pageno with
  | Raise e => (Raise e, mkProcessor s (pagedrawings p) (events p))
  | Ok page =>
      match FetchFonts (page_fonts page) with
      | Raise e => (Raise e, mkProcessor s (pagedrawings p) (events p))
      | Ok pdf_fonts =>
          match page_operators page with
          | Raise e => (Raise e, mkProcessor s (pagedrawings p) (events p))
          | Ok opslist =>
              match ProcessOperators host depth (page_resources page)
                                     opslist pdf_fonts s with
              | (Raise e, s') =>
                  (Raise e, mkProcessor s' (pagedrawings p) (events p))
              | (Ok d, s') =>
                  (Ok tt,
                   mkProcessor s' (<[pageno := d]> (pagedrawings p))
                     (events p
                      ++ if rp then [Progress_progress (generated + 1)]
                         else []))
              end
          end
      end
  end.

Fixpoint DrawFile_loop (host : Host) (depth : nat) (pdfdoc : list DocPage)
    (rp : bool) (pagenos : list Z) (generated : Z) (p : processor)
    : result unit * processor :=
  match pagenos with
  | [] => (Ok tt, p)
  | pageno :: pagenos' =>
      match DrawFile_page host depth pdfdoc rp pageno generated p with
      | (Ok _, p') =>
          DrawFile_loop host depth pdfdoc rp pagenos' (generated + 1) p'
      | (Raise e, p') => (Raise e, p')
      end
  end.

(** [DrawFile]. *)
Definition DrawFile (host : Host) (depth : nat) (pdfdoc : list DocPage)
    (showloadprogress : bool) (frompage topage : Z) (p : processor)
    : result unit * processor :=
  let rp := showloadprogress && (frompage =? 0)
            && (topage =? numpages pdfdoc - 1) in
  let p := mkProcessor (core p) (pagedrawings p)
             (events p
              ++ if rp then [Progress_start (numpages pdfdoc)] else []) in
  match DrawFile_loop host depth pdfdoc rp
                      (py_range frompage (topage + 1)) 0 p with
  | (Ok _, p') =>
      (Ok tt,
       mkProcessor (core p') (pagedrawings p')
         (events p' ++ (if rp then [Progress_end] else []) ++ [GoPage frompage]))
  | (Raise e, p') => (Raise e, p')
  end.

(** The fonts before the first one whose [/BaseFont] cannot be read. *)
Fixpoint readable_fonts (fonts : FontDict) : list (string * string) :=
  match fonts with
  | (key, Found basefont) :: fonts' => (key, basefont) :: readable_fonts fonts'
  | _ => []
  end.

(** The draw list [DrawFile] stores for a page: what ProcessOperators
    returns for its operators and fonts from the state of a new page. *)
Definition drawn_from (host : Host) (depth : nat) (pdfdoc : list DocPage)
    (pageno : Z) (d : list drawcmd) : Prop :=
  exists page opslist pdf_fonts s s',
    getPage pdfdoc pageno = Ok page
    /\ page_operators page = Ok opslist
    /\ FetchFonts (page_fonts page) = Ok pdf_fonts
    /\ ProcessOperators host depth (page_resources page) opslist pdf_fonts
                        (new_page s) = (Ok d, s').

(** Events of the progress dialog while it is open. *)
Definition progress_event (ev : ui_event) : Prop :=
  match ev with
  | Progress_start _ | Progress_progress _ => True
  | _ => False
  end.

(** The state after [BT /F1 12 Tf 2 Tw] on a fresh page. *)
Definition spaced_state : interp :=
  Eval vm_compute in
    (exec_ops plain_host empty_page (ProcessOperators plain_host 0 empty_page)
              helvetica [Op_BT; Op_Tf "/F1" 12; Op_Tw 2] no_locals fresh).2.

(** A page with an extended graphics state whose line cap is not one
    of the three styles. *)
Definition bad_cap_page : PageObject := {|
  ExtGState := {[ "/GS1"%string := [EGS_LW 4; EGS_LC 5; EGS_LW 9] ]};
  XObject := ∅ |}.

(** A stream that strokes a thin rectangle and shows a text. *)
Definition thin_stream : list operation :=
  [Op_w (1 # 4); Op_path path_re [0; 0; 10; 10]%Q; Op_paint paint_S;
   Op_BT; Op_Tf "/F1" 12; Op_Tj (bytes_of_string "Hi"); Op_ET].

(** A graphics context that takes every call and renders fonts at
    twice their size. *)
Definition plain_gc : GraphicsContext := {|
  font_scale := Some 2%Q;
  gc_raises := fun _ _ => false |}.

(** A graphics context that takes every call and has no
    [font_scale] attribute. *)
Definition screen_gc : GraphicsContext := {|
  font_scale := None;
  gc_raises := fun _ _ => false |}.

(** A stream that invokes the form of [form_page] between two
    settings. *)
Definition form_stream : list operation :=
  [Op_w 3; Op_Do "/Fm0"; Op_path path_re [0; 0; 5; 5]%Q; Op_paint paint_f;
   Op_Do "/Fm0"].

(** A font dictionary whose second font has no [/BaseFont]. *)
Definition demo_fonts : FontDict :=
  [("/F1", Found "/Helvetica"); ("/F2", Missing); ("/F3", Found "/Courier")]%string.

(** A document of two pages. *)
Definition demo_doc : list DocPage :=
  [ {| page_resources := empty_page;
       page_fonts := Found (Found demo_fonts);
       page_operators := Ok thin_stream |};
    {| page_resources := form_page;
       page_fonts := Missing;
       page_operators := Ok form_stream |} ].

(* ================================================================= *)
(** * Theorems *)

(** ** Rounding *)




(** ** Floats *)

Lemma pow2_pos e : (0 < 2 ^ e)%Q.
Proof. apply Qpower_0_lt. reflexivity. Qed.






Lemma float_round_opp q : float_round (- q) = (- float_round q)%Q.
Proof.
  unfold float_round, float_exponent.
  assert (Qabs (- q) = Qabs q) as ->.
  { destruct q as [a d]. unfold Qabs, Qopp. cbn. rewrite Z.abs_opp.
    reflexivity. }
  set (v := Qred _).
  destruct q as [a d]. cbn [Qopp Qnum].
  destruct (Z.ltb_spec (- a) 0), (Z.ltb_spec a 0); try lia.
  - reflexivity.
  - destruct v as [n dv]. unfold Qopp. cbn. rewrite Z.opp_involutive.
    reflexivity.
  - assert (a = 0) as -> by lia.
    subst v. vm_compute. reflexivity.
Qed.









Lemma py_round_Z x z : (x == inject_Z z)%Q -> py_round x = z.
Proof.
  intros H. unfold py_round.
  assert (Qfloor x = z) as -> by (rewrite H; apply Qfloor_Z).
  assert ((x - inject_Z z ?= 1 # 2)%Q = Lt) as ->; [|reflexivity].
  apply Qlt_alt. rewrite H. unfold Qminus. rewrite Qplus_opp_r. reflexivity.
Qed.

Lemma Qlog2_Z n : 0 < n -> Qlog2 (inject_Z n) = Z.log2 n.
Proof.
  intros Hn. unfold Qlog2, inject_Z. cbn [Qnum Qden].
  change (Z.log2 1) with 0. rewrite Z.sub_0_r.
  assert (Qle_bool (2 ^ Z.log2 n) (n # 1) = true) as ->; [|reflexivity].
  apply Qle_bool_iff. change (n # 1) with (inject_Z n).
  change 2%Q with (inject_Z 2).
  rewrite <- Zpower_Qpower by apply Z.log2_nonneg.
  rewrite <- Zle_Qle. apply Z.log2_spec, Hn.
Qed.

(** An integer below [2^53] is a float. *)
Lemma float_round_integer n :
  Z.abs n < 2 ^ 53 -> float_round (inject_Z n) = inject_Z n.
Proof.
  assert (Hpos : forall n, 0 < n < 2 ^ 53 ->
                           float_round (inject_Z n) = inject_Z n).
  { clear n. intros n [Hn Hlt]. unfold float_round, float_exponent.
    assert (Qabs (inject_Z n) = inject_Z n) as ->.
    { unfold Qabs, inject_Z. rewrite Z.abs_eq by lia. reflexivity. }
    assert (Qred (inject_Z n) = inject_Z n) as ->.
    { apply Qred_identity. cbn. apply Z.gcd_1_r. }
    rewrite Qlog2_Z by exact Hn.
    assert (Z.log2 n <= 52) as Hk.
    { apply Z.lt_succ_r, Z.log2_lt_pow2; [lia|]. exact Hlt. }
    pose proof (Z.log2_nonneg n) as Hk0.
    rewrite Z.max_l by lia.
    set (k := Z.log2 n) in *.
    assert (2 ^ (52 - k) == / 2 ^ (k - 52))%Q as Hinv.
    { replace (52 - k) with (- (k - 52)) by lia. apply Qpower_opp. }
    pose proof (pow2_pos (k - 52)) as HP.
    assert (inject_Z (n * 2 ^ (52 - k)) == inject_Z n / 2 ^ (k - 52))%Q as Hm.
    { rewrite inject_Z_mult, Zpower_Qpower by lia.
      change (inject_Z 2) with 2%Q. rewrite Hinv. reflexivity. }
    rewrite (py_round_Z _ _ (Qeq_sym _ _ Hm)).
    assert ((Qnum (inject_Z n) <? 0) = false) as -> by (cbn; lia).
    transitivity (Qred (inject_Z n));
      [|apply Qred_identity; cbn; apply Z.gcd_1_r].
    apply Qred_complete. rewrite Hm. field. lra. }
  intros Hn. destruct (Z.lt_trichotomy n 0) as [H|[->|H]].
  - replace (inject_Z n) with (- inject_Z (- n))%Q
      by (unfold inject_Z, Qopp; cbn; rewrite Z.opp_involutive; reflexivity).
    rewrite float_round_opp, Hpos by lia. reflexivity.
  - reflexivity.
  - apply Hpos. lia.
Qed.

(** The rounding on known values: 0.1 and 1/3 as Python prints their
    exact values, the ties at 2^53 + 1 and 2^53 + 3, which go to the
    even mantissa, and a subnormal result. *)
Lemma float_round_examples :
  float_round (1 # 10) = (3602879701896397 # 36028797018963968)%Q
  /\ float_round (1 # 3) = (6004799503160661 # 18014398509481984)%Q
  /\ float_round (inject_Z (2 ^ 53 + 1)) = inject_Z (2 ^ 53)
  /\ float_round (inject_Z (2 ^ 53 + 3)) = inject_Z (2 ^ 53 + 4)
  /\ float_round ((3 # 2) * 2 ^ (-1074)) = (2 ^ (-1073))%Q
  /\ float_sub (float_round (2 # 10)) (float_round (3 # 10))
     = (- (900719925474099 # 9007199254740992))%Q.
Proof. repeat split; vm_compute; reflexivity. Qed.


(** ** Colour operators *)




(** ** Colour-key masks *)

Lemma in_key_range_tests R1 R9 G1 G9 B1 B9 R G B :
  (R1 <=? R) && (R <=? R9) && (G1 <=? G) && (G <=? G9) && (B1 <=? B) && (B <=? B9)
  = in_key_range R1 R9 G1 G9 B1 B9 [R; G; B].
Proof.
  unfold in_key_range.
  destruct (bool_decide_reflect (R1 <= R <= R9 /\ G1 <= G <= G9 /\ B1 <= B <= B9))
    as [H|H].
  - repeat (apply andb_true_intro; split); apply Z.leb_le; lia.
  - apply not_true_is_false. intros E.
    repeat (apply andb_prop in E; destruct E as [E ?]).
    apply H. rewrite !Z.leb_le in *. lia.
Qed.

Lemma BytesIO_write_inside buf p chunk :
  (p <= length buf)%nat ->
  BytesIO_write (mkBytesIO buf p) chunk
  = mkBytesIO (take p buf ++ chunk ++ drop (p + length chunk) buf)
              (p + length chunk).
Proof.
  intros Hp. unfold BytesIO_write; simpl.
  replace (p - length buf)%nat with 0%nat by lia. reflexivity.
Qed.

Lemma length_recolour R1 R9 G1 G9 B1 B9 key n : forall data,
  length key = 3%nat -> length data = (3 * n)%nat ->
  length (recolour R1 R9 G1 G9 B1 B9 key data) = length data.
Proof.
  induction n as [|n IH]; intros data Hk Hd.
  - destruct data; [reflexivity | discriminate].
  - destruct data as [|R [|G [|B rest]]]; simpl in Hd; try lia.
    cbn [recolour]. rewrite length_app, IH by (auto; lia).
    destruct (in_key_range _ _ _ _ _ _ _); simpl; lia.
Qed.

Lemma FixColour_loop_writes R1 R9 G1 G9 B1 B9 key n : forall rest buf p,
  length key = 3%nat -> length rest = (3 * n)%nat ->
  (p + length rest <= length buf)%nat ->
  FixColour_loop R1 R9 G1 G9 B1 B9 key rest (mkBytesIO buf p)
  = Ok (mkBytesIO (take p buf ++ recolour R1 R9 G1 G9 B1 B9 key rest
                     ++ drop (p + length rest) buf)
                  (p + length rest)).
Proof.
  induction n as [|n IH]; intros rest buf p Hk Hr Hp.
  - destruct rest; [|discriminate]. simpl.
    rewrite Nat.add_0_r, take_drop. reflexivity.
  - destruct rest as [|R [|G [|B rest]]]; simpl in Hr; try lia.
    cbn [FixColour_loop recolour]. rewrite in_key_range_tests.
    set (c := if in_key_range R1 R9 G1 G9 B1 B9 [R; G; B] then key else [R; G; B]).
    assert (Hc : length c = 3%nat)
      by (subst c; destruct (in_key_range _ _ _ _ _ _ _); auto).
    replace (if in_key_range R1 R9 G1 G9 B1 B9 [R; G; B]
             then BytesIO_write (mkBytesIO buf p) key
             else BytesIO_write (mkBytesIO buf p) [R; G; B])
      with (BytesIO_write (mkBytesIO buf p) c)
      by (subst c; destruct (in_key_range _ _ _ _ _ _ _); reflexivity).
    simpl in Hp.
    rewrite BytesIO_write_inside by lia. rewrite Hc.
    rewrite IH; [| assumption | lia |].
    2:{ rewrite !length_app, length_take, length_drop. lia. }
    f_equal.
    assert (Hpre : length (take p buf) = p) by (rewrite length_take; lia).
    f_equal.
    + rewrite (app_assoc (take p buf) c).
      rewrite take_app_length'; [| rewrite length_app; lia].
      rewrite <- !app_assoc. f_equal. f_equal. f_equal.
      rewrite (app_assoc (take p buf) c).
      rewrite drop_app_ge; [| rewrite length_app; lia].
      rewrite length_app, Hpre, Hc, drop_drop.
      f_equal. simpl. lia.
    + simpl. lia.
Qed.

Lemma pixel_recolour R1 R9 G1 G9 B1 B9 key : forall i data,
  length key = 3%nat -> (3 * i + 3 <= length data)%nat ->
  pixel (recolour R1 R9 G1 G9 B1 B9 key data) i
  = if in_key_range R1 R9 G1 G9 B1 B9 (pixel data i) then key else pixel data i.
Proof.
  induction i as [|i IH]; intros data Hk Hd.
  - destruct data as [|R [|G [|B rest]]]; simpl in Hd; try lia.
    unfold pixel. cbn [recolour]. change (3 * 0)%nat with 0%nat.
    rewrite !drop_0.
    change (take 3 (R :: G :: B :: rest)) with [R; G; B].
    destruct (in_key_range _ _ _ _ _ _ _).
    + rewrite take_app_length'; auto.
    + reflexivity.
  - destruct data as [|R [|G [|B rest]]]; simpl in Hd; try lia.
    unfold pixel in *. cbn [recolour].
    replace (3 * S i)%nat with (3 + 3 * i)%nat by lia.
    rewrite <- !drop_drop.
    rewrite drop_app_length'.
    2:{ destruct (in_key_range _ _ _ _ _ _ _); auto. }
    change (drop 3 (R :: G :: B :: rest)) with rest.
    apply IH; [assumption | lia].
Qed.

(** C9. For a raster of 3n bytes, a 6-byte range and a 3-byte key,
    [FixColour] returns a raster of the same length in which each
    pixel whose three components lie in their inclusive ranges is the
    key and every other pixel is the input pixel; under the range
    R in [250,255], G in [0,5], B in [0,5] the pixel (252,2,1) is
    replaced and (100,100,100) is kept. *)
Theorem colour_key_rewrite (RGBdata : bytes) (R1 R9 G1 G9 B1 B9 k1 k2 k3 : Z) (n : nat) :
  length RGBdata = (3 * n)%nat ->
  exists d2,
    FixColour RGBdata [R1; R9; G1; G9; B1; B9] [k1; k2; k3] = Ok d2
    /\ length d2 = length RGBdata
    /\ (forall i, (i < n)%nat ->
          pixel d2 i = if in_key_range R1 R9 G1 G9 B1 B9 (pixel RGBdata i)
                       then [k1; k2; k3] else pixel RGBdata i)
    /\ FixColour [252; 2; 1; 100; 100; 100] [250; 255; 0; 5; 0; 5] [k1; k2; k3]
       = Ok [k1; k2; k3; 100; 100; 100].
Proof.
  intros Hn.
  set (key := [k1; k2; k3]).
  exists (recolour R1 R9 G1 G9 B1 B9 key RGBdata).
  assert (Hlen : length (recolour R1 R9 G1 G9 B1 B9 key RGBdata) = length RGBdata)
    by (apply (length_recolour _ _ _ _ _ _ _ n); auto).
  split; [|split; [|split]].
  - unfold FixColour, BytesIO_new.
    rewrite (FixColour_loop_writes _ _ _ _ _ _ _ n); auto.
    2:{ unfold zeros. rewrite length_replicate. simpl. lia. }
    cbn [rbind getvalue]. simpl take. simpl Nat.add.
    rewrite drop_ge by (unfold zeros; rewrite length_replicate; lia).
    rewrite app_nil_r.
    rewrite decide_True by (symmetry; exact Hlen). reflexivity.
  - exact Hlen.
  - intros i Hi. apply pixel_recolour; [reflexivity | lia].
  - reflexivity.
Qed.

Lemma colour_key_rewrite_witness :
  length [252; 2; 1; 100; 100; 100] = (3 * 2)%nat
  /\ exists d2,
      FixColour [252; 2; 1; 100; 100; 100] [250; 255; 0; 5; 0; 5] [9; 9; 9]
      = Ok d2
      /\ length d2 = length [252; 2; 1; 100; 100; 100]
      /\ (forall i, (i < 2)%nat ->
            pixel d2 i
            = if in_key_range 250 255 0 5 0 5 (pixel [252; 2; 1; 100; 100; 100] i)
              then [9; 9; 9] else pixel [252; 2; 1; 100; 100; 100] i)
      /\ FixColour [252; 2; 1; 100; 100; 100] [250; 255; 0; 5; 0; 5] [9; 9; 9]
         = Ok [9; 9; 9; 100; 100; 100].
Proof.
  split; [reflexivity|].
  apply (colour_key_rewrite [252; 2; 1; 100; 100; 100] 250 255 0 5 0 5 9 9 9 2).
  reflexivity.
Defined.

(** ** De-indexing *)

Lemma BytesIO_writes (f : Z -> bytes) : forall (bs : list Z) buf p,
  (p <= length buf)%nat ->
  fold_left (fun d2b b => BytesIO_write d2b (f b)) bs (mkBytesIO buf p)
  = mkBytesIO (take p buf ++ flat_map f bs
                 ++ drop (p + length (flat_map f bs)) buf)
              (p + length (flat_map f bs)).
Proof.
  induction bs as [|b bs IH]; intros buf p Hp.
  - simpl. rewrite Nat.add_0_r, take_drop. reflexivity.
  - cbn [fold_left flat_map].
    rewrite BytesIO_write_inside by assumption.
    assert (Hpre : length (take p buf) = p) by (rewrite length_take; lia).
    rewrite IH.
    2:{ rewrite !length_app, Hpre, length_drop. lia. }
    rewrite length_app. f_equal; [|lia].
    rewrite (app_assoc (take p buf) (f b)).
    rewrite take_app_length' by (rewrite length_app; lia).
    rewrite <- !app_assoc. f_equal. f_equal. f_equal.
    rewrite (app_assoc (take p buf) (f b)).
    rewrite drop_app_ge by (rewrite length_app; lia).
    rewrite length_app, Hpre, drop_drop. f_equal. lia.
Qed.

Lemma flat_map_flat_map {A B C} (f : A -> list B) (g : B -> list C) l :
  flat_map g (flat_map f l) = flat_map (fun a => flat_map g (f a)) l.
Proof.
  induction l as [|a l IH]; simpl; [reflexivity|].
  rewrite flat_map_app, IH. reflexivity.
Qed.

Lemma fold_left_flat_map {A B S} (step : S -> B -> S) (f : A -> list B) l : forall s,
  fold_left (fun s a => fold_left step (f a) s) l s
  = fold_left step (flat_map f l) s.
Proof.
  induction l as [|a l IH]; intros s; simpl; [reflexivity|].
  rewrite fold_left_app. apply IH.
Qed.

(** [DeindexImage] returns what it wrote, followed by the part of the
    zero-filled buffer the writes did not reach. *)
Lemma DeindexImage_result width height data x_depth x_palette_size x_palette
    palette_chunk :
  0 <= width * height * Z.of_nat palette_chunk ->
  let W := DeindexImage_written x_depth x_palette palette_chunk data in
  DeindexImage width height data x_depth x_palette_size x_palette palette_chunk
  = Ok (W ++ drop (length W)
                  (zeros (Z.to_nat (width * height * Z.of_nat palette_chunk)))).
Proof.
  intros Hsize W. unfold DeindexImage.
  rewrite decide_False by lia. f_equal.
  rewrite (fold_left_flat_map
             (fun d2b b => BytesIO_write d2b (palette_entry x_palette palette_chunk b))
             (DeindexImage_samples x_depth)).
  unfold BytesIO_new. rewrite BytesIO_writes by lia.
  cbn [getvalue]. simpl take. simpl Nat.add.
  rewrite flat_map_flat_map. reflexivity.
Qed.

Lemma samples_depth1 d : DeindexImage_samples 1 d = spec_samples 1 d.
Proof.
  unfold DeindexImage_samples, spec_samples.
  rewrite decide_True by reflexivity.
  change (Z.to_nat (8 / 1)) with 8%nat. cbn [seq map].
  change (Z.ones 1) with 1.
  rewrite !Z.shiftr_land.
  change (8 - 1 * (Z.of_nat 7 + 1)) with 0.
  rewrite Z.shiftr_0_r. reflexivity.
Qed.

Lemma samples_depth8 d : 0 <= d < 256 -> DeindexImage_samples 8 d = spec_samples 8 d.
Proof.
  intros Hd. unfold DeindexImage_samples, spec_samples.
  rewrite !decide_False by discriminate. rewrite decide_True by reflexivity.
  change (Z.to_nat (8 / 8)) with 1%nat. cbn [seq map].
  change (8 - 8 * (Z.of_nat 0 + 1)) with 0.
  rewrite Z.shiftr_0_r.
  rewrite Z.land_ones by lia. rewrite Z.mod_small by (simpl; lia). reflexivity.
Qed.


Lemma DeindexImage_written_depth1 x_palette data :
  DeindexImage_written 1 x_palette 3 data = spec_deindex 1 x_palette data.
Proof.
  unfold DeindexImage_written, spec_deindex.
  induction data as [|d data IH]; [reflexivity|].
  cbn [flat_map]. rewrite IH, samples_depth1. reflexivity.
Qed.

Lemma DeindexImage_written_depth8 x_palette data :
  Forall (fun d => 0 <= d < 256) data ->
  DeindexImage_written 8 x_palette 3 data = spec_deindex 8 x_palette data.
Proof.
  unfold DeindexImage_written, spec_deindex.
  induction 1 as [|d data Hd _ IH]; [reflexivity|].
  cbn [flat_map]. rewrite IH, samples_depth8 by assumption. reflexivity.
Qed.

(** At depth 2 every sample of a byte is its two lowest bits. *)
Lemma samples_depth2 d :
  DeindexImage_samples 2 d = replicate 4 (Z.land d 3).
Proof. reflexivity. Qed.

(** At depth 4 the low nibble is written before the high one. *)
Lemma samples_depth4 d :
  DeindexImage_samples 4 d = [Z.land d 15; Z.shiftr (Z.land d 240) 4].
Proof. reflexivity. Qed.

(** C5. Depths 1 and 8 unpack as the claim says (lemmas above), and
    depth-8 samples 0, 1, 2 through the identity palette give
    0,0,0,1,1,1,2,2,2.  At depth 2 the byte 11100100 yields the samples
    0,0,0,0 where big-endian order gives 3,2,1,0, and at depth 4 the
    byte 00010010 yields 2,1 where big-endian order gives 1,2. *)
Theorem deindex_depth2_depth4_diverge :
  (* depth 2, the byte 11 10 01 00 *)
  DeindexImage_samples 2 228 = [0; 0; 0; 0]
  /\ spec_samples 2 228 = [3; 2; 1; 0]
  /\ DeindexImage 4 1 [228] 2 12 palette_2 3
     = Ok [0; 0; 0; 0; 0; 0; 0; 0; 0; 0; 0; 0]
  /\ spec_deindex 2 palette_2 [228]
     = [255; 255; 255; 170; 170; 170; 85; 85; 85; 0; 0; 0]
  (* depth 4, the byte 0001 0010 *)
  /\ DeindexImage_samples 4 18 = [2; 1]
  /\ spec_samples 4 18 = [1; 2]
  /\ DeindexImage 2 1 [18] 4 48 palette_4 3 = Ok [34; 34; 34; 17; 17; 17]
  /\ spec_deindex 4 palette_4 [18] = [17; 17; 17; 34; 34; 34]
  (* depth 8 through the identity palette *)
  /\ DeindexImage 3 1 [0; 1; 2] 8 768 palette_8 3
     = Ok [0; 0; 0; 1; 1; 1; 2; 2; 2].
Proof. vm_compute. repeat split; reflexivity. Qed.

(** ** Rectangles *)



Lemma same_rectangle_refl c : same_rectangle c c.
Proof. destruct c; simpl; try reflexivity. repeat split; reflexivity. Qed.

Lemma Forall2_same_rectangle_refl l : Forall2 same_rectangle l l.
Proof. induction l; constructor; auto using same_rectangle_refl. Qed.



(** The integers below 2^53 are floats. *)
Lemma integer_is_float n : Z.abs n < 2 ^ 53 -> is_float (inject_Z n).
Proof.
  intros Hn. unfold is_float. rewrite (float_round_integer n Hn).
  reflexivity.
Qed.

(** A path operator stores its operands as [float(n)] made them. *)
Lemma exec_op_path_floats host page rec pdf_fonts operator operand l s :
  exec_op host page rec pdf_fonts (Op_path operator operand) l s
  = (Ok (mkLocals (drawlist l)
                  (path l ++ [(map py_float operand, operator)])
                  (Some false) (NewClippingRule l)), s).
Proof. reflexivity. Qed.




(** ** The transform fold *)

Lemma fold_pairs_other c1 c2 rest :
  is_pair c1 c2 = false ->
  fold_pairs (c1 :: c2 :: rest)
  = let? tl' := fold_pairs (c2 :: rest) in Ok (c1 :: tl').
Proof. destruct c1, c2; simpl; intros H; try discriminate H; reflexivity. Qed.

Lemma fold_pairs_single c : fold_pairs [c] = Ok [c].
Proof. destruct c; reflexivity. Qed.

Lemma fold_pairs_DrawBitmap bmp x y w h rest :
  fold_pairs (DrawBitmap bmp x y w h :: rest)
  = let? r := fold_pairs rest in Ok (DrawBitmap bmp x y w h :: r).
Proof. reflexivity. Qed.

Lemma fold_transform_at_other pre c1 c2 rest :
  is_pair c1 c2 = false ->
  fold_transform_at (pre ++ c1 :: c2 :: rest) (length pre)
  = Ok (pre ++ c1 :: c2 :: rest).
Proof.
  intros H. unfold fold_transform_at.
  rewrite lookup_app_r, Nat.sub_diag by lia. cbn [lookup list_lookup].
  rewrite lookup_app_r by lia.
  replace (length pre + 1 - length pre)%nat with 1%nat by lia.
  cbn [lookup list_lookup].
  destruct c1, c2; try reflexivity; discriminate H.
Qed.

Lemma fold_transform_at_pair pre a b c d e f bmp x y w0 h0 rest :
  fold_transform_at
    (pre ++ ConcatTransform a b c d e f :: DrawBitmap bmp x y w0 h0 :: rest)
    (length pre)
  = let? b' := py_div b a in
    let? c' := py_div c d in
    Ok ((pre ++ [ConcatTransform 1 b' c' 1 e f])
          ++ DrawBitmap bmp x (- d)%Q a d :: rest).
Proof.
  unfold fold_transform_at.
  rewrite lookup_app_r, Nat.sub_diag by lia. cbn [lookup list_lookup].
  rewrite lookup_app_r by lia.
  replace (length pre + 1 - length pre)%nat with 1%nat by lia.
  cbn [lookup list_lookup].
  destruct (py_div b a) as [b'|]; [|reflexivity].
  destruct (py_div c d) as [c'|]; [|reflexivity].
  cbn [rbind]. f_equal.
  rewrite insert_app_r_alt, Nat.sub_diag by lia. cbn [insert list_insert].
  rewrite insert_app_r_alt by lia.
  replace (length pre + 1 - length pre)%nat with 1%nat by lia.
  cbn [insert list_insert]. rewrite <- app_assoc. reflexivity.
Qed.

(** The loop over indices computes [fold_pairs]. *)
Lemma fold_transform_loop_pairs n : forall l pre,
  length l = n ->
  fold_transform_loop (seq (length pre) (length l - 1)) (pre ++ l)
  = let? l' := fold_pairs l in Ok (pre ++ l').
Proof.
  induction n as [|n IH]; intros l pre Hl.
  - destruct l; [|discriminate]. reflexivity.
  - destruct l as [|c1 [|c2 rest]]; [discriminate| |].
    + rewrite fold_pairs_single. reflexivity.
    + cbn [length] in *. replace (S (S (length rest)) - 1)%nat
        with (S (length rest)) by lia.
      cbn [seq fold_transform_loop].
      destruct (is_pair c1 c2) eqn:Hp.
      * destruct c1; try discriminate Hp. destruct c2; try discriminate Hp.
        rewrite fold_transform_at_pair. cbn [fold_pairs].
        destruct (py_div b a) as [b'|]; [|reflexivity].
        destruct (py_div c d) as [c'|]; [|reflexivity].
        cbn [rbind].
        specialize (IH (DrawBitmap bitmap x (- d)%Q a d :: rest)
                       (pre ++ [ConcatTransform 1 b' c' 1 e f])).
        rewrite length_app in IH. cbn [length] in IH.
        replace (length pre + 1)%nat with (S (length pre)) in IH by lia.
        replace (S (length rest) - 1)%nat with (length rest) in IH by lia.
        rewrite IH by lia. rewrite fold_pairs_DrawBitmap.
        destruct (fold_pairs rest); [|reflexivity].
        cbn [rbind]. rewrite <- app_assoc. reflexivity.
      * rewrite fold_transform_at_other by assumption. cbn [rbind].
        rewrite fold_pairs_other by assumption.
        specialize (IH (c2 :: rest) (pre ++ [c1])).
        rewrite length_app in IH. cbn [length] in IH.
        replace (length pre + 1)%nat with (S (length pre)) in IH by lia.
        replace (S (length rest) - 1)%nat with (length rest) in IH by lia.
        rewrite <- app_assoc in IH. cbn [app] in IH.
        rewrite IH by lia.
        destruct (fold_pairs (c2 :: rest)); [|reflexivity].
        cbn [rbind]. rewrite <- app_assoc. reflexivity.
Qed.

Lemma fold_transform_pairs l : fold_transform l = fold_pairs l.
Proof.
  unfold fold_transform.
  pose proof (fold_transform_loop_pairs (length l) l [] eq_refl) as H.
  cbn [length app] in H. rewrite H.
  destruct (fold_pairs l); reflexivity.
Qed.

Lemma fold_pairs_keep c1 tl :
  (forall c2 rest, tl = c2 :: rest -> is_pair c1 c2 = false) ->
  fold_pairs (c1 :: tl) = let? tl' := fold_pairs tl in Ok (c1 :: tl').
Proof.
  intros H. destruct tl as [|c2 rest].
  - rewrite fold_pairs_single. reflexivity.
  - apply fold_pairs_other. eapply H. reflexivity.
Qed.

Lemma pairs_ind (P : list drawcmd -> Prop) :
  P [] ->
  (forall c1 tl,
      (forall c2 rest, tl = c2 :: rest -> is_pair c1 c2 = false) ->
      P tl -> P (c1 :: tl)) ->
  (forall a b c d e f bmp x y w0 h0 rest,
      P rest ->
      P (ConcatTransform a b c d e f :: DrawBitmap bmp x y w0 h0 :: rest)) ->
  forall l, P l.
Proof.
  intros Hnil Hkeep Hpair l.
  remember (length l) as n eqn:Hn.
  revert l Hn. induction n as [n IH] using lt_wf_ind. intros l Hn.
  destruct l as [|c1 [|c2 rest]].
  - exact Hnil.
  - apply Hkeep; [intros ? ? E; discriminate E | exact Hnil].
  - destruct (is_pair c1 c2) eqn:Hp.
    + destruct c1; try discriminate Hp. destruct c2; try discriminate Hp.
      apply Hpair. apply (IH (length rest)); [simpl in Hn; lia | reflexivity].
    + apply Hkeep.
      * intros c2' rest' E. injection E as <- <-. exact Hp.
      * apply (IH (length (c2 :: rest))); [simpl in *; lia | reflexivity].
Qed.

Lemma py_div_nonzero x y :
  Qeq_bool y 0 = false -> py_div x y = Ok (x / y)%Q.
Proof. intros H. unfold py_div. rewrite H. reflexivity. Qed.

Lemma py_div_zero x y :
  Qeq_bool y 0 = true -> py_div x y = Raise ZeroDivisionError.
Proof. intros H. unfold py_div. rewrite H. reflexivity. Qed.

Lemma py_div_of_zero y q : py_div 0 y = Ok q -> (q == 0)%Q.
Proof.
  unfold py_div. destruct (Qeq_bool y 0); [discriminate|].
  intros [= <-]. unfold Qdiv. ring.
Qed.

Lemma nonzero_scales_keep c1 tl :
  (forall c2 rest, tl = c2 :: rest -> is_pair c1 c2 = false) ->
  nonzero_scales (c1 :: tl) = nonzero_scales tl.
Proof.
  intros H. destruct tl as [|c2 rest].
  - destruct c1; reflexivity.
  - specialize (H c2 rest eq_refl).
    destruct c1, c2; try reflexivity; discriminate H.
Qed.

(** The fold succeeds exactly on the lists with non-zero scales. *)
Lemma fold_pairs_total l :
  if nonzero_scales l then exists l', fold_pairs l = Ok l'
  else fold_pairs l = Raise ZeroDivisionError.
Proof.
  induction l as [|c1 tl Hk IH|a b c d e f bmp x y w0 h0 rest IH] using pairs_ind.
  - exists []. reflexivity.
  - rewrite nonzero_scales_keep, fold_pairs_keep by assumption.
    destruct (nonzero_scales tl).
    + destruct IH as [tl' ->]. eexists. reflexivity.
    + rewrite IH. reflexivity.
  - cbn [nonzero_scales fold_pairs].
    destruct (Qeq_bool a 0) eqn:Ha.
    { rewrite py_div_zero by assumption. reflexivity. }
    rewrite py_div_nonzero by assumption.
    destruct (Qeq_bool d 0) eqn:Hd.
    { rewrite py_div_zero by assumption. reflexivity. }
    rewrite py_div_nonzero by assumption. cbn [negb andb rbind].
    destruct (nonzero_scales rest).
    + destruct IH as [r ->]. eexists. reflexivity.
    + rewrite IH. reflexivity.
Qed.

Lemma fold_pairs_length l : forall l',
  fold_pairs l = Ok l' -> length l' = length l.
Proof.
  induction l as [|c1 tl Hk IH|a b c d e f bmp x y w0 h0 rest IH] using pairs_ind;
    intros l' H.
  - injection H as <-. reflexivity.
  - rewrite fold_pairs_keep in H by assumption.
    destruct (fold_pairs tl) as [tl'|]; [|discriminate].
    injection H as <-. simpl. f_equal. apply IH. reflexivity.
  - cbn [fold_pairs] in H.
    destruct (py_div b a); [|discriminate].
    destruct (py_div c d); [|discriminate].
    destruct (fold_pairs rest) as [r|]; [|discriminate].
    injection H as <-. simpl. do 2 f_equal. apply IH. reflexivity.
Qed.

(** What the fold leaves at each index. *)
Lemma fold_pairs_lookup l : forall l' k,
  fold_pairs l = Ok l' ->
  (forall a b c d e f bmp x y w0 h0,
      l !! k = Some (ConcatTransform a b c d e f) ->
      l !! S k = Some (DrawBitmap bmp x y w0 h0) ->
      exists b' c',
        py_div b a = Ok b' /\ py_div c d = Ok c'
        /\ l' !! k = Some (ConcatTransform 1 b' c' 1 e f)
        /\ l' !! S k = Some (DrawBitmap bmp x (- d)%Q a d))
  /\ (forall a b c d e f,
        l !! k = Some (ConcatTransform a b c d e f) ->
        (forall bmp x y w0 h0, l !! S k <> Some (DrawBitmap bmp x y w0 h0)) ->
        l' !! k = Some (ConcatTransform a b c d e f)).
Proof.
  induction l as [|c1 tl Hk IH|a0 b0 c0 d0 e0 f0 bmp0 x0 y0 w00 h00 rest IH]
    using pairs_ind; intros l' k H.
  - split; intros; discriminate.
  - rewrite fold_pairs_keep in H by assumption.
    destruct (fold_pairs tl) as [tl'|] eqn:Htl; [|discriminate].
    injection H as <-.
    destruct k as [|k].
    + split.
      * intros a b c d e f bmp x y w0 h0 H0 H1. exfalso.
        cbn in H0. injection H0 as ->.
        destruct tl as [|c2 rest]; [discriminate|].
        cbn in H1. injection H1 as ->.
        specialize (Hk _ _ eq_refl). discriminate Hk.
      * intros a b c d e f H0 _. exact H0.
    + destruct (IH tl' k eq_refl) as [IHa IHb]. split.
      * intros a b c d e f bmp x y w0 h0 H0 H1.
        apply (IHa a b c d e f bmp x y w0 h0 H0 H1).
      * intros a b c d e f H0 H1. apply (IHb a b c d e f H0 H1).
  - cbn [fold_pairs] in H.
    destruct (py_div b0 a0) as [b'|] eqn:Hb; [|discriminate].
    destruct (py_div c0 d0) as [c'|] eqn:Hc; [|discriminate].
    destruct (fold_pairs rest) as [r|] eqn:Hr; [|discriminate].
    injection H as <-.
    destruct k as [|[|k]].
    + split.
      * intros a b c d e f bmp x y w0 h0 H0 H1.
        cbn in H0, H1. injection H0 as -> -> -> -> -> ->.
        injection H1 as -> -> -> -> ->.
        exists b', c'. repeat split; assumption || reflexivity.
      * intros a b c d e f _ H1. exfalso. eapply H1. reflexivity.
    + split; intros; discriminate.
    + destruct (IH r k eq_refl) as [IHa IHb]. split.
      * intros a b c d e f bmp x y w0 h0 H0 H1.
        apply (IHa a b c d e f bmp x y w0 h0 H0 H1).
      * intros a b c d e f H0 H1. apply (IHb a b c d e f H0 H1).
Qed.

(** C4, amended. On a draw list in which no ConcatTransform directly
    before a DrawBitmap has a zero first or fourth argument, the fold
    completes, keeps the length, rewrites each ConcatTransform(sx,0,0,
    sy,tx,ty) directly before DrawBitmap(bmp,x,y,w0,h0) to
    ConcatTransform(1,0,0,1,tx,ty) and DrawBitmap(bmp,x,-sy,sx,sy), and
    leaves every ConcatTransform not directly before a DrawBitmap as it
    was. *)
Theorem transform_fold_rewrites (dl : list drawcmd) :
  nonzero_scales dl = true ->
  exists dl',
    fold_transform dl = Ok dl'
    /\ length dl' = length dl
    /\ (forall k sx sy tx ty bmp x y w0 h0,
          dl !! k = Some (ConcatTransform sx 0 0 sy tx ty) ->
          dl !! S k = Some (DrawBitmap bmp x y w0 h0) ->
          exists b' c',
            dl' !! k = Some (ConcatTransform 1 b' c' 1 tx ty)
            /\ (b' == 0)%Q /\ (c' == 0)%Q
            /\ dl' !! S k = Some (DrawBitmap bmp x (- sy)%Q sx sy))
    /\ (forall k a b c d e f,
          dl !! k = Some (ConcatTransform a b c d e f) ->
          (forall bmp x y w0 h0, dl !! S k <> Some (DrawBitmap bmp x y w0 h0)) ->
          dl' !! k = Some (ConcatTransform a b c d e f)).
Proof.
  intros Hnz. pose proof (fold_pairs_total dl) as Ht. rewrite Hnz in Ht.
  destruct Ht as [dl' Hdl]. exists dl'.
  split; [rewrite fold_transform_pairs; exact Hdl|].
  split; [apply fold_pairs_length; exact Hdl|].
  split.
  - intros k sx sy tx ty bmp x y w0 h0 H0 H1.
    destruct (fold_pairs_lookup dl dl' k Hdl) as [Ha _].
    destruct (Ha _ _ _ _ _ _ _ _ _ _ _ H0 H1) as (b' & c' & Hb & Hc & Hk & Hk1).
    exists b', c'. repeat split; try assumption.
    + eapply py_div_of_zero, Hb.
    + eapply py_div_of_zero, Hc.
  - intros k a b c d e f H0 H1.
    destruct (fold_pairs_lookup dl dl' k Hdl) as [_ Hb]. eauto.
Qed.

(** A zero scale makes the fold raise. *)
Lemma transform_fold_zero_scale (dl : list drawcmd) :
  nonzero_scales dl = false -> fold_transform dl = Raise ZeroDivisionError.
Proof.
  intros Hz. pose proof (fold_pairs_total dl) as Ht. rewrite Hz in Ht.
  rewrite fold_transform_pairs. exact Ht.
Qed.

(** C4 as stated fails: with a zero scale the fold raises instead of
    rewriting the pair. *)
Lemma transform_fold_raises_on_zero_scale :
  let dl := [ConcatTransform 0 0 0 0 5 6;
             DrawBitmap (Bitmap_FromJPEG []) 0 (-1) 1 1] in
  fold_transform dl = Raise ZeroDivisionError
  /\ ~ exists dl', fold_transform dl = Ok dl'
                   /\ dl' !! 0%nat = Some (ConcatTransform 1 0 0 1 5 6)
                   /\ dl' !! 1%nat
                      = Some (DrawBitmap (Bitmap_FromJPEG []) 0 (- 0)%Q 0 0).
Proof.
  split; [reflexivity|].
  intros (dl' & H & _). discriminate H.
Qed.

Lemma transform_fold_rewrites_witness :
  let dl := [ConcatTransform 2 0 0 3 5 6;
             DrawBitmap (Bitmap_FromJPEG []) 0 (-1) 1 1;
             ConcatTransform 2 0 0 3 5 6] in
  nonzero_scales dl = true
  /\ exists dl',
      fold_transform dl = Ok dl'
      /\ length dl' = length dl
      /\ (forall k sx sy tx ty bmp x y w0 h0,
            dl !! k = Some (ConcatTransform sx 0 0 sy tx ty) ->
            dl !! S k = Some (DrawBitmap bmp x y w0 h0) ->
            exists b' c',
              dl' !! k = Some (ConcatTransform 1 b' c' 1 tx ty)
              /\ (b' == 0)%Q /\ (c' == 0)%Q
              /\ dl' !! S k = Some (DrawBitmap bmp x (- sy)%Q sx sy))
      /\ (forall k a b c d e f,
            dl !! k = Some (ConcatTransform a b c d e f) ->
            (forall bmp x y w0 h0, dl !! S k <> Some (DrawBitmap bmp x y w0 h0)) ->
            dl' !! k = Some (ConcatTransform a b c d e f)).
Proof.
  intros dl. split; [reflexivity|].
  apply (transform_fold_rewrites dl). reflexivity.
Defined.

(** ** Frames of the interpreter *)

Lemma framed_refl s : framed s s.
Proof. split; reflexivity. Qed.

Lemma framed_trans s1 s2 s3 : framed s1 s2 -> framed s2 s3 -> framed s1 s3.
Proof. intros [H1 H2] [H3 H4]. split; congruence. Qed.

Lemma frame_ret {A} (a : A) : frame (ret a).
Proof. intros s. apply framed_refl. Qed.

Lemma frame_raise {A} e : frame (@raise A e).
Proof. intros s. apply framed_refl. Qed.

Lemma frame_lift {A} (r : result A) : frame (lift r).
Proof. intros s. apply framed_refl. Qed.

Lemma frame_bind {A B} (m : M A) (k : A -> M B) :
  frame m -> (forall a, frame (k a)) -> frame (bind m k).
Proof.
  intros Hm Hk s. unfold bind. specialize (Hm s).
  destruct (m s) as [[a|e] s1]; cbn in *; [|exact Hm].
  eapply framed_trans; [exact Hm | apply Hk].
Qed.

Lemma frame_try_except {A} (m h : M A) :
  frame m -> frame h -> frame (try_except m h).
Proof.
  intros Hm Hh s. unfold try_except. specialize (Hm s).
  destruct (m s) as [[a|e] s1]; cbn in *; [exact Hm|].
  eapply framed_trans; [exact Hm | apply Hh].
Qed.

Lemma frame_get_gstate : frame get_gstate.
Proof. intros s. apply framed_refl. Qed.

Lemma frame_put_knownfont b : frame (put_knownfont b).
Proof. intros s. split; reflexivity. Qed.

Lemma frame_put_unimplemented u : frame (put_unimplemented u).
Proof. intros s. split; reflexivity. Qed.

Lemma frame_put_formdrawings d : frame (put_formdrawings d).
Proof. intros s. split; reflexivity. Qed.

(** Replacing the graphics state by one with the same font. *)
Lemma framed_put_gstate g s :
  font g = font (gstate s) -> framed s (put_gstate g s).2.
Proof. intros H. split; [reflexivity | exact H]. Qed.

Ltac run_M :=
  unfold bind, ret, raise, lift, get_gstate, put_gstate, put_knownfont,
    put_unimplemented, put_formdrawings, put_saved_state in *;
  cbn in *.

Lemma frame_SetFont pdfont size : frame (SetFont pdfont size).
Proof.
  intros s. unfold SetFont. run_M.
  repeat case_match; simplify_eq; cbn; split; reflexivity.
Qed.

Lemma frame_DrawTextItem host textitem f : frame (DrawTextItem host textitem f).
Proof.
  intros s. unfold DrawTextItem. run_M.
  repeat case_match; simplify_eq; cbn; split; reflexivity.
Qed.

Lemma frame_DrawTextItems host f textlist : frame (DrawTextItems host textlist f).
Proof.
  induction textlist as [|item textlist IH]; cbn [DrawTextItems].
  - apply frame_ret.
  - apply frame_bind; [apply frame_DrawTextItem|]. intros c.
    apply frame_bind; [exact IH|]. intros cs. apply frame_ret.
Qed.

Lemma frame_DrawTextString host text : frame (DrawTextString host text).
Proof.
  unfold DrawTextString.
  apply frame_bind; [apply frame_get_gstate|]. intros g.
  apply frame_bind; [apply frame_SetFont|]. intros f0.
  apply frame_bind; [apply frame_SetFont|]. intros f1.
  apply frame_bind.
  { destruct (Qgtb _ _); [destruct text|]; auto using frame_ret, frame_raise. }
  intros textlist.
  apply frame_bind; [apply frame_DrawTextItems|]. intros items. apply frame_ret.
Qed.

Lemma frame_show_TJ_string host e2 : frame (show_TJ_string host e2).
Proof.
  unfold show_TJ_string.
  repeat apply frame_try_except; auto using frame_DrawTextString, frame_ret.
Qed.

Lemma frame_show_TJ_array host el : frame (show_TJ_array host el).
Proof.
  induction el as [|[n|e2] el IH]; cbn [show_TJ_array].
  - apply frame_ret.
  - exact IH.
  - apply frame_bind; [apply frame_show_TJ_string|]. intros d.
    apply frame_bind; [exact IH|]. intros ds. apply frame_ret.
Qed.

Lemma frame_show_TJ host operand : frame (show_TJ host operand).
Proof.
  induction operand as [|el operand IH]; cbn [show_TJ].
  - apply frame_ret.
  - apply frame_bind; [apply frame_show_TJ_array|]. intros d.
    apply frame_bind; [exact IH|]. intros ds. apply frame_ret.
Qed.

Lemma frame_next_line dx dy : frame (next_line dx dy).
Proof.
  intros s. unfold next_line, py_index, py_setitem. run_M.
  repeat case_match; simplify_eq; cbn; split; reflexivity.
Qed.

Lemma frame_next_line_leading : frame next_line_leading.
Proof.
  unfold next_line_leading.
  apply frame_bind; [apply frame_get_gstate|]. intros g. apply frame_next_line.
Qed.

Lemma frame_report operator : frame (report operator).
Proof.
  intros s. unfold report. run_M. case_match; simplify_eq; split; reflexivity.
Qed.

Lemma frame_SetClippingPath path rule : frame (SetClippingPath path rule).
Proof. intros s. unfold SetClippingPath. run_M. split; reflexivity. Qed.

(** ** Running one operator *)

Lemma wp_bind {A B} (m : M A) (k : A -> M B) s Q :
  wp m s (fun r s' => match r with
                      | Ok a => wp (k a) s' Q
                      | Raise e => Q (Raise e) s'
                      end) ->
  wp (bind m k) s Q.
Proof. unfold wp, bind. destruct (m s) as [[a|e] s']; auto. Qed.

Lemma wp_frame {A} (m : M A) s (Q : result A -> interp -> Prop) :
  frame m -> (forall r s', framed s s' -> Q r s') -> wp m s Q.
Proof. intros Hm HQ. apply HQ, Hm. Qed.

Lemma wp_try_except {A} (m h : M A) s (Q : result A -> interp -> Prop) :
  wp m s (fun r s' => match r with
                      | Ok a => Q (Ok a) s'
                      | Raise _ => wp h s' Q
                      end) ->
  wp (try_except m h) s Q.
Proof. unfold wp, try_except. destruct (m s) as [[a|e] s']; auto. Qed.

Lemma wp_ret {A} (a : A) s (Q : result A -> interp -> Prop) :
  Q (Ok a) s -> wp (ret a) s Q.
Proof. auto. Qed.

Lemma wp_raise {A} e s (Q : result A -> interp -> Prop) :
  Q (Raise e) s -> wp (raise e) s Q.
Proof. auto. Qed.

Lemma wp_lift {A} (r : result A) s (Q : result A -> interp -> Prop) :
  Q r s -> wp (lift r) s Q.
Proof. auto. Qed.

Lemma wp_get_gstate s (Q : result pdfState -> interp -> Prop) :
  Q (Ok (gstate s)) s -> wp get_gstate s Q.
Proof. auto. Qed.

Lemma wp_put_gstate g s (Q : result unit -> interp -> Prop) :
  Q (Ok tt) (with_gstate s g) -> wp (put_gstate g) s Q.
Proof. auto. Qed.

Ltac wp_step :=
  lazymatch goal with
  | |- wp (bind _ _) _ _ => apply wp_bind
  | |- wp (ret _) _ _ => apply wp_ret
  | |- wp (raise _) _ _ => apply wp_raise
  | |- wp get_gstate _ _ => apply wp_get_gstate
  | |- wp (put_gstate _) _ _ => apply wp_put_gstate
  | |- wp (lift ?r) _ _ => apply wp_lift; destruct r eqn:?
  | |- wp (DrawTextString _ _) _ _ =>
      apply wp_frame; [apply frame_DrawTextString | intros [?|?] ? ?]
  | |- wp (show_TJ _ _) _ _ =>
      apply wp_frame; [apply frame_show_TJ | intros [?|?] ? ?]
  | |- wp next_line_leading _ _ =>
      apply wp_frame; [apply frame_next_line_leading | intros [?|?] ? ?]
  | |- wp (next_line _ _) _ _ =>
      apply wp_frame; [apply frame_next_line | intros [?|?] ? ?]
  | |- wp (report _) _ _ =>
      apply wp_frame; [apply frame_report | intros [?|?] ? ?]
  | |- wp (SetClippingPath _ _) _ _ =>
      apply wp_frame; [apply frame_SetClippingPath | intros [?|?] ? ?]
  | |- wp (match ?x with _ => _ end) _ _ => destruct x eqn:?
  | |- wp (if ?b then _ else _) _ _ => destruct b eqn:?
  end; cbv beta iota.

Lemma LoadResource_entry_font g entry g' :
  LoadResource_entry g entry = Ok g' -> font g' = font g.
Proof.
  destruct entry; cbn; intros H;
    try (destruct (cap_table v); cbn in H);
    try (destruct (join_table v); cbn in H);
    simplify_eq; reflexivity.
Qed.

Lemma LoadResource_font resource : forall g, font (LoadResource g resource).2 = font g.
Proof.
  induction resource as [|entry resource IH]; intros g; cbn; [reflexivity|].
  destruct (LoadResource_entry g entry) as [g'|e] eqn:He; [|reflexivity].
  rewrite IH. eapply LoadResource_entry_font, He.
Qed.

Ltac framed_done :=
  repeat match goal with
         | H : LoadResource ?g ?l = (_, ?p) |- _ =>
             let F := fresh in
             pose proof (LoadResource_font l g) as F; rewrite H in F;
             cbn in F; clear H
         end;
  lazymatch goal with
  | |- framed _ _ =>
      unfold framed, with_gstate in *; cbn in *; intuition congruence
  end.

Lemma frame_exec_op host page rec pdf_fonts op l :
  plain_op op = true -> frame (exec_op host page rec pdf_fonts op l).
Proof.
  intros Hop s. change (wp (exec_op host page rec pdf_fonts op l) s
                           (fun _ s' => framed s s')).
  unfold exec_op.
  destruct op; try discriminate Hop; clear Hop;
    repeat wp_step; try framed_done.
Qed.

(** ** Save and restore *)

Lemma forms_all_lookup P page name stream :
  forms_all P page = true ->
  XObject page !! name = Some (XForm stream) ->
  P (operations stream) = true.
Proof.
  unfold forms_all. rewrite forallb_forall. intros H Hl.
  apply (H (name, XForm stream)).
  apply list_elem_of_In, elem_of_map_to_list. exact Hl.
Qed.

Lemma exec_op_q host page rec pdf_fonts l s :
  exec_op host page rec pdf_fonts Op_q l s
  = (Ok (extend l [PushState]), with_saved_state s (gstate s :: saved_state s)).
Proof. reflexivity. Qed.

Lemma exec_op_Q host page rec pdf_fonts l s :
  exec_op host page rec pdf_fonts Op_Q l s
  = match saved_state s with
    | [] => (Raise IndexError, s)
    | top :: stack =>
        (Ok (extend l [PopState]),
         mkInterp top stack (knownfont s) (formdrawings s) (unimplemented s))
    end.
Proof.
  unfold exec_op, bind, get_gstate. cbn. destruct (saved_state s); reflexivity.
Qed.

Lemma exec_op_Tf_stack host page rec pdf_fonts name size l s :
  saved_state (exec_op host page rec pdf_fonts (Op_Tf name size) l s).2
  = saved_state s.
Proof.
  unfold exec_op, bind, get_gstate, put_gstate, ret, raise. cbn.
  destruct (pdf_fonts !! name); reflexivity.
Qed.

Lemma wp_InsertXObject host page rec name s
    (Q : result (option (list drawcmd)) -> interp -> Prop) :
  match XObject page !! name with
  | None => Q (Raise KeyError) s
  | Some (XForm stream) =>
      match formdrawings s !! name with
      | Some _ => Q (Ok None) s
      | None =>
          wp (rec (form_oplist stream) (form_fonts stream)) s
             (fun r s1 =>
                match r with
                | Ok d => Q (Ok None)
                            (with_formdrawings s1 (<[name := d]> (formdrawings s1)))
                | Raise e => Q (Raise e) s1
                end)
      end
  | Some (XImage stream) =>
      match InsertXObject_image host stream with
      | Ok dlist => Q (Ok (Some dlist)) s
      | Raise e => Q (Raise e) s
      end
  | Some XOther => Q (Ok None) s
  end ->
  wp (InsertXObject host page rec name) s Q.
Proof.
  unfold wp, InsertXObject.
  destruct (XObject page !! name) as [[stream|stream|]|]; cbn; auto.
  - unfold bind at 1. cbn.
    destruct (formdrawings s !! name); cbn; auto.
    unfold bind, ret, form_oplist.
    destruct (rec _ _ s) as [[d|e] s1]; cbn; auto.
  - unfold bind, lift, ret.
    destruct (InsertXObject_image host stream); cbn; auto.
Qed.

Lemma exec_op_Do_stack host page rec pdf_fonts name l s l' s' :
  on_forms page rec (fun _ => True)
           (fun s s' => saved_state s' = saved_state s) ->
  exec_op host page rec pdf_fonts (Op_Do name) l s = (Ok l', s') ->
  saved_state s' = saved_state s.
Proof.
  intros Hrec H.
  enough (wp (exec_op host page rec pdf_fonts (Op_Do name) l) s
             (fun r s' => forall l', r = Ok l' -> saved_state s' = saved_state s))
    as Hwp.
  { unfold wp in Hwp. rewrite H in Hwp. eapply Hwp. reflexivity. }
  clear H. unfold exec_op. do 3 wp_step.
  apply wp_InsertXObject.
  destruct (XObject page !! name) as [[stream|stream|]|] eqn:Hx.
  - destruct (formdrawings s !! name) as [cached|].
    + wp_step. reflexivity.
    + unfold wp at 1.
      destruct (rec (form_oplist stream) (form_fonts stream) s)
        as [[d|e] s1] eqn:Hr; cbn.
      * wp_step. intros _ _. cbn. eapply Hrec; eauto.
      * discriminate.
  - destruct (InsertXObject_image host stream).
    + wp_step. reflexivity.
    + discriminate.
  - wp_step. reflexivity.
  - discriminate.
Qed.

Lemma exec_op_keeps_stack host page rec pdf_fonts op l s l' s' :
  on_forms page rec (fun _ => True)
           (fun s s' => saved_state s' = saved_state s) ->
  op <> Op_q -> op <> Op_Q ->
  exec_op host page rec pdf_fonts op l s = (Ok l', s') ->
  saved_state s' = saved_state s.
Proof.
  intros Hrec Hq HQ H.
  destruct (plain_op op) eqn:Hp.
  - pose proof (frame_exec_op host page rec pdf_fonts op l Hp s) as [Hs _].
    rewrite H in Hs. exact Hs.
  - destruct op; try discriminate Hp; try congruence.
    + pose proof (exec_op_Tf_stack host page rec pdf_fonts name size l s) as Hs.
      rewrite H in Hs. exact Hs.
    + eapply exec_op_Do_stack; eauto.
Qed.

Lemma exec_ops_app host page rec pdf_fonts ops1 ops2 : forall l s,
  exec_ops host page rec pdf_fonts (ops1 ++ ops2) l s
  = bind (exec_ops host page rec pdf_fonts ops1 l)
         (exec_ops host page rec pdf_fonts ops2) s.
Proof.
  induction ops1 as [|op ops1 IH]; intros l s; cbn [app exec_ops].
  - reflexivity.
  - unfold bind.
    destruct (exec_op host page rec pdf_fonts op l s) as [[l1|e] s1];
      [|reflexivity].
    rewrite IH. reflexivity.
Qed.

Lemma q_or_Q op : op = Op_q \/ op = Op_Q \/ (op <> Op_q /\ op <> Op_Q).
Proof. destruct op; auto; right; right; split; discriminate. Qed.

(** The stack below the entries pushed by open [q]s is never touched,
    and the depth of nesting counts the entries above it. *)
Lemma exec_ops_nesting host page rec pdf_fonts :
  on_forms page rec (fun _ => True)
           (fun s s' => saved_state s' = saved_state s) ->
  forall ops n m top base l s l' s',
    nesting n ops = Some m ->
    length top = n ->
    saved_state s = top ++ base ->
    exec_ops host page rec pdf_fonts ops l s = (Ok l', s') ->
    exists top', length top' = m /\ saved_state s' = top' ++ base.
Proof.
  intros Hrec ops.
  induction ops as [|op ops IH]; intros n m top base l s l' s' Hn Htop Hs H.
  - cbn in *. unfold ret in H. simplify_eq. eauto.
  - cbn [exec_ops] in H. unfold bind in H.
    destruct (exec_op host page rec pdf_fonts op l s) as [[l1|e] s1] eqn:Hop;
      [|discriminate].
    destruct (q_or_Q op) as [->|[->|[Hq HQ]]].
    + rewrite exec_op_q in Hop. simplify_eq. cbn in Hn.
      eapply (IH _ _ (gstate s :: top)); eauto.
      cbn. rewrite Hs. reflexivity.
    + rewrite exec_op_Q, Hs in Hop. subst n.
      destruct top as [|t top]; [discriminate Hn|].
      cbn in Hop, Hn. simplify_eq.
      eapply (IH _ _ top); eauto; reflexivity.
    + assert (Hn' : nesting n ops = Some m)
        by (destruct op; try congruence; exact Hn).
      apply (IH n m top base l1 s1 l' s'); [exact Hn' | exact Htop | | exact H].
      rewrite <- Hs. eapply exec_op_keeps_stack; eauto.
Qed.

Lemma nesting_app ops1 : forall ops2 n,
  nesting n (ops1 ++ ops2)
  = match nesting n ops1 with
    | Some m => nesting m ops2
    | None => None
    end.
Proof.
  induction ops1 as [|op ops1 IH]; intros ops2 n; [reflexivity|].
  destruct op; cbn; try apply IH.
  destruct n; [reflexivity | apply IH].
Qed.

Lemma nesting_raise ops : forall n m k,
  nesting n ops = Some m -> nesting (n + k) ops = Some (m + k)%nat.
Proof.
  induction ops as [|op ops IH]; intros n m k H.
  - cbn in *. congruence.
  - destruct op; cbn in *; try (apply IH; exact H).
    + apply (IH (S n)). exact H.
    + destruct n; [discriminate|]. cbn. apply IH. exact H.
Qed.

Lemma well_nested_form stream :
  well_nested (operations stream) = true ->
  nesting 0 (form_oplist stream) = Some 0%nat.
Proof.
  unfold well_nested. intros H. apply bool_decide_eq_true in H.
  unfold form_oplist. cbn [app nesting]. rewrite nesting_app.
  pose proof (nesting_raise _ 0 0 1 H) as H1. cbn in H1. rewrite H1.
  reflexivity.
Qed.

(** A form whose own operations are well nested leaves the stack as
    it found it. *)
Lemma ProcessOperators_forms_stack host page :
  forms_all well_nested page = true ->
  forall depth,
    on_forms page (ProcessOperators host depth page) (fun _ => True)
             (fun s s' => saved_state s' = saved_state s).
Proof.
  intros Hforms depth.
  induction depth as [|depth IH]; intros name stream s d s' Hx _ H.
  - discriminate H.
  - cbn [ProcessOperators] in H. unfold ProcessOperators_body, bind in H.
    destruct (exec_ops _ _ _ _ _ _ s) as [[l1|e] s1] eqn:Hops; [|discriminate].
    unfold lift in H. assert (s' = s1) as -> by congruence.
    edestruct (exec_ops_nesting host page _ (form_fonts stream) IH
                 (form_oplist stream) 0%nat 0%nat [] (saved_state s))
      as (top' & Hl & Hs);
      [ apply well_nested_form; eapply forms_all_lookup; eauto
      | reflexivity | reflexivity | exact Hops | ].
    destruct top'; [exact Hs | discriminate].
Qed.

(** C1. In a stream [pre ++ q :: body ++ [Q]] whose [body] is well
    nested (as are the forms of the page), whenever the run reaches
    the end of [body], the [Q] succeeds and leaves the graphics state
    equal, field for field, to the state just before the [q], and the
    stack of saved states as it was there; and the copy pushed by [q]
    is still the state before the [q] whatever [body] changed. *)
Theorem q_Q_restores_state host page depth pdf_fonts pre body l0 s0 l s l1 s1 :
  well_nested body = true ->
  forms_all well_nested page = true ->
  exec_ops host page (ProcessOperators host depth page) pdf_fonts
           pre l0 s0 = (Ok l, s) ->
  exec_ops host page (ProcessOperators host depth page) pdf_fonts
           (pre ++ Op_q :: body) l0 s0 = (Ok l1, s1) ->
  saved_state s1 = gstate s :: saved_state s
  /\ exists l2 s2,
      exec_ops host page (ProcessOperators host depth page) pdf_fonts
               (pre ++ Op_q :: body ++ [Op_Q]) l0 s0 = (Ok l2, s2)
      /\ gstate s2 = gstate s
      /\ saved_state s2 = saved_state s.
Proof.
  intros Hbody Hforms Hpre Hrun.
  apply bool_decide_eq_true in Hbody.
  rewrite exec_ops_app in Hrun. unfold bind in Hrun. rewrite Hpre in Hrun.
  cbn [exec_ops] in Hrun. unfold bind in Hrun. rewrite exec_op_q in Hrun.
  edestruct (exec_ops_nesting host page _ pdf_fonts
               (ProcessOperators_forms_stack host page Hforms depth)
               body 0%nat 0%nat [] (gstate s :: saved_state s))
    as (top' & Hl & Hs); [exact Hbody | reflexivity | | exact Hrun |].
  { reflexivity. }
  destruct top'; [|discriminate]. cbn in Hs.
  split; [exact Hs|].
  exists (extend l1 [PopState]),
         (mkInterp (gstate s) (saved_state s) (knownfont s1)
                   (formdrawings s1) (unimplemented s1)).
  split; [|split; reflexivity].
  rewrite exec_ops_app. unfold bind. rewrite Hpre.
  change (Op_q :: body ++ [Op_Q]) with ((Op_q :: body) ++ [Op_Q]).
  rewrite exec_ops_app. unfold bind.
  cbn [exec_ops]. unfold bind. rewrite exec_op_q, Hrun.
  rewrite exec_op_Q, Hs. reflexivity.
Qed.

(** C2, amended. A [Q] reached with an empty stack of saved states
    raises IndexError: ProcessOperators returns no draw list, leaves
    the state as it was before that [Q], and processes none of the
    operators after it. *)
Theorem Q_on_empty_stack_raises host page depth pdf_fonts pre rest s0 l s :
  exec_ops host page (ProcessOperators host depth page) pdf_fonts
           pre (mkLocals [] [] None None) s0 = (Ok l, s) ->
  saved_state s = [] ->
  ProcessOperators host (S depth) page (pre ++ Op_Q :: rest) pdf_fonts s0
  = (Raise IndexError, s).
Proof.
  intros Hpre Hs. cbn [ProcessOperators]. unfold ProcessOperators_body.
  unfold bind at 1. rewrite exec_ops_app. unfold bind at 1. rewrite Hpre.
  cbn [exec_ops]. unfold bind. rewrite exec_op_Q, Hs. reflexivity.
Qed.

(** ** Text without a font *)

Lemma framed_no_font s s' : framed s s' -> no_font s -> no_font s'.
Proof. intros [Hs Hf] [H1 H2]. split; congruence. Qed.

Lemma exec_op_no_font host page rec pdf_fonts op l s l' s' :
  on_forms page rec no_font (fun _ s' => no_font s') ->
  sets_no_font [op] = true ->
  no_font s ->
  exec_op host page rec pdf_fonts op l s = (Ok l', s') ->
  no_font s'.
Proof.
  intros Hrec Hop Hs H.
  destruct (plain_op op) eqn:Hp.
  - pose proof (frame_exec_op host page rec pdf_fonts op l Hp s) as Hf.
    rewrite H in Hf. eapply framed_no_font; eauto.
  - destruct op; try discriminate Hp; try discriminate Hop.
    + rewrite exec_op_q in H. simplify_eq. destruct Hs as [H1 H2].
      split; [exact H1 | constructor; assumption].
    + rewrite exec_op_Q in H. destruct Hs as [H1 H2].
      destruct (saved_state s) as [|top stack]; [discriminate|].
      simplify_eq. inversion H2; subst. split; assumption.
    + enough (wp (exec_op host page rec pdf_fonts (Op_Do name) l) s
                 (fun r s' => forall l', r = Ok l' -> no_font s')) as Hwp.
      { unfold wp in Hwp. rewrite H in Hwp. eapply Hwp. reflexivity. }
      clear H. unfold exec_op. do 3 wp_step.
      apply wp_InsertXObject.
      destruct (XObject page !! name) as [[stream|stream|]|] eqn:Hx.
      * destruct (formdrawings s !! name) as [cached|].
        -- wp_step. intros _ _. exact Hs.
        -- unfold wp at 1.
           destruct (rec (form_oplist stream) (form_fonts stream) s)
             as [[d|e] s1] eqn:Hr; cbn.
           ++ wp_step. intros _ _.
              assert (no_font s1) as [H1 H2] by (eapply Hrec; eauto).
              split; assumption.
           ++ discriminate.
      * destruct (InsertXObject_image host stream).
        -- wp_step. intros _ _. exact Hs.
        -- discriminate.
      * wp_step. intros _ _. exact Hs.
      * discriminate.
Qed.

Lemma exec_ops_no_font host page rec pdf_fonts :
  on_forms page rec no_font (fun _ s' => no_font s') ->
  forall ops l s l' s',
    sets_no_font ops = true ->
    no_font s ->
    exec_ops host page rec pdf_fonts ops l s = (Ok l', s') ->
    no_font s'.
Proof.
  intros Hrec ops.
  induction ops as [|op ops IH]; intros l s l' s' Hops Hs H.
  - cbn in H. unfold ret in H. simplify_eq. exact Hs.
  - cbn [exec_ops] in H. unfold bind in H.
    destruct (exec_op host page rec pdf_fonts op l s) as [[l1|e] s1] eqn:Hop;
      [|discriminate].
    cbn in Hops. apply andb_prop in Hops as [Hop1 Hops].
    eapply IH; [exact Hops | | exact H].
    eapply exec_op_no_font; eauto. cbn. rewrite Hop1. reflexivity.
Qed.

Lemma sets_no_font_form stream :
  sets_no_font (operations stream) = true ->
  sets_no_font (form_oplist stream) = true.
Proof.
  intros H. unfold form_oplist, sets_no_font in *.
  rewrite !forallb_app, H. reflexivity.
Qed.

Lemma ProcessOperators_forms_no_font host page :
  forms_all sets_no_font page = true ->
  forall depth,
    on_forms page (ProcessOperators host depth page) no_font
             (fun _ s' => no_font s').
Proof.
  intros Hforms depth.
  induction depth as [|depth IH]; intros name stream s d s' Hx Hs H.
  - discriminate H.
  - cbn [ProcessOperators] in H. unfold ProcessOperators_body, bind in H.
    destruct (exec_ops _ _ _ _ _ _ s) as [[l1|e] s1] eqn:Hops; [|discriminate].
    unfold lift in H. assert (s' = s1) as -> by congruence.
    eapply (exec_ops_no_font host page _ (form_fonts stream) IH);
      [ | exact Hs | exact Hops].
    apply sets_no_font_form. eapply forms_all_lookup; eauto.
Qed.

(** Font resolution calls [lower] on [None]. *)
Lemma DrawTextString_no_font host text s :
  font (gstate s) = None ->
  DrawTextString host text s = (Raise AttributeError, with_knownfont s true).
Proof.
  intros H. unfold DrawTextString, bind, get_gstate, SetFont. cbn.
  rewrite H. reflexivity.
Qed.

Lemma show_TJ_string_no_font host e2 s :
  font (gstate s) = None ->
  show_TJ_string host e2 s = (Ok [], with_knownfont s true).
Proof.
  intros H. unfold show_TJ_string, try_except.
  rewrite DrawTextString_no_font by exact H.
  rewrite DrawTextString_no_font by exact H. reflexivity.
Qed.

Lemma show_TJ_array_no_font host el : forall s,
  font (gstate s) = None ->
  exists b, show_TJ_array host el s = (Ok [], with_knownfont s b).
Proof.
  induction el as [|[n|e2] el IH]; intros s H; cbn [show_TJ_array].
  - exists (knownfont s). destruct s; reflexivity.
  - apply IH, H.
  - unfold bind. rewrite show_TJ_string_no_font by exact H.
    destruct (IH (with_knownfont s true) H) as [b ->].
    exists b. reflexivity.
Qed.

Lemma show_TJ_no_font host operand : forall s,
  font (gstate s) = None ->
  exists b, show_TJ host operand s = (Ok [], with_knownfont s b).
Proof.
  induction operand as [|el operand IH]; intros s H; cbn [show_TJ].
  - exists (knownfont s). destruct s; reflexivity.
  - unfold bind. destruct (show_TJ_array_no_font host el s H) as [b ->].
    destruct (IH (with_knownfont s b) H) as [b' ->].
    exists b'. reflexivity.
Qed.

Ltac wp_text_no_font :=
  lazymatch goal with
  | |- wp (DrawTextString _ _) _ _ =>
      unfold wp; rewrite DrawTextString_no_font;
      [cbn | unfold framed, with_gstate in *; cbn in *; intuition congruence]
  end.

Lemma exec_op_quote_no_font host page rec pdf_fonts text l s :
  font (gstate s) = None ->
  exists e s', exec_op host page rec pdf_fonts (Op_quote text) l s = (Raise e, s').
Proof.
  intros H.
  enough (wp (exec_op host page rec pdf_fonts (Op_quote text) l) s
             (fun r _ => exists e, r = Raise e)) as Hwp.
  { unfold wp in Hwp.
    destruct (exec_op _ _ _ _ _ l s) as [r s']. cbn in Hwp.
    destruct Hwp as [e ->]. eauto. }
  unfold exec_op. repeat first [wp_text_no_font | wp_step]; eauto.
Qed.

Lemma exec_op_dquote_no_font host page rec pdf_fonts aw ac text l s :
  font (gstate s) = None ->
  exists e s',
    exec_op host page rec pdf_fonts (Op_dquote aw ac text) l s = (Raise e, s').
Proof.
  intros H.
  enough (wp (exec_op host page rec pdf_fonts (Op_dquote aw ac text) l) s
             (fun r _ => exists e, r = Raise e)) as Hwp.
  { unfold wp in Hwp.
    destruct (exec_op _ _ _ _ _ l s) as [r s']. cbn in Hwp.
    destruct Hwp as [e ->]. eauto. }
  unfold exec_op. repeat first [wp_text_no_font | wp_step]; eauto.
Qed.

Lemma exec_op_Tj_no_font host page rec pdf_fonts text l s :
  font (gstate s) = None ->
  exec_op host page rec pdf_fonts (Op_Tj text) l s
  = (Raise AttributeError, with_knownfont s true).
Proof.
  intros H. unfold exec_op, bind, get_gstate.
  rewrite DrawTextString_no_font by exact H. reflexivity.
Qed.

Lemma exec_op_TJ_no_font host page rec pdf_fonts operand l s :
  font (gstate s) = None ->
  exists b,
    exec_op host page rec pdf_fonts (Op_TJ operand) l s
    = (Ok (extend l []), with_knownfont s b).
Proof.
  intros H. unfold exec_op, bind, get_gstate.
  destruct (show_TJ_no_font host operand s H) as [b ->].
  exists b. reflexivity.
Qed.

(** C10, amended. After a prefix without Tf (on a page whose forms
    have none) that runs from the start of a page, no font is set, and
    DrawTextString raises AttributeError on every text.  A following
    Tj makes the run raise AttributeError and the two quote operators
    make it raise; a following TJ catches the exception of each string
    element and goes on, adding no command and leaving the graphics
    state and the saved states as they were. *)
Theorem show_text_before_any_font host page depth pdf_fonts pre rest
    text aw ac operand s0 l s :
  sets_no_font pre = true ->
  forms_all sets_no_font page = true ->
  exec_ops host page (ProcessOperators host depth page) pdf_fonts
           pre (mkLocals [] [] None None) (new_page s0) = (Ok l, s) ->
  font (gstate s) = None
  /\ (forall text', DrawTextString host text' s
                    = (Raise AttributeError, with_knownfont s true))
  /\ ProcessOperators host (S depth) page (pre ++ Op_Tj text :: rest)
                      pdf_fonts (new_page s0)
     = (Raise AttributeError, with_knownfont s true)
  /\ (exists e s',
        ProcessOperators host (S depth) page (pre ++ Op_quote text :: rest)
                         pdf_fonts (new_page s0) = (Raise e, s'))
  /\ (exists e s',
        ProcessOperators host (S depth) page
                         (pre ++ Op_dquote aw ac text :: rest)
                         pdf_fonts (new_page s0) = (Raise e, s'))
  /\ (exists l' s',
        exec_op host page (ProcessOperators host depth page) pdf_fonts
                (Op_TJ operand) l s = (Ok l', s')
        /\ drawlist l' = drawlist l
        /\ gstate s' = gstate s
        /\ saved_state s' = saved_state s).
Proof.
  intros Hpre Hforms Hrun.
  assert (Hnf : no_font s).
  { eapply (exec_ops_no_font host page _ pdf_fonts
              (ProcessOperators_forms_no_font host page Hforms depth));
      [exact Hpre | | exact Hrun].
    split; [reflexivity | constructor]. }
  destruct Hnf as [Hfont _].
  assert (Hstart : forall op rest',
    ProcessOperators host (S depth) page (pre ++ op :: rest') pdf_fonts
                     (new_page s0)
    = match exec_op host page (ProcessOperators host depth page) pdf_fonts
                    op l s with
      | (Ok l1, s1) =>
          bind (exec_ops host page (ProcessOperators host depth page)
                         pdf_fonts rest' l1)
               (fun l2 => lift (fold_transform (drawlist l2))) s1
      | (Raise e, s1) => (Raise e, s1)
      end).
  { intros op rest'. cbn [ProcessOperators]. unfold ProcessOperators_body.
    unfold bind at 1. rewrite exec_ops_app. unfold bind at 1. rewrite Hrun.
    cbn [exec_ops]. unfold bind.
    destruct (exec_op _ _ _ _ op l s) as [[l1|e] s1]; reflexivity. }
  split; [exact Hfont|].
  split; [intros; apply DrawTextString_no_font, Hfont|].
  split.
  { rewrite Hstart, exec_op_Tj_no_font by exact Hfont. reflexivity. }
  split.
  { rewrite Hstart.
    destruct (exec_op_quote_no_font host page (ProcessOperators host depth page)
                pdf_fonts text l s Hfont) as (e & s' & ->). eauto. }
  split.
  { rewrite Hstart.
    destruct (exec_op_dquote_no_font host page (ProcessOperators host depth page)
                pdf_fonts aw ac text l s Hfont) as (e & s' & ->). eauto. }
  destruct (exec_op_TJ_no_font host page (ProcessOperators host depth page)
              pdf_fonts operand l s Hfont) as [b ->].
  eexists _, _. split; [reflexivity|]. cbn.
  split; [apply app_nil_r | split; reflexivity].
Qed.


(** ** Showing text *)

Lemma SetFont_some pdfont size s :
  SetFont (Some pdfont) (Some size) s
  = (Ok (font_for pdfont size), with_knownfont s (known_font pdfont)).
Proof.
  unfold font_for, known_font, SetFont, bind, ret, put_knownfont,
    with_knownfont. cbn.
  repeat (match goal with
          | |- context [if ?b then _ else _] => destruct b
          end; cbn); reflexivity.
Qed.

Lemma py_index_lookup {A} (l : list A) i x : l !! i = Some x -> py_index l i = Ok x.
Proof. unfold py_index. intros ->. reflexivity. Qed.

Lemma py_setitem_lookup {A} (l : list A) i x y :
  l !! i = Some x -> py_setitem l i y = Ok (<[i := y]> l).
Proof.
  intros H. unfold py_setitem. apply lookup_lt_Some in H.
  rewrite decide_True by exact H. reflexivity.
Qed.


Lemma moved_same s x kf :
  textMatrix (gstate s) !! 4%nat = Some x ->
  moved s x kf = with_knownfont s kf.
Proof.
  intros Hx. unfold moved. rewrite list_insert_id by exact Hx.
  destruct s as [g stk k fd un]. destruct g. reflexivity.
Qed.

Lemma moved_moved s x1 k1 x2 k2 : moved (moved s x1 k1) x2 k2 = moved s x2 k2.
Proof.
  unfold moved, with_knownfont, with_gstate. cbn.
  rewrite list_insert_insert_eq. reflexivity.
Qed.







(** ** Images, and the examples of the interpreter theorems *)

Lemma image_bitmap_unsupported host cs width height x_depth f data
    x_indexed x_palette_size x_palette x_color :
  unsupported_colour cs = true ->
  image_indexed (Some cs) = Ok (x_indexed, x_palette_size, x_palette, x_color) ->
  in_filters "/DCT" f || in_filters "/DCTDecode" f = false ->
  image_bitmap host width height x_depth f x_indexed x_palette_size
               x_palette x_color data
  = Ok (None, None).
Proof.
  intros Hu Hi Hf. unfold image_bitmap. rewrite Hf.
  destruct cs as [name|base hival lookup|family]; cbn in Hu, Hi.
  - apply andb_prop in Hu as [Hu Hg]. apply andb_prop in Hu as [Hx Hr].
    apply negb_true_iff in Hx, Hr, Hg. rewrite Hx in Hi.
    injection Hi as <- <- <- <-. cbn. rewrite Hr, Hg. reflexivity.
  - injection Hi as <- <- <- <-.
    destruct base as [n|b h lk|fam]; cbn in Hu |- *; try reflexivity.
    apply andb_prop in Hu as [Hr Hg]. apply negb_true_iff in Hr, Hg.
    rewrite Hr, Hg. reflexivity.
  - apply negb_true_iff in Hu. rewrite Hu in Hi.
    injection Hi as <- <- <- <-. reflexivity.
Qed.

Lemma image_indexed_unsupported cs :
  unsupported_colour cs = true -> exists r, image_indexed (Some cs) = Ok r.
Proof.
  intros Hu. destruct cs as [name|base hival lookup|family]; cbn in *.
  - apply andb_prop in Hu as [Hu _]. apply andb_prop in Hu as [Hx _].
    apply negb_true_iff in Hx. rewrite Hx. eauto.
  - eauto.
  - apply negb_true_iff in Hu. rewrite Hu. eauto.
Qed.

(** An image in an unsupported colour space, not JPEG and without a
    mask, that decodes: the branch taken binds no [bitmap], and the
    final [dlist.append] reads it. *)
Lemma unsupported_image_unbound_bitmap host stream cs f data :
  ColorSpace stream = Some cs ->
  unsupported_colour cs = true ->
  Filter stream = Some f ->
  in_filters "/DCT" f || in_filters "/DCTDecode" f = false ->
  UnpackImage host (_data stream) (Some f) (image_DecodeParms stream) = Ok data ->
  Mask stream = None ->
  InsertXObject_image host stream = Raise UnboundLocalError.
Proof.
  intros Hcs Hu Hf Hdct Hunpack Hmask.
  unfold InsertXObject_image. rewrite Hcs, Hf, Hmask.
  destruct (image_indexed_unsupported cs Hu) as [[[[xi ps] pal] xc] Hi].
  rewrite Hi. cbn [rbind]. rewrite Hunpack. cbn [rbind].
  rewrite (image_bitmap_unsupported host cs _ _ _ f data xi ps pal xc
             Hu Hi Hdct).
  reflexivity.
Qed.

(** The same, seen from the page: the [Do] raises and no draw list is
    returned. *)
Lemma Do_unsupported_image_raises host page depth pdf_fonts pre rest name
    stream cs f data s0 l s :
  XObject page !! name = Some (XImage stream) ->
  ColorSpace stream = Some cs ->
  unsupported_colour cs = true ->
  Filter stream = Some f ->
  in_filters "/DCT" f || in_filters "/DCTDecode" f = false ->
  UnpackImage host (_data stream) (Some f) (image_DecodeParms stream) = Ok data ->
  Mask stream = None ->
  exec_ops host page (ProcessOperators host depth page) pdf_fonts
           pre no_locals s0 = (Ok l, s) ->
  ProcessOperators host (S depth) page (pre ++ Op_Do name :: rest) pdf_fonts s0
  = (Raise UnboundLocalError, s).
Proof.
  intros Hx Hcs Hu Hf Hdct Hunpack Hmask Hpre.
  cbn [ProcessOperators]. unfold ProcessOperators_body.
  unfold bind at 1. rewrite exec_ops_app. unfold bind at 1.
  unfold no_locals in Hpre. rewrite Hpre.
  cbn [exec_ops]. unfold bind at 1.
  unfold exec_op. unfold bind at 1. unfold get_gstate at 1. cbv beta iota.
  unfold bind at 1. unfold InsertXObject. rewrite Hx.
  unfold bind at 1. unfold lift.
  rewrite (unsupported_image_unbound_bitmap host stream cs f data)
    by assumption.
  reflexivity.
Qed.

(** C3. For a DeviceCMYK image, not JPEG and without a mask, the
    image branch raises UnboundLocalError instead of returning an
    empty list, and so does the page that draws it, although the rest
    of that page alone gives eight commands. *)
Theorem unsupported_colour_space_raises :
  unsupported_colour (CS_Name "/DeviceCMYK") = true
  /\ InsertXObject_image plain_host cmyk_image = Raise UnboundLocalError
  /\ (ProcessOperators plain_host 1 cmyk_page cmyk_stream ∅ fresh).1
     = Raise UnboundLocalError
  /\ (ProcessOperators plain_host 1 cmyk_page cmyk_stream_rest ∅ fresh).1
     = Ok [SetPen TRANSPARENT_PEN; SetBrush (Brush (Colour 0 0 0 255));
           CreatePath; AddRectangle 0 (-10) 10 10; Cmd.DrawPath WINDING_RULE;
           PushState; ConcatTransform 1 0 0 1 0 0; PopState].
Proof. vm_compute. repeat split; reflexivity. Qed.

Lemma q_Q_restores_state_witness :
  let run := exec_ops plain_host form_page
                      (ProcessOperators plain_host 1 form_page) helvetica in
  exists l s l1 s1,
    well_nested demo_body = true
    /\ forms_all well_nested form_page = true
    /\ run demo_pre no_locals fresh = (Ok l, s)
    /\ run (demo_pre ++ Op_q :: demo_body) no_locals fresh = (Ok l1, s1)
    /\ lineWidth (gstate s1) <> lineWidth (gstate s)
    /\ saved_state s1 = gstate s :: saved_state s
    /\ exists l2 s2,
        run (demo_pre ++ Op_q :: demo_body ++ [Op_Q]) no_locals fresh
        = (Ok l2, s2)
        /\ gstate s2 = gstate s
        /\ saved_state s2 = saved_state s.
Proof.
  intros run.
  destruct (run demo_pre no_locals fresh) as [[l|e] s] eqn:Hpre;
    [|vm_compute in Hpre; discriminate Hpre].
  destruct (run (demo_pre ++ Op_q :: demo_body) no_locals fresh)
    as [[l1|e] s1] eqn:Hrun; [|vm_compute in Hrun; discriminate Hrun].
  exists l, s, l1, s1.
  assert (Hb : well_nested demo_body = true) by reflexivity.
  assert (Hf : forms_all well_nested form_page = true)
    by (vm_compute; reflexivity).
  split; [exact Hb|]. split; [exact Hf|].
  split; [reflexivity|]. split; [reflexivity|].
  split.
  { vm_compute in Hpre, Hrun. injection Hpre as <- <-. injection Hrun as <- <-.
    vm_compute. discriminate. }
  apply (q_Q_restores_state plain_host form_page 1 helvetica demo_pre
           demo_body no_locals fresh l s l1 s1 Hb Hf Hpre Hrun).
Defined.

Lemma Q_on_empty_stack_raises_witness :
  exists l s,
    exec_ops plain_host empty_page (ProcessOperators plain_host 0 empty_page)
             helvetica [Op_q; Op_w 2; Op_Q] (mkLocals [] [] None None) fresh
    = (Ok l, s)
    /\ saved_state s = []
    /\ ProcessOperators plain_host 1 empty_page
                        ([Op_q; Op_w 2; Op_Q] ++ Op_Q :: [Op_w 5]) helvetica fresh
       = (Raise IndexError, s).
Proof.
  destruct (exec_ops plain_host empty_page
              (ProcessOperators plain_host 0 empty_page)
              helvetica [Op_q; Op_w 2; Op_Q] (mkLocals [] [] None None) fresh)
    as [[l|e] s] eqn:Hpre; [|vm_compute in Hpre; discriminate Hpre].
  exists l, s.
  assert (Hs : saved_state s = []).
  { vm_compute in Hpre. injection Hpre as <- <-. reflexivity. }
  split; [reflexivity|]. split; [exact Hs|].
  apply (Q_on_empty_stack_raises plain_host empty_page 0 helvetica
           [Op_q; Op_w 2; Op_Q] [Op_w 5] fresh l s Hpre Hs).
Defined.

(** C2 as stated fails: a [Q] with nothing saved makes the run raise;
    nothing after it is processed and no draw list is returned. *)
Lemma unmatched_Q_is_not_recovered :
  ProcessOperators plain_host 1 empty_page [Op_Q; Op_w 2] helvetica fresh
  = (Raise IndexError, fresh)
  /\ ~ exists drawlist s',
        ProcessOperators plain_host 1 empty_page [Op_Q; Op_w 2] helvetica fresh
        = (Ok drawlist, s').
Proof.
  assert (H : ProcessOperators plain_host 1 empty_page [Op_Q; Op_w 2]
                               helvetica fresh
              = (Raise IndexError, fresh)) by reflexivity.
  split; [exact H|]. intros (d & s' & H'). rewrite H in H'. discriminate H'.
Qed.

Lemma show_text_before_any_font_witness :
  let pre := [Op_BT; Op_Td 10 20; Op_q; Op_rg [1; 0; 0]%Q; Op_Do "/Fm0"] in
  let text := bytes_of_string "Hi" in
  exists l s,
    sets_no_font pre = true
    /\ forms_all sets_no_font form_page = true
    /\ exec_ops plain_host form_page (ProcessOperators plain_host 1 form_page)
                helvetica pre (mkLocals [] [] None None) (new_page fresh)
       = (Ok l, s)
    /\ font (gstate s) = None
    /\ (forall text', DrawTextString plain_host text' s
                      = (Raise AttributeError, with_knownfont s true))
    /\ ProcessOperators plain_host 2 form_page (pre ++ Op_Tj text :: [Op_ET])
                        helvetica (new_page fresh)
       = (Raise AttributeError, with_knownfont s true)
    /\ (exists e s',
          ProcessOperators plain_host 2 form_page
                           (pre ++ Op_quote text :: [Op_ET])
                           helvetica (new_page fresh) = (Raise e, s'))
    /\ (exists e s',
          ProcessOperators plain_host 2 form_page
                           (pre ++ Op_dquote 1 2 text :: [Op_ET])
                           helvetica (new_page fresh) = (Raise e, s'))
    /\ (exists l' s',
          exec_op plain_host form_page (ProcessOperators plain_host 1 form_page)
                  helvetica (Op_TJ [hello_world]) l s = (Ok l', s')
          /\ drawlist l' = drawlist l
          /\ gstate s' = gstate s
          /\ saved_state s' = saved_state s).
Proof.
  intros pre text.
  destruct (exec_ops plain_host form_page
              (ProcessOperators plain_host 1 form_page)
              helvetica pre (mkLocals [] [] None None) (new_page fresh))
    as [[l|e] s] eqn:Hpre; [|vm_compute in Hpre; discriminate Hpre].
  exists l, s.
  assert (Hp : sets_no_font pre = true) by reflexivity.
  assert (Hf : forms_all sets_no_font form_page = true)
    by (vm_compute; reflexivity).
  split; [exact Hp|]. split; [exact Hf|]. split; [reflexivity|].
  apply (show_text_before_any_font plain_host form_page 1 helvetica pre
           [Op_ET] text 1 2 [hello_world] fresh l s Hp Hf Hpre).
Defined.

(** C10 as stated fails for [TJ]: its handler catches the exception
    of each string, so the run returns, with no command. *)
Lemma TJ_without_font_does_not_raise :
  ProcessOperators plain_host 1 empty_page [Op_TJ [hello_world]] helvetica
                   (new_page fresh)
  = (Ok [], with_knownfont fresh true).
Proof. reflexivity. Qed.





(* ================================================================= *)
(** * Further properties *)

Lemma py_max_cases a b :
  (py_max a b = a /\ (b <= a)%Q) \/ (py_max a b = b /\ (a < b)%Q).
Proof.
  unfold py_max, Qgtb.
  destruct (Qle_bool b a) eqn:E; cbn.
  - left. split; [reflexivity | apply Qle_bool_iff, E].
  - right. split; [reflexivity|].
    apply Qnot_le_lt. intros H. apply Qle_bool_iff in H. congruence.
Qed.

Lemma lower_face pdfont size :
  faceName (font_for pdfont size)
  ∈ ["Courier New"; "Arial"; "Times New Roman"; "Symbol"; "Wingdings"]%string.
Proof.
  unfold font_for, SetFont, bind, ret, put_knownfont. cbn.
  repeat (match goal with
          | |- context [if ?b then _ else _] => destruct b
          end; cbn); set_solver.
Qed.

Lemma SetFont_lower pdfont pdfont' size s :
  lower pdfont' = lower pdfont ->
  SetFont (Some pdfont') size s = SetFont (Some pdfont) size s.
Proof. intros H. unfold SetFont. rewrite H. reflexivity. Qed.

Lemma font_for_pointSize pdfont size :
  pointSize (font_for pdfont size) = py_max 1 size.
Proof.
  unfold font_for, SetFont, bind, ret, put_knownfont. cbn.
  repeat (match goal with
          | |- context [if ?b then _ else _] => destruct b
          end; cbn); reflexivity.
Qed.

(** X1. [SetFont] with a font name and a size always returns a font.  Its
    point size is [max(1, size)]: at least 1, at least the size asked
    for, and one of the two.  Its face is one of the five of the
    table, and names that differ only in the case of their letters
    give the same font and the same [knownfont] flag. *)
Theorem SetFont_point_size pdfont size s :
  exists f kf,
    SetFont (Some pdfont) (Some size) s = (Ok f, with_knownfont s kf)
    /\ (1 <= pointSize f)%Q /\ (size <= pointSize f)%Q
    /\ (pointSize f = 1%Q \/ pointSize f = size)
    /\ faceName f
       ∈ ["Courier New"; "Arial"; "Times New Roman"; "Symbol"; "Wingdings"]%string
    /\ forall pdfont',
         lower pdfont' = lower pdfont ->
         SetFont (Some pdfont') (Some size) s = (Ok f, with_knownfont s kf).
Proof.
  exists (font_for pdfont size), (known_font pdfont).
  split; [apply SetFont_some|].
  rewrite font_for_pointSize.
  split; [|split; [|split; [|split]]].
  - destruct (py_max_cases 1 size) as [[-> H]|[-> H]];
      [apply Qle_refl | apply Qlt_le_weak, H].
  - destruct (py_max_cases 1 size) as [[-> H]|[-> H]];
      [exact H | apply Qle_refl].
  - destruct (py_max_cases 1 size) as [[-> H]|[-> H]]; auto.
  - apply lower_face.
  - intros p' Hl. rewrite (SetFont_lower _ _ _ _ Hl). apply SetFont_some.
Qed.

Lemma Qgtb_gt x y : Qgtb x y = true <-> (y < x)%Q.
Proof.
  unfold Qgtb. rewrite negb_true_iff. split.
  - intros E. apply Qnot_le_lt. intros H. apply Qle_bool_iff in H. congruence.
  - intros H. destruct (Qle_bool x y) eqn:E; [|reflexivity].
    apply Qle_bool_iff in E. exfalso. eapply Qlt_not_le; eauto.
Qed.

Lemma bytes_split_not_nil sep b : bytes_split sep b <> [].
Proof.
  destruct b as [|c r]; cbn; [discriminate|].
  destruct (decide (c = sep)); [discriminate|].
  destruct (bytes_split sep r); discriminate.
Qed.

(** Joining the pieces of a split with the separator gives the bytes
    back. *)
Lemma bytes_split_join sep b :
  concat (map (fun w => w ++ [sep]) (bytes_split sep b)) = b ++ [sep].
Proof.
  induction b as [|c r IH]; cbn; [reflexivity|].
  destruct (decide (c = sep)) as [->|Hc]; cbn.
  - rewrite IH. reflexivity.
  - destruct (bytes_split sep r) as [|h t] eqn:E.
    + exfalso. eapply bytes_split_not_nil, E.
    + cbn in *. rewrite IH. reflexivity.
Qed.

Lemma bytes_split_length sep b :
  length (bytes_split sep b) = S (count_byte sep b).
Proof.
  unfold count_byte.
  induction b as [|c r IH]; [reflexivity|].
  rewrite filter_cons. cbn [bytes_split].
  destruct (decide (c = sep)) as [->|Hc].
  - cbn [length]. rewrite IH. reflexivity.
  - destruct (bytes_split sep r) as [|h t] eqn:E.
    + exfalso. eapply bytes_split_not_nil, E.
    + cbn [length] in *. exact IH.
Qed.

Lemma bytes_split_no_sep sep b : Forall (fun w => sep ∉ w) (bytes_split sep b).
Proof.
  induction b as [|c r IH]; cbn.
  - constructor; [apply not_elem_of_nil | constructor].
  - destruct (decide (c = sep)) as [->|Hc].
    + constructor; [apply not_elem_of_nil | exact IH].
    + destruct (bytes_split sep r) as [|h t] eqn:E.
      * constructor; [|constructor].
        intros Hin. apply list_elem_of_singleton in Hin. congruence.
      * inversion IH; subst. constructor; [|assumption].
        intros Hin. apply elem_of_cons in Hin as [Hin|Hin]; congruence.
Qed.

(** One word drawn under a positive word spacing. *)
Lemma DrawTextItem_word host w f s pdfont size x y5 :
  font (gstate s) = Some pdfont ->
  fontSize (gstate s) = Some size ->
  textMatrix (gstate s) !! 4%nat = Some x ->
  textMatrix (gstate s) !! 5%nat = Some y5 ->
  Qgtb (wordSpacing (gstate s)) 0 = true ->
  exists x' y',
    DrawTextItem host (PyBytes w) f s
    = (Ok (DrawText (PyBytes (w ++ [32])) x y'), moved s x' (knownfont s)).
Proof.
  intros Hf Hsz Hx Hy Hws.
  unfold DrawTextItem. unfold bind at 1. unfold get_gstate at 1.
  cbv beta iota.
  rewrite (py_index_lookup _ _ _ Hx), (py_index_lookup _ _ _ Hy).
  unfold bind at 1. unfold lift at 1. cbv beta iota.
  unfold bind at 1. unfold lift at 1. cbv beta iota.
  rewrite Hws. unfold bind at 1. unfold ret at 1. cbv beta iota.
  destruct (GetFullTextExtent host (PyBytes (w ++ [32])) f)
    as [[[wid ht] descend] x_lead] eqn:Hext.
  unfold bind at 1. cbv beta iota. rewrite Hf, Hsz.
  destruct (have_rlwidth host && knownfont s);
    unfold bind, ret, lift, put_gstate; cbv beta iota;
    rewrite (py_setitem_lookup _ _ _ _ Hx); eexists _, _;
    unfold moved, with_knownfont, with_gstate; cbn; reflexivity.
Qed.

Lemma moved_knownfont s x : knownfont (moved s x (knownfont s)) = knownfont s.
Proof. reflexivity. Qed.

Lemma drawn_texts_DrawText t x y cmds :
  drawn_texts (DrawText t x y :: cmds) = t :: drawn_texts cmds.
Proof. reflexivity. Qed.

Lemma drawn_texts_SetFont f c cmds :
  drawn_texts (Cmd.SetFont f c :: cmds) = drawn_texts cmds.
Proof. reflexivity. Qed.

Lemma DrawTextItems_words host f pdfont size y5 wl : forall s x,
  font (gstate s) = Some pdfont ->
  fontSize (gstate s) = Some size ->
  textMatrix (gstate s) !! 4%nat = Some x ->
  textMatrix (gstate s) !! 5%nat = Some y5 ->
  Qgtb (wordSpacing (gstate s)) 0 = true ->
  exists cmds x',
    DrawTextItems host (map PyBytes wl) f s
    = (Ok cmds, moved s x' (knownfont s))
    /\ drawn_texts cmds = map (fun w => PyBytes (w ++ [32])) wl
    /\ length cmds = length wl.
Proof.
  induction wl as [|w wl IH]; intros s x Hf Hsz Hx Hy Hws.
  - exists [], x. cbn. rewrite moved_same by exact Hx.
    destruct s; auto.
  - cbn [map DrawTextItems].
    destruct (DrawTextItem_word host w f s pdfont size x y5 Hf Hsz Hx Hy Hws)
      as (x1 & y1 & H1).
    unfold bind at 1. rewrite H1.
    destruct (IH (moved s x1 (knownfont s)) x1) as (cmds & x2 & H2 & Ht & Hl);
      try assumption.
    + cbn. apply list_lookup_insert_eq. eapply lookup_lt_Some, Hx.
    + cbn. rewrite list_lookup_insert_ne by discriminate. exact Hy.
    + exists (DrawText (PyBytes (w ++ [32])) x y1 :: cmds), x2.
      unfold bind. rewrite H2. rewrite moved_moved.
      split; [reflexivity|].
      split; [|cbn [length]; rewrite Hl; reflexivity].
      rewrite drawn_texts_DrawText, Ht. reflexivity.
Qed.

(** X2. With a font and a size set and a positive word spacing,
    [DrawTextString] on a bytes string [b] emits one text per piece
    of [b.split(b' ')], each followed by one space: one more text
    than [b] has spaces, no space inside a piece, and the texts put
    together are [b] with one space added at the end. *)
Theorem word_spaced_text_keeps_bytes host b s pdfont size x y5 :
  font (gstate s) = Some pdfont ->
  fontSize (gstate s) = Some size ->
  textMatrix (gstate s) !! 4%nat = Some x ->
  textMatrix (gstate s) !! 5%nat = Some y5 ->
  (0 < wordSpacing (gstate s))%Q ->
  exists cmds x' kf,
    DrawTextString host (PyBytes b) s = (Ok cmds, moved s x' kf)
    /\ drawn_texts cmds = map (fun w => PyBytes (w ++ [32])) (bytes_split 32 b)
    /\ Forall (fun w => 32 ∉ w) (bytes_split 32 b)
    /\ length (drawn_texts cmds) = S (count_byte 32 b)
    /\ drawn_bytes cmds = b ++ [32].
Proof.
  intros Hf Hsz Hx Hy Hws. apply Qgtb_gt in Hws.
  unfold DrawTextString. unfold bind at 1. unfold get_gstate at 1.
  cbv beta iota. rewrite Hf, Hsz.
  unfold bind at 1. rewrite SetFont_some. cbv beta iota.
  unfold bind at 1. rewrite SetFont_some. cbv beta iota.
  rewrite Hws. unfold bind at 1. unfold ret at 1. cbv beta iota.
  destruct (DrawTextItems_words host
              (Font_Scale (font_for pdfont size) (font_scale_metrics host))
              pdfont size y5 (bytes_split 32 b)
              (with_knownfont (with_knownfont s (known_font pdfont))
                              (known_font pdfont)) x)
    as (cmds & x' & H & Ht & Hl); try assumption.
  unfold bind. rewrite H. cbv beta iota.
  eexists _, x', (known_font pdfont).
  split.
  { unfold ret. f_equal. }
  unfold drawn_bytes. rewrite drawn_texts_SetFont, Ht.
  split; [reflexivity|].
  split; [apply bytes_split_no_sep|].
  split.
  { rewrite length_map. apply bytes_split_length. }
  rewrite map_map. cbn [text_bytes]. apply bytes_split_join.
Qed.

Lemma word_spaced_text_keeps_bytes_witness :
  let b := bytes_of_string "a  b " in
  (0 < wordSpacing (gstate spaced_state))%Q
  /\ exists cmds x' kf,
      DrawTextString plain_host (PyBytes b) spaced_state
      = (Ok cmds, moved spaced_state x' kf)
      /\ drawn_texts cmds = map (fun w => PyBytes (w ++ [32])) (bytes_split 32 b)
      /\ Forall (fun w => 32 ∉ w) (bytes_split 32 b)
      /\ length (drawn_texts cmds) = S (count_byte 32 b)
      /\ drawn_bytes cmds = b ++ [32].
Proof.
  split; [reflexivity|].
  apply (word_spaced_text_keeps_bytes plain_host (bytes_of_string "a  b ")
           spaced_state "Helvetica" 12 0 0); reflexivity.
Defined.

(** A string (not bytes) cannot be split at a bytes separator. *)
Lemma DrawTextString_str_word_spacing host text s pdfont size :
  font (gstate s) = Some pdfont ->
  fontSize (gstate s) = Some size ->
  Qgtb (wordSpacing (gstate s)) 0 = true ->
  DrawTextString host (PyStr text) s
  = (Raise TypeError, with_knownfont s (known_font pdfont)).
Proof.
  intros Hf Hsz Hws.
  unfold DrawTextString. unfold bind at 1. unfold get_gstate at 1.
  cbv beta iota. rewrite Hf, Hsz.
  unfold bind at 1. rewrite SetFont_some. cbv beta iota.
  unfold bind at 1. rewrite SetFont_some. cbv beta iota.
  rewrite Hws. reflexivity.
Qed.

(** What [next_line] does to a state whose line matrix has its
    translation entries. *)
Lemma next_line_run dx dy s t4 t5 :
  textLineMatrix (gstate s) !! 4%nat = Some t4 ->
  textLineMatrix (gstate s) !! 5%nat = Some t5 ->
  let tl := <[5%nat := (t5 + dy)%Q]> (<[4%nat := (t4 + dx)%Q]>
                                        (textLineMatrix (gstate s))) in
  next_line dx dy s
  = (Ok tt, with_gstate s (set_textMatrix
                             (set_textLineMatrix (gstate s) tl) tl)).
Proof.
  intros H4 H5 tl.
  assert (H5' : <[4%nat := (t4 + dx)%Q]> (textLineMatrix (gstate s)) !! 5%nat
                = Some t5).
  { rewrite list_lookup_insert_ne by discriminate. exact H5. }
  unfold next_line.
  unfold bind at 1. unfold get_gstate at 1. cbv beta iota.
  rewrite (py_index_lookup _ _ _ H4).
  unfold bind at 1. unfold lift at 1. cbv beta iota.
  rewrite (py_setitem_lookup _ _ _ _ H4).
  unfold bind at 1. unfold lift at 1. cbv beta iota.
  unfold bind at 1. unfold put_gstate at 1. cbv beta iota.
  unfold bind at 1. unfold get_gstate at 1. cbv beta iota.
  cbn [gstate textLineMatrix set_textLineMatrix].
  rewrite (py_index_lookup _ _ _ H5').
  unfold bind at 1. unfold lift at 1. cbv beta iota.
  rewrite (py_setitem_lookup _ _ _ _ H5').
  unfold bind at 1. unfold lift at 1. cbv beta iota.
  unfold bind at 1. unfold put_gstate at 1. cbv beta iota.
  unfold bind at 1. unfold get_gstate at 1. cbv beta iota.
  reflexivity.
Qed.

Lemma lookup_of_length {A} (l : list A) i :
  (i < length l)%nat -> exists x, l !! i = Some x.
Proof. intros H. apply lookup_lt_is_Some_2 in H. destruct H; eauto. Qed.

(** X3. With a font and a size set, the double-quote operator with a
    positive word spacing operand, and the quote operator while the
    word spacing is positive, raise TypeError: both pass a decoded
    str to [DrawTextString], which splits it at a bytes separator.
    The double-quote operator has stored its two spacings by then. *)
Theorem quote_with_word_spacing_raises host page rec pdf_fonts aw ac text
    l s pdfont size :
  font (gstate s) = Some pdfont ->
  fontSize (gstate s) = Some size ->
  (6 <= length (textLineMatrix (gstate s)))%nat ->
  ((0 < aw)%Q ->
   exists s',
     exec_op host page rec pdf_fonts (Op_dquote aw ac text) l s
     = (Raise TypeError, s')
     /\ wordSpacing (gstate s') = aw /\ charSpacing (gstate s') = ac)
  /\ ((0 < wordSpacing (gstate s))%Q ->
      exists s',
        exec_op host page rec pdf_fonts (Op_quote text) l s
        = (Raise TypeError, s')).
Proof.
  intros Hf Hsz Hlen.
  destruct (lookup_of_length (textLineMatrix (gstate s)) 4) as [t4 H4]; [lia|].
  destruct (lookup_of_length (textLineMatrix (gstate s)) 5) as [t5 H5]; [lia|].
  split; intros Hws; apply Qgtb_gt in Hws.
  - unfold exec_op. unfold bind at 1. unfold get_gstate at 1. cbv beta iota.
    unfold bind at 1. unfold put_gstate at 1. cbv beta iota.
    unfold bind at 1. unfold get_gstate at 1. cbv beta iota.
    unfold bind at 1. unfold put_gstate at 1. cbv beta iota.
    cbn [gstate saved_state knownfont formdrawings unimplemented].
    unfold next_line_leading.
    unfold bind at 1. unfold bind at 1. unfold get_gstate at 1.
    cbv beta iota.
    erewrite next_line_run by (cbn; eassumption).
    cbv beta iota. unfold bind at 1.
    erewrite DrawTextString_str_word_spacing by (cbn; eassumption).
    eexists. split; [reflexivity|]. cbn. auto.
  - unfold exec_op. unfold bind at 1. unfold get_gstate at 1. cbv beta iota.
    unfold next_line_leading.
    unfold bind at 1. unfold bind at 1. unfold get_gstate at 1.
    cbv beta iota.
    erewrite next_line_run by eassumption.
    cbv beta iota. unfold bind at 1.
    erewrite DrawTextString_str_word_spacing by (cbn; eassumption).
    eexists. reflexivity.
Qed.


Lemma quote_with_word_spacing_raises_witness :
  let rec := ProcessOperators plain_host 0 empty_page in
  let text := bytes_of_string "Hi" in
  (0 < wordSpacing (gstate spaced_state))%Q
  /\ ((0 < 3)%Q ->
      exists s',
        exec_op plain_host empty_page rec helvetica (Op_dquote 3 1 text)
                no_locals spaced_state
        = (Raise TypeError, s')
        /\ wordSpacing (gstate s') = 3%Q /\ charSpacing (gstate s') = 1%Q)
  /\ ((0 < wordSpacing (gstate spaced_state))%Q ->
      exists s',
        exec_op plain_host empty_page rec helvetica (Op_quote text)
                no_locals spaced_state
        = (Raise TypeError, s')).
Proof.
  split; [reflexivity|].
  apply (quote_with_word_spacing_raises plain_host empty_page
           (ProcessOperators plain_host 0 empty_page) helvetica 3 1
           (bytes_of_string "Hi") no_locals spaced_state "Helvetica" 12);
    [reflexivity | reflexivity | vm_compute; lia].
Defined.

Lemma DrawPath_item_shape cur item cur' cmds :
  DrawPath_item cur item = Ok (cur', cmds) ->
  exists c, cmds = [c] /\ is_path_cmd c = true /\ six_args c
            /\ cur' = last_point cur [item].
Proof.
  destruct item as [xylist op]. unfold DrawPath_item, py_index.
  destruct op; cbn [last_point].
  - destruct xylist as [|x [|y r]]; cbn; try discriminate.
    intros H. simplify_eq. eexists. repeat split.
  - destruct cur as [[xc yc]|];
      destruct xylist as [|a0 [|a1 [|a2 [|a3 [|a4 [|a5 r]]]]]]; cbn;
      try discriminate; intros H; simplify_eq; eexists; repeat split.
  - destruct xylist as [|x [|y r]]; cbn; try discriminate.
    intros H. simplify_eq. eexists. repeat split.
  - destruct xylist as [|a0 [|a1 [|a2 [|a3 r]]]]; cbn; try discriminate.
    destruct (Qltb a3 0); intros H; simplify_eq; eexists; repeat split.
  - destruct cur as [[xc yc]|];
      destruct xylist as [|a0 [|a1 [|a2 [|a3 r]]]]; cbn;
      try discriminate; intros H; simplify_eq; eexists; repeat split.
  - destruct cur as [[xc yc]|];
      destruct xylist as [|a0 [|a1 [|a2 [|a3 r]]]]; cbn;
      try discriminate; intros H; simplify_eq; eexists; repeat split.
  - intros H. simplify_eq. eexists. repeat split.
    destruct xylist as [|x [|y r]]; reflexivity.
Qed.

Lemma last_point_app path1 : forall cur path2,
  last_point cur (path1 ++ path2) = last_point (last_point cur path1) path2.
Proof.
  induction path1 as [|[xy op] path1 IH]; intros cur path2; [reflexivity|].
  cbn [app last_point].
  destruct xy as [|x [|y r]]; destruct op; apply IH.
Qed.

Lemma DrawPath_loop_shape path : forall cur segs,
  DrawPath_loop cur path = Ok segs ->
  length segs = length path
  /\ forallb is_path_cmd segs = true
  /\ Forall six_args segs.
Proof.
  induction path as [|item path IH]; intros cur segs H; cbn in H.
  - simplify_eq. repeat split. constructor.
  - destruct (DrawPath_item cur item) as [[cur' cmds]|e] eqn:Hi;
      [|discriminate]. cbn in H.
    destruct (DrawPath_loop cur' path) as [rest|e] eqn:Hr; [|discriminate].
    cbn in H. simplify_eq.
    destruct (DrawPath_item_shape _ _ _ _ Hi) as (c & -> & Hc & H6 & _).
    destruct (IH _ _ Hr) as (Hl & Hp & Ha).
    cbn. rewrite Hl, Hc, Hp. repeat split. constructor; assumption.
Qed.

(** Running a path in two parts. *)
Lemma DrawPath_loop_app path1 : forall cur path2 segs,
  DrawPath_loop cur path1 = Ok segs ->
  DrawPath_loop cur (path1 ++ path2)
  = let? rest := DrawPath_loop (last_point cur path1) path2 in
    Ok (segs ++ rest).
Proof.
  induction path1 as [|item path1 IH]; intros cur path2 segs H; cbn in H.
  - simplify_eq. cbn. destruct (DrawPath_loop cur path2); reflexivity.
  - destruct (DrawPath_item cur item) as [[cur' cmds]|e] eqn:Hi;
      [|discriminate]. cbn in H.
    destruct (DrawPath_loop cur' path1) as [rest|e] eqn:Hr; [|discriminate].
    cbn in H. simplify_eq.
    destruct (DrawPath_item_shape _ _ _ _ Hi) as (c & -> & _ & _ & ->).
    cbn [app DrawPath_loop]. rewrite Hi. cbn [rbind].
    rewrite (IH _ path2 _ Hr).
    change (last_point cur (item :: path1))
      with (last_point cur ([item] ++ path1)).
    rewrite last_point_app.
    destruct (DrawPath_loop _ path2); reflexivity.
Qed.

Lemma last_snoc {A} (l : list A) x : last (l ++ [x]) = Some x.
Proof. apply last_snoc. Qed.

(** X4. When [DrawPath] returns, its commands are SetPen, SetBrush and
    CreatePath, then exactly one path command for each item of the
    path (with the closing [h] item that s, b and b* append to the
    caller's list), then DrawPath with the rule of the action.  Every
    curve carries six numbers; the pen is the transparent one exactly
    when the action does not stroke, the brush exactly when it does
    not fill. *)
Theorem DrawPath_one_command_per_item g path action cmds path' :
  DrawPath g path action = Ok (cmds, path') ->
  path' = (if closes action then path ++ [([], path_h)] else path)
  /\ exists pen brush segs,
       cmds = SetPen pen :: SetBrush brush :: CreatePath
                :: segs ++ [Cmd.DrawPath (acts action).2]
       /\ length segs = length path'
       /\ forallb is_path_cmd segs = true
       /\ Forall six_args segs
       /\ (closes action = true -> last segs = Some CloseSubpath)
       /\ (pen = TRANSPARENT_PEN <-> (acts action).1.1 = false)
       /\ (brush = TRANSPARENT_BRUSH <-> (acts action).1.2 = false).
Proof.
  unfold DrawPath. intros H.
  destruct (acts action) as [[stroke fill] rule] eqn:Ha.
  set (p := match action with
            | paint_s | paint_b | paint_bstar => path ++ [([], path_h)]
            | _ => path
            end) in *.
  assert (Hp : p = (if closes action then path ++ [([], path_h)] else path))
    by (destruct action; reflexivity).
  destruct (DrawPath_loop None p) as [segs|e] eqn:Hl; [|discriminate].
  cbn in H. simplify_eq.
  split; [exact Hp|].
  destruct (DrawPath_loop_shape _ _ _ Hl) as (Hlen & Hcmd & H6).
  exists (if stroke
          then Pen (GetStrokeRGBA g) (lineWidth g)
                   match lineDashArray g with
                   | [] => PENSTYLE_SOLID
                   | _ => PENSTYLE_USER_DASH
                   end (lineCapStyle g) (lineJoinStyle g) (lineDashArray g)
          else TRANSPARENT_PEN),
         (if fill then Brush (GetFillRGBA g) else TRANSPARENT_BRUSH), segs.
  split; [destruct stroke, fill; reflexivity|].
  split; [exact Hlen|]. split; [exact Hcmd|]. split; [exact H6|].
  split; [|split].
  - intros Hc. rewrite Hp, Hc in Hl.
    destruct (DrawPath_loop None path) as [s1|e] eqn:H1.
    + rewrite (DrawPath_loop_app _ _ _ _ H1) in Hl. cbn in Hl.
      simplify_eq. apply last_snoc.
    + assert (DrawPath_loop None (path ++ [([], path_h)]) = Raise e) as Hr.
      { clear -H1. revert H1. generalize (@None (Q * Q)).
        induction path as [|item path IH]; intros cur H1; [discriminate|].
        cbn in *. destruct (DrawPath_item cur item) as [[c' cm]|e']; cbn in *;
          [|congruence].
        destruct (DrawPath_loop c' path) eqn:E; [discriminate|].
        cbn in H1. simplify_eq. rewrite (IH _ E). reflexivity. }
      congruence.
  - cbn. destruct stroke; split; congruence.
  - cbn. destruct fill; split; congruence.
Qed.

Lemma DrawPath_one_command_per_item_witness :
  let path := [([0; 0]%Q, path_m); ([10; 0]%Q, path_l); ([10; 10]%Q, path_l)] in
  exists cmds path',
    DrawPath pdfState_init path paint_b = Ok (cmds, path')
    /\ path' = path ++ [([], path_h)]
    /\ exists pen brush segs,
         cmds = SetPen pen :: SetBrush brush :: CreatePath
                  :: segs ++ [Cmd.DrawPath WINDING_RULE]
         /\ length segs = 4%nat
         /\ last segs = Some CloseSubpath
         /\ pen <> TRANSPARENT_PEN /\ brush <> TRANSPARENT_BRUSH.
Proof.
  intros path.
  destruct (DrawPath pdfState_init path paint_b) as [[cmds path']|e] eqn:H;
    [|vm_compute in H; discriminate H].
  exists cmds, path'. split; [reflexivity|].
  destruct (DrawPath_one_command_per_item pdfState_init path paint_b
              cmds path' H)
    as (Hp & pen & brush & segs & Hc & Hl & _ & _ & Hlast & Hpen & Hbrush).
  split; [exact Hp|]. exists pen, brush, segs.
  split; [exact Hc|]. split; [rewrite Hl, Hp; reflexivity|].
  split; [apply Hlast; reflexivity|].
  split; [intros E; apply Hpen in E | intros E; apply Hbrush in E];
    discriminate E.
Defined.

Lemma DrawPath_closing_path action (path : list path_item) :
  match action with
  | paint_s | paint_b | paint_bstar => path ++ [([], path_h)]
  | _ => path
  end = path ++ (if closes action then [([], path_h)] else []).
Proof. destruct action; cbn; rewrite ?app_nil_r; reflexivity. Qed.

(** X5. In [DrawPath] a [v] curve starts at the end point of the last
    [m] or [l] item before it, whatever curves and rectangles came
    in between; when no [m] or [l] item comes before it, [DrawPath]
    raises UnboundLocalError. *)
Theorem curve_v_starts_at_last_move_or_line g pre a0 a1 a2 a3 segs :
  DrawPath_loop None pre = Ok segs ->
  match last_point None pre with
  | None =>
      forall post action,
        DrawPath g (pre ++ ([a0; a1; a2; a3], path_v) :: post) action
        = Raise UnboundLocalError
  | Some (xc, yc) =>
      DrawPath_loop None (pre ++ [([a0; a1; a2; a3], path_v)])
      = Ok (segs ++ [AddCurveToPoint [xc; yc; a0; - a1; a2; - a3]%Q])
  end.
Proof.
  intros Hpre.
  destruct (last_point None pre) as [[xc yc]|] eqn:Hlast.
  - rewrite (DrawPath_loop_app _ _ _ _ Hpre), Hlast. reflexivity.
  - intros post action. unfold DrawPath.
    destruct (acts action) as [[stroke fill] rule].
    rewrite DrawPath_closing_path, <- app_assoc.
    rewrite (DrawPath_loop_app _ _ _ _ Hpre), Hlast. reflexivity.
Qed.

Lemma curve_v_starts_at_last_move_or_line_witness :
  DrawPath_loop None [([1; 2]%Q, path_m); ([3; 4; 5; 6]%Q, path_v)]
  = Ok ([MoveToPoint 1 (- 2)]
        ++ [AddCurveToPoint [1; - 2; 3; - 4; 5; - 6]%Q])
  /\ forall post action,
       DrawPath pdfState_init (([3; 4; 5; 6]%Q, path_v) :: post) action
       = Raise UnboundLocalError.
Proof.
  split.
  - exact (curve_v_starts_at_last_move_or_line pdfState_init
             [([1; 2]%Q, path_m)] 3 4 5 6 [MoveToPoint 1 (- 2)] eq_refl).
  - exact (curve_v_starts_at_last_move_or_line pdfState_init
             [] 3 4 5 6 [] eq_refl).
Defined.

Lemma same_path_locals_refl l : same_path_locals l l.
Proof. repeat split. Qed.

Lemma same_path_locals_extend l d : same_path_locals l (extend l d).
Proof. repeat split. Qed.

#[local] Hint Resolve same_path_locals_refl same_path_locals_extend : core.

Lemma exec_op_keeps_path host page rec pdf_fonts op l s l' s' :
  no_path_op op = true ->
  exec_op host page rec pdf_fonts op l s = (Ok l', s') ->
  same_path_locals l l'.
Proof.
  intros Hop H.
  destruct (q_or_Q op) as [->|[->|[Hq HQ]]].
  { rewrite exec_op_q in H. simplify_eq. auto. }
  { rewrite exec_op_Q in H. destruct (saved_state s); simplify_eq. auto. }
  enough (wp (exec_op host page rec pdf_fonts op l) s
             (fun r _ => forall l', r = Ok l' -> same_path_locals l l')) as Hwp.
  { unfold wp in Hwp. rewrite H in Hwp. apply Hwp. reflexivity. }
  clear H. unfold exec_op.
  destruct op; try discriminate Hop; try congruence; clear Hop Hq HQ;
    repeat wp_step; try (intros ? [= <-]; auto); try discriminate.
  apply wp_InsertXObject.
  destruct (XObject page !! name) as [[stream|stream|]|].
  - destruct (formdrawings s !! name).
    + wp_step. intros ? [= <-]; auto.
    + unfold wp at 1. destruct (rec _ _ s) as [[d|e] s1]; cbn;
        [wp_step; intros ? [= <-]; auto | discriminate].
  - destruct (InsertXObject_image host stream);
      [wp_step; intros ? [= <-]; auto | discriminate].
  - wp_step. intros ? [= <-]; auto.
  - discriminate.
Qed.

Lemma exec_ops_keeps_path host page rec pdf_fonts ops : forall l s l' s',
  forallb no_path_op ops = true ->
  exec_ops host page rec pdf_fonts ops l s = (Ok l', s') ->
  same_path_locals l l'.
Proof.
  induction ops as [|op ops IH]; intros l s l' s' Hops H.
  - cbn in H. unfold ret in H. simplify_eq. auto.
  - cbn [exec_ops] in H. unfold bind in H.
    destruct (exec_op host page rec pdf_fonts op l s) as [[l1|e] s1] eqn:Hop;
      [|discriminate].
    cbn in Hops. apply andb_prop in Hops as [Hop1 Hops].
    pose proof (exec_op_keeps_path _ _ _ _ _ _ _ _ _ Hop1 Hop) as (H1 & H2 & H3).
    destruct (IH _ _ _ _ Hops H) as (H4 & H5 & H6).
    repeat split; congruence.
Qed.

(** X6. A paint operator reached before any path-construction or
    clipping operator of the same operator list raises
    UnboundLocalError (the local [NewClippingPathRequired] is not
    bound yet): no draw list is returned, and the state is the one
    the operators before it left. *)
Theorem paint_before_any_path_raises host page depth pdf_fonts pre action
    rest s0 l s :
  forallb no_path_op pre = true ->
  exec_ops host page (ProcessOperators host depth page) pdf_fonts
           pre (mkLocals [] [] None None) s0 = (Ok l, s) ->
  ProcessOperators host (S depth) page (pre ++ Op_paint action :: rest)
                   pdf_fonts s0
  = (Raise UnboundLocalError, s).
Proof.
  intros Hpre Hrun.
  destruct (exec_ops_keeps_path _ _ _ _ _ _ _ _ _ Hpre Hrun) as (Hp & Hr & _).
  cbn in Hp, Hr.
  cbn [ProcessOperators]. unfold ProcessOperators_body.
  unfold bind at 1. rewrite exec_ops_app. unfold bind at 1. rewrite Hrun.
  cbn [exec_ops]. unfold bind at 1.
  unfold exec_op. unfold bind at 1. unfold get_gstate at 1. cbv beta iota.
  rewrite Hp. 
  assert (exists dl p', DrawPath (gstate s) [] action = Ok (dl, p'))
    as (dl & p' & Hd) by (destruct action; vm_compute; eauto).
  unfold bind at 1. rewrite Hd. unfold lift at 1. cbv beta iota.
  cbn [NewClippingPathRequired extend]. rewrite Hr. reflexivity.
Qed.

Lemma paint_before_any_path_raises_witness :
  exists s,
    ProcessOperators plain_host 1 empty_page
      ([Op_w 2; Op_rg [1; 0; 0]%Q] ++ Op_paint paint_f :: [Op_w 5])
      helvetica fresh
    = (Raise UnboundLocalError, s)
    /\ lineWidth (gstate s) = 2%Q.
Proof.
  destruct (exec_ops plain_host empty_page
              (ProcessOperators plain_host 0 empty_page) helvetica
              [Op_w 2; Op_rg [1; 0; 0]%Q] (mkLocals [] [] None None) fresh)
    as [[l|e] s] eqn:H; [|vm_compute in H; discriminate H].
  exists s. split.
  - apply (paint_before_any_path_raises plain_host empty_page 0 helvetica
             [Op_w 2; Op_rg [1; 0; 0]%Q] paint_f [Op_w 5] fresh l s);
      [reflexivity | exact H].
  - vm_compute in H. injection H as _ <-. reflexivity.
Defined.

(** [Do] on a form adds nothing to the draw list: it fills
    [formdrawings] where the form is not there yet. *)
Lemma Do_form_adds_no_command host page rec pdf_fonts name stream l s :
  XObject page !! name = Some (XForm stream) ->
  match formdrawings s !! name with
  | Some _ =>
      exec_op host page rec pdf_fonts (Op_Do name) l s = (Ok l, s)
  | None =>
      match rec (form_oplist stream) (form_fonts stream) s with
      | (Ok d, s1) =>
          exec_op host page rec pdf_fonts (Op_Do name) l s
          = (Ok l, with_formdrawings s1 (<[name := d]> (formdrawings s1)))
      | (Raise e, s1) =>
          exec_op host page rec pdf_fonts (Op_Do name) l s = (Raise e, s1)
      end
  end.
Proof.
  intros Hx. unfold exec_op, InsertXObject. rewrite Hx.
  unfold bind, get_gstate, ret, put_formdrawings, form_oplist,
    with_formdrawings.
  destruct (formdrawings s !! name) as [cached|].
  - reflexivity.
  - destruct (rec _ _ s) as [[d|e] s1]; reflexivity.
Qed.


Lemma in_filters_array needle l l' :
  (forall x, x ∈ l <-> x ∈ l') ->
  in_filters needle (filter_array l) = in_filters needle (filter_array l').
Proof.
  intros H. unfold in_filters. apply bool_decide_ext, H.
Qed.

(** X7. For a filter array, [UnpackImage] and [AddBitmap] depend only
    on which names the array holds, not on their order or number: the
    decoders run in the fixed order of the code.  For the array
    [/ASCII85Decode /LZWDecode] the LZW decoder runs first. *)
Theorem UnpackImage_ignores_filter_order host data width height l l'
    decode_parms :
  (forall x, x ∈ l <-> x ∈ l') ->
  UnpackImage host data (Some (filter_array l)) decode_parms
  = UnpackImage host data (Some (filter_array l')) decode_parms
  /\ AddBitmap host data width height (Some (filter_array l)) decode_parms
     = AddBitmap host data width height (Some (filter_array l')) decode_parms
  /\ UnpackImage host data
       (Some (filter_array ["/ASCII85Decode"; "/LZWDecode"])) decode_parms
     = (let? d := LZWDecode_decode host data in ASCII85Decode_decode host d).
Proof.
  intros H. split; [|split].
  - unfold UnpackImage.
    rewrite !(in_filters_array _ l l' H). reflexivity.
  - unfold AddBitmap.
    rewrite !(in_filters_array _ l l' H). reflexivity.
  - unfold UnpackImage.
    set (f := filter_array ["/ASCII85Decode"; "/LZWDecode"]).
    assert (in_filters "/LZWDecode" f = true) as -> by (vm_compute; reflexivity).
    assert (in_filters "/A85" f || in_filters "/ASCII85Decode" f = true) as ->
      by (vm_compute; reflexivity).
    assert (in_filters "/Fl" f || in_filters "/FlateDecode" f = false) as ->
      by (vm_compute; reflexivity).
    assert (in_filters "/CCF" f || in_filters "/CCITTFaxDecode" f = false) as ->
      by (vm_compute; reflexivity).
    destruct (LZWDecode_decode host data) as [d|e]; cbn; [|reflexivity].
    destruct (ASCII85Decode_decode host d); reflexivity.
Qed.

Lemma UnpackImage_ignores_filter_order_witness :
  let l := ["/LZWDecode"; "/ASCII85Decode"]%string in
  let l' := ["/ASCII85Decode"; "/LZWDecode"; "/LZWDecode"]%string in
  UnpackImage plain_host [1; 2; 3] (Some (filter_array l)) None
  = UnpackImage plain_host [1; 2; 3] (Some (filter_array l')) None
  /\ AddBitmap plain_host [1; 2; 3] 1 1 (Some (filter_array l)) None
     = AddBitmap plain_host [1; 2; 3] 1 1 (Some (filter_array l')) None
  /\ UnpackImage plain_host [1; 2; 3]
       (Some (filter_array ["/ASCII85Decode"; "/LZWDecode"]%string)) None
     = (let? d := LZWDecode_decode plain_host [1; 2; 3] in
        ASCII85Decode_decode plain_host d).
Proof.
  apply (UnpackImage_ignores_filter_order plain_host [1; 2; 3] 1 1
           ["/LZWDecode"; "/ASCII85Decode"]%string
           ["/ASCII85Decode"; "/LZWDecode"; "/LZWDecode"]%string None).
  intros x. rewrite !elem_of_cons, !elem_of_nil. tauto.
Defined.


(** X8. When [InlineImage] returns, it returns exactly one DrawBitmap
    command, at (0, -H) with width W and height H; the bitmap is a
    JPEG or a buffer of W by H that wx accepted.  It never returns
    an empty list: where the buffer is refused, the handler raises. *)
Theorem InlineImage_one_bitmap_or_raise host settings data dlist :
  InlineImage host settings data = Ok dlist ->
  exists bitmap,
    dlist = [DrawBitmap bitmap 0 (0 - inject_Z (inline_H settings))%Q
                        (inject_Z (inline_W settings))
                        (inject_Z (inline_H settings))]
    /\ match bitmap with
       | Bitmap_FromBuffer w h d =>
           w = inline_W settings /\ h = inline_H settings
           /\ FromBuffer_fits host w h d = true
       | Bitmap_FromJPEG _ => True
       | Bitmap_SetMask _ _ _ => False
       end.
Proof.
  unfold InlineImage, AddBitmap.
  destruct (inline_F settings) as [f|]; [|discriminate].
  repeat match goal with
         | |- context [rbind ?r _] =>
             lazymatch r with
             | rbind _ _ => fail
             | _ => destruct r as [?|?] eqn:?; cbn [rbind]; try discriminate
             end
         end.
  all: intros H;
       repeat match goal with
       | H : (if ?b then _ else _) = _ |- _ => destruct b eqn:?
       | H : match ?x with _ => _ end = _ |- _ => destruct x eqn:?
       end; simplify_eq.
  all: eexists; split; [reflexivity|]; try exact I.
  all: unfold wx_Bitmap_FromBuffer in *;
       repeat match goal with
       | H : (if ?b then _ else _) = _ |- _ => destruct b eqn:?
       end; simplify_eq; auto.
Qed.

Lemma InlineImage_one_bitmap_or_raise_witness :
  let settings := {| inline_W := 1; inline_H := 2; inline_BPC := 8;
                     inline_F := Some (filter_name "/FlateDecode");
                     inline_DecodeParms := None; inline_DP := None |} in
  exists dlist bitmap,
    InlineImage plain_host settings [1; 2; 3; 4; 5; 6] = Ok dlist
    /\ dlist = [DrawBitmap bitmap 0 (0 - inject_Z 2)%Q (inject_Z 1) (inject_Z 2)]
    /\ match bitmap with
       | Bitmap_FromBuffer w h d =>
           w = 1 /\ h = 2 /\ FromBuffer_fits plain_host w h d = true
       | Bitmap_FromJPEG _ => True
       | Bitmap_SetMask _ _ _ => False
       end.
Proof.
  intros settings.
  destruct (InlineImage plain_host settings [1; 2; 3; 4; 5; 6])
    as [dlist|e] eqn:H; [|vm_compute in H; discriminate H].
  destruct (InlineImage_one_bitmap_or_raise plain_host settings
              [1; 2; 3; 4; 5; 6] dlist H) as (bitmap & Hd & Hb).
  exists dlist, bitmap. split; [reflexivity|]. split; [exact Hd | exact Hb].
Defined.

Lemma DeindexImage_samples_range x_depth d b :
  0 <= d < 256 ->
  b ∈ DeindexImage_samples x_depth d ->
  x_depth ∈ [1; 2; 4; 8] /\ 0 <= b < 2 ^ x_depth.
Proof.
  intros Hd Hb.
  assert (Hall : forallb (fun d =>
            forallb (fun x_depth =>
              forallb (fun b => (0 <=? b) && (b <? 2 ^ x_depth))
                      (DeindexImage_samples x_depth d))
              [1; 2; 4; 8])
            (map Z.of_nat (seq 0 256)) = true) by (vm_compute; reflexivity).
  rewrite forallb_forall in Hall.
  specialize (Hall d). 
  assert (In d (map Z.of_nat (seq 0 256))) as Hin.
  { apply in_map_iff. exists (Z.to_nat d). split; [lia|].
    apply in_seq. lia. }
  specialize (Hall Hin). rewrite forallb_forall in Hall.
  specialize (Hall x_depth).
  unfold DeindexImage_samples in Hb.
  repeat case_decide; subst.
  5: { apply elem_of_nil in Hb. contradiction. }
  all: specialize (Hall ltac:(cbn; tauto));
         rewrite forallb_forall in Hall;
         apply list_elem_of_In in Hb;
         specialize (Hall _ Hb); apply andb_prop in Hall as [Hlo Hhi];
         (split; [apply list_elem_of_In; cbn; tauto | ]).
  all: try lia.

Qed.

Lemma DeindexImage_samples_length x_depth d :
  x_depth ∈ [1; 2; 4; 8] ->
  Z.of_nat (length (DeindexImage_samples x_depth d)) = 8 / x_depth.
Proof.
  intros H. apply list_elem_of_In in H. cbn in H.
  destruct H as [<-|[<-|[<-|[<-|[]]]]]; reflexivity.
Qed.

Lemma palette_entry_length x_palette chunk b :
  0 <= b ->
  ((Z.to_nat b + 1) * chunk <= length x_palette)%nat ->
  length (palette_entry x_palette chunk b) = chunk.
Proof.
  intros Hb Hlen. unfold palette_entry, py_slice.
  rewrite length_take, length_drop. nia.
Qed.

Lemma DeindexImage_written_length x_depth x_palette data :
  x_depth ∈ [1; 2; 4; 8] ->
  Forall (fun d => 0 <= d < 256) data ->
  3 * 2 ^ x_depth <= Z.of_nat (length x_palette) ->
  Z.of_nat (length (DeindexImage_written x_depth x_palette 3 data))
  = 3 * (8 / x_depth) * Z.of_nat (length data).
Proof.
  intros Hdepth Hdata Hpal. unfold DeindexImage_written.
  induction Hdata as [|d data Hd _ IH]; [cbn; lia|].
  cbn [flat_map]. rewrite length_app, Nat2Z.inj_add, IH. cbn [length].
  rewrite Nat2Z.inj_succ.
  enough (Z.of_nat (length (flat_map (palette_entry x_palette 3)
                                     (DeindexImage_samples x_depth d)))
          = 3 * (8 / x_depth)) by lia.
  rewrite <- (DeindexImage_samples_length x_depth d Hdepth).
  assert (Hs : forall b, b ∈ DeindexImage_samples x_depth d ->
                         length (palette_entry x_palette 3 b) = 3%nat).
  { intros b Hb.
    destruct (DeindexImage_samples_range _ _ _ Hd Hb) as [_ [Hlo Hhi]].
    apply palette_entry_length; [exact Hlo|]. lia. }
  induction (DeindexImage_samples x_depth d) as [|b bs IHb]; [reflexivity|].
  cbn [flat_map length]. rewrite length_app, Hs by constructor.
  rewrite Nat2Z.inj_add, Nat2Z.inj_succ, IHb; [lia|].
  intros b' Hb'. apply Hs. constructor. exact Hb'.
Qed.

(** X9. For a depth of 1, 2, 4 or 8, data bytes and a palette with an
    entry for every sample value, [DeindexImage] returns, and its
    result is as long as the larger of [width * height * 3] and three
    bytes for each of the [8 / depth] samples of every data byte: the
    buffer grows when the data holds more samples than pixels, and
    keeps its zeros when it holds fewer. *)
Theorem DeindexImage_length width height data x_depth x_palette_size
    x_palette :
  x_depth ∈ [1; 2; 4; 8] ->
  0 <= width * height ->
  Forall (fun d => 0 <= d < 256) data ->
  3 * 2 ^ x_depth <= Z.of_nat (length x_palette) ->
  exists d2,
    DeindexImage width height data x_depth x_palette_size x_palette 3 = Ok d2
    /\ Z.of_nat (length d2)
       = Z.max (width * height * 3)
               (3 * (8 / x_depth) * Z.of_nat (length data)).
Proof.
  intros Hdepth Hsize Hdata Hpal.
  rewrite DeindexImage_result by (cbn; lia).
  eexists. split; [reflexivity|].
  rewrite length_app, length_drop, Nat2Z.inj_add.
  unfold zeros. rewrite length_replicate.
  pose proof (DeindexImage_written_length _ _ _ Hdepth Hdata Hpal) as HW.
  change (Z.of_nat 3) with 3. lia.
Qed.

Lemma DeindexImage_length_witness :
  exists d2,
    DeindexImage 1 1 [18; 52] 4 48 palette_4 3 = Ok d2
    /\ Z.of_nat (length d2) = Z.max (1 * 1 * 3) (3 * (8 / 4) * 2).
Proof.
  apply (DeindexImage_length 1 1 [18; 52] 4 48 palette_4).
  - apply list_elem_of_In. cbn. tauto.
  - lia.
  - repeat constructor; lia.
  - vm_compute. discriminate.
Defined.

Lemma samples_depth_1_8 x_depth d :
  x_depth ∈ [1; 8] -> 0 <= d < 256 ->
  DeindexImage_samples x_depth d
  = map (sample_at x_depth d) (seq 0 (Z.to_nat (8 / x_depth))).
Proof.
  intros Hdepth Hd.
  assert (Hall : forallb (fun d =>
            forallb (fun x_depth =>
              bool_decide (DeindexImage_samples x_depth d
                           = map (sample_at x_depth d)
                                 (seq 0 (Z.to_nat (8 / x_depth)))))
              [1; 8])
            (map Z.of_nat (seq 0 256)) = true) by (vm_compute; reflexivity).
  rewrite forallb_forall in Hall. specialize (Hall d).
  rewrite forallb_forall in Hall.
  eapply bool_decide_eq_true_1, Hall.
  - apply in_map_iff. exists (Z.to_nat d). split; [lia|]. apply in_seq. lia.
  - apply list_elem_of_In, Hdepth.
Qed.

Lemma pixel_flat_map {A} (f : A -> bytes) l : forall i x,
  Forall (fun y => length (f y) = 3%nat) l ->
  l !! i = Some x ->
  forall tail, pixel (flat_map f l ++ tail) i = f x.
Proof.
  induction l as [|y l IH]; intros i x Hall Hi tail; [discriminate|].
  inversion Hall as [|? ? Hy Hl]; subst.
  unfold pixel in *. cbn [flat_map]. rewrite <- app_assoc.
  destruct i as [|i]; cbn in Hi.
  - simplify_eq. rewrite drop_0. rewrite take_app_length'; auto.
  - replace (3 * S i)%nat with (3 + 3 * i)%nat by lia.
    rewrite <- drop_drop, drop_app_length' by (symmetry; exact Hy).
    apply IH; assumption.
Qed.

Lemma lookup_flat_map_chunks {A B} (f : A -> list B) n l : forall j k x,
  Forall (fun y => length (f y) = n) l ->
  l !! j = Some x -> (k < n)%nat ->
  flat_map f l !! (n * j + k)%nat = f x !! k.
Proof.
  induction l as [|y l IH]; intros j k x Hall Hj Hk; [discriminate|].
  inversion Hall as [|? ? Hy Hl]; subst. cbn [flat_map].
  destruct j as [|j]; cbn in Hj.
  - simplify_eq. rewrite Nat.mul_0_r. cbn.
    apply lookup_app_l. lia.
  - rewrite lookup_app_r by lia.
    replace (length (f y) * S j + k - length (f y))%nat
      with (length (f y) * j + k)%nat by lia.
    apply IH; assumption.
Qed.

Lemma DeindexImage_written_length_indexed x_depth x_palette data :
  x_depth ∈ [1; 2; 4; 8] ->
  Forall (fun d => 0 <= d < 256) data ->
  (forall d b, d ∈ data -> b ∈ DeindexImage_samples x_depth d ->
               3 * (b + 1) <= Z.of_nat (length x_palette)) ->
  Z.of_nat (length (DeindexImage_written x_depth x_palette 3 data))
  = 3 * (8 / x_depth) * Z.of_nat (length data).
Proof.
  intros Hdepth Hdata Hpal. unfold DeindexImage_written.
  induction Hdata as [|d data Hd _ IH]; [cbn; lia|].
  cbn [flat_map]. rewrite length_app, Nat2Z.inj_add, IH.
  2: { intros d' b Hd' Hb. apply (Hpal d' b); [|exact Hb].
       apply elem_of_cons. right. exact Hd'. }
  cbn [length]. rewrite Nat2Z.inj_succ.
  enough (Z.of_nat (length (flat_map (palette_entry x_palette 3)
                                     (DeindexImage_samples x_depth d)))
          = 3 * (8 / x_depth)) by lia.
  rewrite <- (DeindexImage_samples_length x_depth d Hdepth).
  assert (Hs : forall b, b ∈ DeindexImage_samples x_depth d ->
                         length (palette_entry x_palette 3 b) = 3%nat).
  { intros b Hb.
    destruct (DeindexImage_samples_range _ _ _ Hd Hb) as [_ [Hlo Hhi]].
    apply palette_entry_length; [exact Hlo|].
    specialize (Hpal d b ltac:(apply elem_of_cons; left; reflexivity) Hb).
    lia. }
  induction (DeindexImage_samples x_depth d) as [|b bs IHb]; [reflexivity|].
  cbn [flat_map length]. rewrite length_app, Hs by constructor.
  rewrite Nat2Z.inj_add, Nat2Z.inj_succ, IHb; [lia|].
  intros b' Hb'. apply Hs. constructor. exact Hb'.
Qed.

(** X10. At depths 1 and 8, when the data holds exactly one sample for
    each pixel and every sample has its entry inside the palette,
    [DeindexImage] returns [width * height] pixels, and pixel
    [(8 / depth) * j + k] is the palette entry of the [k]-th sample
    of data byte [j], the samples taken from the high bits down.  The
    palette may be shorter than [2^depth] entries. *)
Theorem DeindexImage_depth_1_and_8 width height data x_depth x_palette_size
    x_palette :
  x_depth ∈ [1; 8] ->
  Forall (fun d => 0 <= d < 256) data ->
  (forall j k d,
     data !! j = Some d -> Z.of_nat k < 8 / x_depth ->
     3 * (sample_at x_depth d k + 1) <= Z.of_nat (length x_palette)) ->
  width * height = (8 / x_depth) * Z.of_nat (length data) ->
  exists d2,
    DeindexImage width height data x_depth x_palette_size x_palette 3 = Ok d2
    /\ Z.of_nat (length d2) = width * height * 3
    /\ forall j k d,
         data !! j = Some d -> (Z.of_nat k < 8 / x_depth) ->
         pixel d2 (Z.to_nat (8 / x_depth) * j + k)
         = palette_entry x_palette 3 (sample_at x_depth d k).
Proof.
  intros Hdepth Hdata Hpal Hsize.
  assert (Hdepth' : x_depth ∈ [1; 2; 4; 8]).
  { apply list_elem_of_In in Hdepth. apply list_elem_of_In.
    cbn in *. tauto. }
  assert (Hq : 0 < 8 / x_depth).
  { apply list_elem_of_In in Hdepth. cbn in Hdepth.
    destruct Hdepth as [<-|[<-|[]]]; reflexivity. }
  assert (Hin : forall d b,
            d ∈ data -> b ∈ DeindexImage_samples x_depth d ->
            3 * (b + 1) <= Z.of_nat (length x_palette)).
  { intros d b Hd Hb.
    apply list_elem_of_lookup_1 in Hd as [j Hj].
    rewrite samples_depth_1_8 in Hb; [|exact Hdepth|].
    - apply list_elem_of_fmap in Hb as (k & -> & Hk).
      apply elem_of_seq in Hk. apply (Hpal j k d Hj). lia.
    - rewrite Forall_forall in Hdata. apply Hdata.
      eapply list_elem_of_lookup_2, Hj. }
  assert (exists d2,
            DeindexImage width height data x_depth x_palette_size x_palette 3
            = Ok d2
            /\ Z.of_nat (length d2)
               = Z.max (width * height * 3)
                       (3 * (8 / x_depth) * Z.of_nat (length data)))
    as (d2 & Hd2 & Hlen).
  { rewrite DeindexImage_result by nia.
    eexists. split; [reflexivity|].
    rewrite length_app, length_drop, Nat2Z.inj_add.
    unfold zeros. rewrite length_replicate.
    pose proof (DeindexImage_written_length_indexed _ _ _ Hdepth' Hdata Hin)
      as HW.
    change (Z.of_nat 3) with 3. lia. }
  exists d2. split; [exact Hd2|]. split; [nia|].
  intros j k d Hj Hk.
  rewrite DeindexImage_result in Hd2 by nia. injection Hd2 as <-.
  unfold DeindexImage_written. rewrite <- flat_map_flat_map.
  set (n := Z.to_nat (8 / x_depth)).
  assert (Hn : forall y, y ∈ data -> length (DeindexImage_samples x_depth y) = n).
  { intros y _. subst n.
    rewrite <- (DeindexImage_samples_length x_depth y Hdepth').
    rewrite Nat2Z.id. reflexivity. }
  assert (Hlook : flat_map (DeindexImage_samples x_depth) data !! (n * j + k)%nat
                  = Some (sample_at x_depth d k)).
  { rewrite (lookup_flat_map_chunks _ n data j k d); [| |exact Hj|lia].
    - rewrite samples_depth_1_8; [|exact Hdepth|].
      + rewrite list_lookup_fmap. fold n.
        rewrite lookup_seq_lt by lia. reflexivity.
      + rewrite Forall_forall in Hdata. apply Hdata.
        eapply list_elem_of_lookup_2, Hj.
    - apply Forall_forall. exact Hn. }
  apply pixel_flat_map; [|exact Hlook].
  apply Forall_forall. intros b Hb.
  apply list_elem_of_In, in_flat_map in Hb as (y & Hy & Hb).
  rewrite Forall_forall in Hdata.
  destruct (DeindexImage_samples_range x_depth y b) as [_ [Hlo Hhi]].
  - apply Hdata, list_elem_of_In, Hy.
  - apply list_elem_of_In, Hb.
  - apply palette_entry_length; [exact Hlo|].
    specialize (Hin y b ltac:(apply list_elem_of_In; exact Hy)
                    ltac:(apply list_elem_of_In; exact Hb)).
    lia.
Qed.


Lemma DeindexImage_depth_1_and_8_witness :
  let palette := [10; 20; 30; 40; 50; 60] in
  exists d2,
    DeindexImage 3 1 [1; 0; 1] 8 6 palette 3 = Ok d2
    /\ d2 = [40; 50; 60; 10; 20; 30; 40; 50; 60]
    /\ Z.of_nat (length d2) = 3 * 1 * 3
    /\ forall j k d,
         [1; 0; 1] !! j = Some d -> (Z.of_nat k < 8 / 8) ->
         pixel d2 (Z.to_nat (8 / 8) * j + k)
         = palette_entry palette 3 (sample_at 8 d k).
Proof.
  intros palette.
  destruct (DeindexImage_depth_1_and_8 3 1 [1; 0; 1] 8 6 palette)
    as (d2 & Hd2 & Hlen & Hpix).
  - apply list_elem_of_In. cbn. tauto.
  - repeat constructor; lia.
  - intros j k d Hj Hk.
    assert (k = 0%nat) as -> by (change (8 / 8) with 1 in Hk; lia).
    destruct j as [|[|[|j]]]; cbn in Hj; simplify_eq; vm_compute;
      discriminate.
  - reflexivity.
  - exists d2. split; [exact Hd2|].
    split; [vm_compute in Hd2; congruence|].
    split; [exact Hlen | exact Hpix].
Defined.

Lemma FixColour_loop_ragged R1 R9 G1 G9 B1 B9 key n : forall rest d2b,
  (length rest <= n)%nat ->
  (length rest mod 3 <> 0)%nat ->
  FixColour_loop R1 R9 G1 G9 B1 B9 key rest d2b = Raise IndexError.
Proof.
  induction n as [|n IH]; intros rest d2b Hn Hr.
  - destruct rest; [cbn in Hr; congruence | cbn in Hn; lia].
  - destruct rest as [|R [|G [|B rest]]]; try reflexivity.
    + cbn in Hr. congruence.
    + cbn [FixColour_loop]. apply IH; [cbn in Hn; lia|].
      cbn [length] in Hr.
      replace (S (S (S (length rest)))) with (length rest + 1 * 3)%nat in Hr
        by lia.
      rewrite Nat.Div0.mod_add in Hr. exact Hr.
Qed.

(** X11. [FixColour] raises ValueError when the colour key limits are
    not six numbers, and IndexError when they are six but the raster
    is not a whole number of three-byte pixels. *)
Theorem FixColour_rejects_ragged_input RGBdata colour_key_limits
    colour_key_fix :
  (length colour_key_limits <> 6%nat ->
   FixColour RGBdata colour_key_limits colour_key_fix = Raise ValueError)
  /\ (length colour_key_limits = 6%nat ->
      (length RGBdata mod 3 <> 0)%nat ->
      FixColour RGBdata colour_key_limits colour_key_fix = Raise IndexError).
Proof.
  split.
  - intros H. unfold FixColour.
    destruct colour_key_limits as [|? [|? [|? [|? [|? [|? [|? ?]]]]]]];
      try reflexivity. cbn in H. congruence.
  - intros H6 Hr. unfold FixColour.
    destruct colour_key_limits as [|R1 [|R9 [|G1 [|G9 [|B1 [|B9 [|? ?]]]]]]];
      try discriminate H6.
    rewrite (FixColour_loop_ragged _ _ _ _ _ _ _ (length RGBdata)); auto.
Qed.

(* rounding *)





(** [rg] rounds its operand to a float before it scales it: a decimal
    just below 1 gives 255, where truncating 255 times the decimal
    gives 254. *)
Lemma rg_rounds_its_operand :
  let x := (99999999999999999999 # 100000000000000000000)%Q in
  py_int (float_mul (py_float x) 255) = 255 /\ py_int (x * 255) = 254.
Proof. split; vm_compute; reflexivity. Qed.

Lemma LoadResource_app pre : forall g rest,
  LoadResource g (pre ++ rest)
  = match LoadResource g pre with
    | (Ok _, g1) => LoadResource g1 rest
    | (Raise e, g1) => (Raise e, g1)
    end.
Proof.
  induction pre as [|entry pre IH]; intros g rest; cbn; [reflexivity|].
  destruct (LoadResource_entry g entry) as [g'|e]; [apply IH | reflexivity].
Qed.

Lemma cap_table_KeyError v :
  ~ (v == 0)%Q -> ~ (v == 1)%Q -> ~ (v == 2)%Q -> cap_table v = Raise KeyError.
Proof.
  intros H0 H1 H2. unfold cap_table.
  destruct (Qeq_bool v 0) eqn:E0; [apply Qeq_bool_iff in E0; contradiction|].
  destruct (Qeq_bool v 1) eqn:E1; [apply Qeq_bool_iff in E1; contradiction|].
  destruct (Qeq_bool v 2) eqn:E2; [apply Qeq_bool_iff in E2; contradiction|].
  reflexivity.
Qed.

Lemma join_table_KeyError v :
  ~ (v == 0)%Q -> ~ (v == 1)%Q -> ~ (v == 2)%Q -> join_table v = Raise KeyError.
Proof.
  intros H0 H1 H2. unfold join_table.
  destruct (Qeq_bool v 0) eqn:E0; [apply Qeq_bool_iff in E0; contradiction|].
  destruct (Qeq_bool v 1) eqn:E1; [apply Qeq_bool_iff in E1; contradiction|].
  destruct (Qeq_bool v 2) eqn:E2; [apply Qeq_bool_iff in E2; contradiction|].
  reflexivity.
Qed.

(** X13. A line cap or line join other than 0, 1 or 2 raises KeyError:
    the operators [J] and [j] leave the state as it was, and [gs] on
    a dictionary with such an [/LC] or [/LJ] entry stops there, the
    entries before it applied and those after it not. *)
Theorem gs_stops_at_bad_cap_or_join host page rec pdf_fonts name pre v post
    l s g1 :
  ~ (v == 0)%Q -> ~ (v == 1)%Q -> ~ (v == 2)%Q ->
  LoadResource (gstate s) pre = (Ok tt, g1) ->
  (ExtGState page !! name = Some (pre ++ EGS_LC v :: post) ->
   exec_op host page rec pdf_fonts (Op_gs name) l s
   = (Raise KeyError, with_gstate s g1))
  /\ (ExtGState page !! name = Some (pre ++ EGS_LJ v :: post) ->
      exec_op host page rec pdf_fonts (Op_gs name) l s
      = (Raise KeyError, with_gstate s g1))
  /\ exec_op host page rec pdf_fonts (Op_J v) l s = (Raise KeyError, s)
  /\ exec_op host page rec pdf_fonts (Op_j v) l s = (Raise KeyError, s).
Proof.
  intros H0 H1 H2 Hpre.
  split; [|split; [|split]].
  - intros Hx. unfold exec_op, bind, get_gstate. rewrite Hx.
    rewrite LoadResource_app, Hpre. cbn [LoadResource LoadResource_entry].
    rewrite cap_table_KeyError by assumption. reflexivity.
  - intros Hx. unfold exec_op, bind, get_gstate. rewrite Hx.
    rewrite LoadResource_app, Hpre. cbn [LoadResource LoadResource_entry].
    rewrite join_table_KeyError by assumption. reflexivity.
  - unfold exec_op, bind, get_gstate.
    rewrite cap_table_KeyError by assumption. reflexivity.
  - unfold exec_op, bind, get_gstate.
    rewrite join_table_KeyError by assumption. reflexivity.
Qed.


Lemma gs_stops_at_bad_cap_or_join_witness :
  let rec := ProcessOperators plain_host 0 bad_cap_page in
  exec_op plain_host bad_cap_page rec helvetica (Op_gs "/GS1") no_locals fresh
  = (Raise KeyError,
     with_gstate fresh (set_lineWidth (gstate fresh) 4))
  /\ exec_op plain_host bad_cap_page rec helvetica (Op_J 5) no_locals fresh
     = (Raise KeyError, fresh)
  /\ exec_op plain_host bad_cap_page rec helvetica (Op_j 5) no_locals fresh
     = (Raise KeyError, fresh).
Proof.
  intros rec.
  destruct (gs_stops_at_bad_cap_or_join plain_host bad_cap_page rec helvetica
              "/GS1" [EGS_LW 4] 5 [EGS_LW 9] no_locals fresh
              (set_lineWidth (gstate fresh) 4))
    as (Hgs & _ & HJ & Hj);
    [vm_compute; discriminate | vm_compute; discriminate
     | vm_compute; discriminate | reflexivity |].
  split; [apply Hgs; reflexivity | split; [exact HJ | exact Hj]].
Defined.

(** ** What the operators append to the draw list *)

Lemma DrawTextItem_simple host t f s c s' :
  DrawTextItem host t f s = (Ok c, s') -> simple_cmd c = true.
Proof.
  unfold DrawTextItem. run_M. intros H.
  repeat case_match; simplify_eq; reflexivity.
Qed.

Lemma DrawTextItems_simple host f textlist : forall s cs s',
  DrawTextItems host textlist f s = (Ok cs, s') ->
  forallb simple_cmd cs = true.
Proof.
  induction textlist as [|t textlist IH]; intros s cs s' H; cbn in H.
  - unfold ret in H. simplify_eq. reflexivity.
  - unfold bind in H.
    destruct (DrawTextItem host t f s) as [[c|e] s1] eqn:Hc; [|discriminate].
    destruct (DrawTextItems host textlist f s1) as [[cs1|e] s2] eqn:Hcs;
      [|discriminate].
    unfold ret in H. simplify_eq. cbn.
    rewrite (DrawTextItem_simple _ _ _ _ _ _ Hc), (IH _ _ _ Hcs). reflexivity.
Qed.

Lemma DrawTextString_simple host text s d s' :
  DrawTextString host text s = (Ok d, s') -> forallb simple_cmd d = true.
Proof.
  unfold DrawTextString. unfold bind at 1. unfold get_gstate at 1.
  cbv beta iota. unfold bind at 1.
  destruct (SetFont _ _ s) as [[f0|e] s1]; [|discriminate].
  unfold bind at 1.
  destruct (SetFont _ _ s1) as [[f1|e] s2]; [|discriminate].
  unfold bind at 1.
  destruct ((if Qgtb (wordSpacing (gstate s)) 0
             then match text with
                  | PyBytes b => ret (map PyBytes (bytes_split 32 b))
                  | PyStr _ => raise TypeError
                  end
             else ret [text]) s2) as [[textlist|e] s3]; [|discriminate].
  unfold bind at 1.
  destruct (DrawTextItems host textlist _ s3) as [[items|e] s4] eqn:Hi;
    [|discriminate].
  unfold ret. intros H. simplify_eq. cbn.
  eapply DrawTextItems_simple, Hi.
Qed.

Lemma show_TJ_string_simple host e2 s d s' :
  show_TJ_string host e2 s = (Ok d, s') -> forallb simple_cmd d = true.
Proof.
  unfold show_TJ_string, try_except.
  destruct (DrawTextString host (PyBytes e2) s) as [[d1|e] s1] eqn:H1.
  - intros H. simplify_eq. eapply DrawTextString_simple, H1.
  - destruct (DrawTextString host (PyStr _) s1) as [[d2|e'] s2] eqn:H2.
    + intros H. simplify_eq. eapply DrawTextString_simple, H2.
    + unfold ret. intros H. simplify_eq. reflexivity.
Qed.

Lemma show_TJ_array_simple host el : forall s d s',
  show_TJ_array host el s = (Ok d, s') -> forallb simple_cmd d = true.
Proof.
  induction el as [|[n|e2] el IH]; intros s d s' H; cbn in H.
  - unfold ret in H. simplify_eq. reflexivity.
  - eapply IH, H.
  - unfold bind in H.
    destruct (show_TJ_string host e2 s) as [[d1|e] s1] eqn:H1; [|discriminate].
    destruct (show_TJ_array host el s1) as [[d2|e] s2] eqn:H2; [|discriminate].
    unfold ret in H. simplify_eq. rewrite forallb_app.
    rewrite (show_TJ_string_simple _ _ _ _ _ H1), (IH _ _ _ H2). reflexivity.
Qed.

Lemma show_TJ_simple host operand : forall s d s',
  show_TJ host operand s = (Ok d, s') -> forallb simple_cmd d = true.
Proof.
  induction operand as [|el operand IH]; intros s d s' H; cbn in H.
  - unfold ret in H. simplify_eq. reflexivity.
  - unfold bind in H.
    destruct (show_TJ_array host el s) as [[d1|e] s1] eqn:H1; [|discriminate].
    destruct (show_TJ host operand s1) as [[d2|e] s2] eqn:H2; [|discriminate].
    unfold ret in H. simplify_eq. rewrite forallb_app.
    rewrite (show_TJ_array_simple _ _ _ _ _ H1), (IH _ _ _ H2). reflexivity.
Qed.

Lemma AddBitmap_simple host data width height f parms item :
  AddBitmap host data width height f parms = Ok (Some item) ->
  simple_cmd item = true.
Proof.
  unfold AddBitmap. destruct f as [f|]; [|discriminate].
  repeat match goal with
         | |- context [rbind ?r _] =>
             lazymatch r with
             | rbind _ _ => fail
             | _ => destruct r as [?|?]; cbn [rbind]; try discriminate
             end
         end.
  all: intros H; simplify_eq; reflexivity.
Qed.

Lemma InlineImage_simple host settings data dlist :
  InlineImage host settings data = Ok dlist -> forallb simple_cmd dlist = true.
Proof.
  unfold InlineImage.
  destruct (AddBitmap _ _ _ _ _ _) as [[item|]|e] eqn:Ha; cbn;
    intros H; simplify_eq; [|reflexivity].
  cbn. rewrite (AddBitmap_simple _ _ _ _ _ _ _ Ha). reflexivity.
Qed.

Lemma InsertXObject_image_simple host stream dlist :
  InsertXObject_image host stream = Ok dlist ->
  forallb simple_cmd dlist = true.
Proof.
  unfold InsertXObject_image.
  repeat match goal with
         | |- context [rbind ?r _] =>
             lazymatch r with
             | rbind _ _ => fail
             | _ => destruct r as [?|?]; cbn [rbind]; try discriminate
             end
         | |- context [let '(_, _) := ?p in _] => destruct p
         end.
  all: intros H; simplify_eq; reflexivity.
Qed.

Lemma appends_same g l l' : drawlist l' = drawlist l -> appends g l l'.
Proof.
  intros H. exists []. rewrite app_nil_r. split; [exact H | left; reflexivity].
Qed.

Lemma appends_extend g l d :
  forallb simple_cmd d = true -> appends g l (extend l d).
Proof. intros H. exists d. split; [reflexivity | left; exact H]. Qed.

Ltac appends_done :=
  lazymatch goal with
  | |- forall l', _ = Ok l' -> appends _ _ l' =>
      let H := fresh in
      intros ? H; try discriminate H; injection H as <-;
      first [ apply appends_same; reflexivity
            | apply appends_extend; reflexivity ]
  end.

Lemma exec_op_appends_paint host page rec pdf_fonts action l s l' s' :
  exec_op host page rec pdf_fonts (Op_paint action) l s = (Ok l', s') ->
  appends (gstate s) l l'.
Proof.
  intros H. unfold exec_op, bind, get_gstate, lift in H.
  destruct (DrawPath (gstate s) (path l) action) as [[dlist path']|e] eqn:Hd;
    [|discriminate].
  cbn in H.
  destruct (NewClippingPathRequired l) as [[|]|]; cbn in H;
    [destruct (NewClippingRule l); cbn in H| |];
    unfold SetClippingPath, bind, get_gstate, put_gstate, ret in H;
    simplify_eq.
  all: exists dlist; split; [reflexivity | right; eauto].
Qed.

Lemma exec_op_appends_Tj host page rec pdf_fonts text l s l' s' :
  exec_op host page rec pdf_fonts (Op_Tj text) l s = (Ok l', s') ->
  appends (gstate s) l l'.
Proof.
  intros H. unfold exec_op, bind, get_gstate in H.
  destruct (DrawTextString host _ s) as [[d|e] s1] eqn:Hd; [|discriminate].
  unfold ret in H. simplify_eq.
  apply appends_extend. eapply DrawTextString_simple, Hd.
Qed.

Lemma exec_op_appends_quote host page rec pdf_fonts text l s l' s' :
  exec_op host page rec pdf_fonts (Op_quote text) l s = (Ok l', s') ->
  appends (gstate s) l l'.
Proof.
  intros H. unfold exec_op, bind, get_gstate in H.
  destruct (next_line_leading s) as [[u|e] s1]; [|discriminate].
  destruct (DrawTextString host _ s1) as [[d|e] s2] eqn:Hd; [|discriminate].
  unfold ret in H. simplify_eq.
  apply appends_extend. eapply DrawTextString_simple, Hd.
Qed.

Lemma exec_op_appends_dquote host page rec pdf_fonts aw ac text l s l' s' :
  exec_op host page rec pdf_fonts (Op_dquote aw ac text) l s = (Ok l', s') ->
  appends (gstate s) l l'.
Proof.
  intros H. unfold exec_op, bind, get_gstate, put_gstate in H.
  destruct (next_line_leading _) as [[u|e] s1]; [|discriminate].
  destruct (DrawTextString host _ s1) as [[d|e] s2] eqn:Hd; [|discriminate].
  unfold ret in H. simplify_eq.
  apply appends_extend. eapply DrawTextString_simple, Hd.
Qed.

Lemma exec_op_appends_TJ host page rec pdf_fonts operand l s l' s' :
  exec_op host page rec pdf_fonts (Op_TJ operand) l s = (Ok l', s') ->
  appends (gstate s) l l'.
Proof.
  intros H. unfold exec_op, bind, get_gstate in H.
  destruct (show_TJ host operand s) as [[d|e] s1] eqn:Hd; [|discriminate].
  unfold ret in H. simplify_eq.
  apply appends_extend. eapply show_TJ_simple, Hd.
Qed.

Lemma exec_op_appends_Do host page rec pdf_fonts name l s l' s' :
  exec_op host page rec pdf_fonts (Op_Do name) l s = (Ok l', s') ->
  appends (gstate s) l l'.
Proof.
  intros H. unfold exec_op, bind, get_gstate in H.
  destruct (InsertXObject host page rec name s) as [[[d|]|e] s1] eqn:Hd;
    unfold ret in H; simplify_eq; [|apply appends_same; reflexivity].
  apply appends_extend.
  unfold InsertXObject in Hd.
  destruct (XObject page !! name) as [[stream|stream|]|];
    unfold bind, ret, raise, lift in Hd.
  - repeat case_match; simplify_eq.
  - destruct (InsertXObject_image host stream) eqn:Hi; simplify_eq.
    eapply InsertXObject_image_simple, Hi.
  - simplify_eq.
  - simplify_eq.
Qed.

Lemma exec_op_appends_inline host page rec pdf_fonts settings data l s l' s' :
  exec_op host page rec pdf_fonts (Op_INLINE_IMAGE settings data) l s
  = (Ok l', s') ->
  appends (gstate s) l l'.
Proof.
  intros H. unfold exec_op, bind, get_gstate, lift in H.
  destruct (InlineImage host settings data) as [d|e] eqn:Hd; [|discriminate].
  unfold ret in H. simplify_eq.
  apply appends_extend. eapply InlineImage_simple, Hd.
Qed.

Lemma exec_op_appends host page rec pdf_fonts op l s l' s' :
  exec_op host page rec pdf_fonts op l s = (Ok l', s') ->
  appends (gstate s) l l'.
Proof.
  intros H.
  destruct (q_or_Q op) as [->|[->|[Hq HQ]]].
  { rewrite exec_op_q in H. simplify_eq. apply appends_extend. reflexivity. }
  { rewrite exec_op_Q in H. destruct (saved_state s); simplify_eq.
    apply appends_extend. reflexivity. }
  destruct op; try congruence; clear Hq HQ;
    eauto using exec_op_appends_paint, exec_op_appends_Tj,
      exec_op_appends_quote, exec_op_appends_dquote, exec_op_appends_TJ,
      exec_op_appends_Do, exec_op_appends_inline.
  all: match type of H with
       | exec_op _ _ _ _ ?op _ _ = _ =>
           enough (wp (exec_op host page rec pdf_fonts op l) s
                      (fun r _ => forall l', r = Ok l' ->
                                             appends (gstate s) l l')) as Hwp
       end;
    [ unfold wp in Hwp; rewrite H in Hwp; apply Hwp; reflexivity
    | clear H; unfold exec_op; repeat wp_step; appends_done ].
Qed.

(** ** The line width *)

Lemma lw_framed_refl s : lw_framed s s.
Proof. split; reflexivity. Qed.

Lemma lw_framed_trans s1 s2 s3 :
  lw_framed s1 s2 -> lw_framed s2 s3 -> lw_framed s1 s3.
Proof. intros [H1 H2] [H3 H4]. split; congruence. Qed.

Lemma lw_frame_ret {A} (a : A) : lw_frame (ret a).
Proof. intros s. apply lw_framed_refl. Qed.

Lemma lw_frame_raise {A} e : lw_frame (@raise A e).
Proof. intros s. apply lw_framed_refl. Qed.

Lemma lw_frame_bind {A B} (m : M A) (k : A -> M B) :
  lw_frame m -> (forall a, lw_frame (k a)) -> lw_frame (bind m k).
Proof.
  intros Hm Hk s. unfold bind. specialize (Hm s).
  destruct (m s) as [[a|e] s1]; cbn in *; [|exact Hm].
  eapply lw_framed_trans; [exact Hm | apply Hk].
Qed.

Lemma lw_frame_try_except {A} (m h : M A) :
  lw_frame m -> lw_frame h -> lw_frame (try_except m h).
Proof.
  intros Hm Hh s. unfold try_except. specialize (Hm s).
  destruct (m s) as [[a|e] s1]; cbn in *; [exact Hm|].
  eapply lw_framed_trans; [exact Hm | apply Hh].
Qed.

Lemma lw_frame_SetFont pdfont size : lw_frame (SetFont pdfont size).
Proof.
  intros s. unfold SetFont. run_M.
  repeat case_match; simplify_eq; cbn; split; reflexivity.
Qed.

Lemma lw_frame_DrawTextItem host textitem f :
  lw_frame (DrawTextItem host textitem f).
Proof.
  intros s. unfold DrawTextItem. run_M.
  repeat case_match; simplify_eq; cbn; split; reflexivity.
Qed.

Lemma lw_frame_DrawTextItems host f textlist :
  lw_frame (DrawTextItems host textlist f).
Proof.
  induction textlist as [|item textlist IH]; cbn [DrawTextItems].
  - apply lw_frame_ret.
  - apply lw_frame_bind; [apply lw_frame_DrawTextItem|]. intros c.
    apply lw_frame_bind; [exact IH|]. intros cs. apply lw_frame_ret.
Qed.

Lemma lw_frame_DrawTextString host text : lw_frame (DrawTextString host text).
Proof.
  unfold DrawTextString.
  apply lw_frame_bind; [intros s; apply lw_framed_refl|]. intros g.
  apply lw_frame_bind; [apply lw_frame_SetFont|]. intros f0.
  apply lw_frame_bind; [apply lw_frame_SetFont|]. intros f1.
  apply lw_frame_bind.
  { destruct (Qgtb _ _); [destruct text|];
      auto using lw_frame_ret, lw_frame_raise. }
  intros textlist.
  apply lw_frame_bind; [apply lw_frame_DrawTextItems|]. intros items.
  apply lw_frame_ret.
Qed.

Lemma lw_frame_show_TJ_string host e2 : lw_frame (show_TJ_string host e2).
Proof.
  unfold show_TJ_string.
  repeat apply lw_frame_try_except;
    auto using lw_frame_DrawTextString, lw_frame_ret.
Qed.

Lemma lw_frame_show_TJ_array host el : lw_frame (show_TJ_array host el).
Proof.
  induction el as [|[n|e2] el IH]; cbn [show_TJ_array].
  - apply lw_frame_ret.
  - exact IH.
  - apply lw_frame_bind; [apply lw_frame_show_TJ_string|]. intros d.
    apply lw_frame_bind; [exact IH|]. intros ds. apply lw_frame_ret.
Qed.

Lemma lw_frame_show_TJ host operand : lw_frame (show_TJ host operand).
Proof.
  induction operand as [|el operand IH]; cbn [show_TJ].
  - apply lw_frame_ret.
  - apply lw_frame_bind; [apply lw_frame_show_TJ_array|]. intros d.
    apply lw_frame_bind; [exact IH|]. intros ds. apply lw_frame_ret.
Qed.

Lemma lw_frame_next_line dx dy : lw_frame (next_line dx dy).
Proof.
  intros s. unfold next_line, py_index, py_setitem. run_M.
  repeat case_match; simplify_eq; cbn; split; reflexivity.
Qed.

Lemma lw_frame_next_line_leading : lw_frame next_line_leading.
Proof.
  unfold next_line_leading.
  apply lw_frame_bind; [intros s; apply lw_framed_refl|]. intros g.
  apply lw_frame_next_line.
Qed.

Lemma lw_frame_report operator : lw_frame (report operator).
Proof.
  intros s. unfold report. run_M. case_match; simplify_eq; split; reflexivity.
Qed.

Lemma lw_frame_SetClippingPath path rule : lw_frame (SetClippingPath path rule).
Proof. intros s. unfold SetClippingPath. run_M. split; reflexivity. Qed.

Lemma wp_lw_frame {A} (m : M A) s (Q : result A -> interp -> Prop) :
  lw_frame m -> (forall r s', lw_framed s s' -> Q r s') -> wp m s Q.
Proof. intros Hm HQ. apply HQ, Hm. Qed.

Ltac lw_step :=
  lazymatch goal with
  | |- wp (bind _ _) _ _ => apply wp_bind
  | |- wp (ret _) _ _ => apply wp_ret
  | |- wp (raise _) _ _ => apply wp_raise
  | |- wp get_gstate _ _ => apply wp_get_gstate
  | |- wp (put_gstate _) _ _ => apply wp_put_gstate
  | |- wp (lift ?r) _ _ => apply wp_lift; destruct r eqn:?
  | |- wp (DrawTextString _ _) _ _ =>
      apply wp_lw_frame; [apply lw_frame_DrawTextString | intros [?|?] ? ?]
  | |- wp (show_TJ _ _) _ _ =>
      apply wp_lw_frame; [apply lw_frame_show_TJ | intros [?|?] ? ?]
  | |- wp next_line_leading _ _ =>
      apply wp_lw_frame; [apply lw_frame_next_line_leading | intros [?|?] ? ?]
  | |- wp (next_line _ _) _ _ =>
      apply wp_lw_frame; [apply lw_frame_next_line | intros [?|?] ? ?]
  | |- wp (report _) _ _ =>
      apply wp_lw_frame; [apply lw_frame_report | intros [?|?] ? ?]
  | |- wp (SetClippingPath _ _) _ _ =>
      apply wp_lw_frame; [apply lw_frame_SetClippingPath | intros [?|?] ? ?]
  | |- wp (match ?x with _ => _ end) _ _ => destruct x eqn:?
  | |- wp (if ?b then _ else _) _ _ => destruct b eqn:?
  end; cbv beta iota.

Lemma lw_frame_exec_op host page rec pdf_fonts op l :
  lw_plain_op op = true -> lw_frame (exec_op host page rec pdf_fonts op l).
Proof.
  intros Hop s. change (wp (exec_op host page rec pdf_fonts op l) s
                           (fun _ s' => lw_framed s s')).
  unfold exec_op.
  destruct op; try discriminate Hop; clear Hop;
    repeat lw_step;
    unfold lw_framed, with_gstate in *; cbn in *; intuition congruence.
Qed.

Lemma py_max_ge_r a b : (b <= py_max a b)%Q.
Proof.
  unfold py_max, Qgtb. destruct (Qle_bool b a) eqn:E; cbn.
  - apply Qle_bool_iff, E.
  - apply Qle_refl.
Qed.

Lemma py_max_ge_l a b : (a <= py_max a b)%Q.
Proof.
  unfold py_max, Qgtb. destruct (Qle_bool b a) eqn:E; cbn.
  - apply Qle_refl.
  - apply Qlt_le_weak, Qnot_le_lt. intros H.
    apply Qle_bool_iff in H. congruence.
Qed.

Lemma LoadResource_entry_wide g entry g' :
  (1 <= lineWidth g)%Q ->
  LoadResource_entry g entry = Ok g' -> (1 <= lineWidth g')%Q.
Proof.
  intros Hg.
  destruct entry; cbn; intros H;
    try (destruct (cap_table v); cbn in H);
    try (destruct (join_table v); cbn in H);
    simplify_eq; cbn; try exact Hg; apply py_max_ge_r.
Qed.

Lemma LoadResource_wide resource : forall g,
  (1 <= lineWidth g)%Q -> (1 <= lineWidth (LoadResource g resource).2)%Q.
Proof.
  induction resource as [|entry resource IH]; intros g Hg; cbn; [exact Hg|].
  destruct (LoadResource_entry g entry) as [g'|e] eqn:He; [|exact Hg].
  apply IH. eapply LoadResource_entry_wide; eauto.
Qed.

Lemma lw_framed_wide s s' : lw_framed s s' -> all_wide s -> all_wide s'.
Proof. intros [Hs Hw] [H1 H2]. split; [rewrite Hw | rewrite Hs]; assumption. Qed.

Lemma exec_op_wide host page rec pdf_fonts op l s l' s' :
  on_forms page rec all_wide (fun _ s' => all_wide s') ->
  all_wide s ->
  exec_op host page rec pdf_fonts op l s = (Ok l', s') ->
  all_wide s'.
Proof.
  intros Hrec Hs H.
  destruct (lw_plain_op op) eqn:Hp.
  - pose proof (lw_frame_exec_op host page rec pdf_fonts op l Hp s) as Hf.
    rewrite H in Hf. eapply lw_framed_wide; eauto.
  - destruct op; try discriminate Hp.
    + rewrite exec_op_q in H. simplify_eq. destruct Hs as [H1 H2].
      split; [exact H1 | constructor; assumption].
    + rewrite exec_op_Q in H. destruct Hs as [H1 H2].
      destruct (saved_state s) as [|top stack]; [discriminate|].
      simplify_eq. inversion H2; subst. split; assumption.
    + unfold exec_op, bind, get_gstate in H.
      destruct (ExtGState page !! name) as [resource|]; [|discriminate].
      destruct (LoadResource (gstate s) resource) as [r g'] eqn:Hl.
      unfold put_gstate, lift, ret in H. destruct r; simplify_eq.
      destruct Hs as [H1 H2]. split; [|exact H2]. cbn.
      pose proof (LoadResource_wide resource (gstate s) H1) as Hw.
      rewrite Hl in Hw. exact Hw.
    + unfold exec_op, bind, get_gstate, put_gstate, ret in H. simplify_eq.
      destruct Hs as [H1 H2]. split; [|exact H2]. cbn. apply py_max_ge_r.
    + enough (wp (exec_op host page rec pdf_fonts (Op_Do name) l) s
                 (fun r s' => forall l', r = Ok l' -> all_wide s')) as Hwp.
      { unfold wp in Hwp. rewrite H in Hwp. eapply Hwp. reflexivity. }
      clear H. unfold exec_op. do 3 wp_step.
      apply wp_InsertXObject.
      destruct (XObject page !! name) as [[stream|stream|]|] eqn:Hx.
      * destruct (formdrawings s !! name) as [cached|].
        -- wp_step. intros _ _. exact Hs.
        -- unfold wp at 1.
           destruct (rec (form_oplist stream) (form_fonts stream) s)
             as [[d|e] s1] eqn:Hr; cbn.
           ++ wp_step. intros _ _.
              assert (all_wide s1) as [H1 H2] by (eapply Hrec; eauto).
              split; assumption.
           ++ discriminate.
      * destruct (InsertXObject_image host stream).
        -- wp_step. intros _ _. exact Hs.
        -- discriminate.
      * wp_step. intros _ _. exact Hs.
      * discriminate.
Qed.

Lemma path_cmds_pen_wide segs :
  forallb is_path_cmd segs = true -> Forall pen_wide segs.
Proof.
  rewrite forallb_forall, Forall_forall. intros H c Hc.
  apply list_elem_of_In in Hc. specialize (H c Hc).
  destruct c; try discriminate; exact I.
Qed.

(** A pen built by [DrawPath] has the line width of the state. *)
Lemma DrawPath_pen_wide g path action cmds path' :
  (1 <= lineWidth g)%Q ->
  DrawPath g path action = Ok (cmds, path') -> Forall pen_wide cmds.
Proof.
  intros Hg H. unfold DrawPath in H.
  destruct (acts action) as [[stroke fill] rule].
  destruct (DrawPath_loop None _) as [segs|e] eqn:Hl; [|discriminate].
  cbn in H. simplify_eq.
  destruct (DrawPath_loop_shape _ _ _ Hl) as (_ & Hp & _).
  constructor; [destruct stroke; [exact Hg | exact I]|].
  constructor; [destruct fill; exact I|].
  constructor; [exact I|].
  apply Forall_app. split; [|constructor; [exact I | constructor]].
  apply path_cmds_pen_wide, Hp.
Qed.

Lemma simple_cmds_pen_wide cmds :
  forallb simple_cmd cmds = true -> Forall pen_wide cmds.
Proof.
  rewrite forallb_forall, Forall_forall. intros H c Hc.
  apply list_elem_of_In in Hc. specialize (H c Hc).
  destruct c; try discriminate; exact I.
Qed.

Lemma exec_ops_wide host page rec pdf_fonts :
  on_forms page rec all_wide (fun _ s' => all_wide s') ->
  forall ops l s l' s',
    all_wide s -> Forall pen_wide (drawlist l) ->
    exec_ops host page rec pdf_fonts ops l s = (Ok l', s') ->
    all_wide s' /\ Forall pen_wide (drawlist l').
Proof.
  intros Hrec ops.
  induction ops as [|op ops IH]; intros l s l' s' Hs Hl H.
  - cbn in H. unfold ret in H. simplify_eq. auto.
  - cbn [exec_ops] in H. unfold bind in H.
    destruct (exec_op host page rec pdf_fonts op l s) as [[l1|e] s1] eqn:Hop;
      [|discriminate].
    eapply IH; [ | | exact H].
    + eapply exec_op_wide; eauto.
    + destruct (exec_op_appends _ _ _ _ _ _ _ _ _ Hop) as (new & -> & Hseg).
      apply Forall_app. split; [exact Hl|].
      destruct Hseg as [Hsimple | (p & a & p' & Hd)].
      * apply simple_cmds_pen_wide, Hsimple.
      * eapply DrawPath_pen_wide; [apply Hs | exact Hd].
Qed.

Lemma same_kind_refl c : same_kind c c.
Proof. destruct c; reflexivity. Qed.

(** The fold rewrites transforms and bitmaps only. *)
Lemma fold_pairs_same_kind l : forall l',
  fold_pairs l = Ok l' -> Forall2 same_kind l l'.
Proof.
  induction l as [|c1 tl Hk IH|a b c d e f bmp x y w0 h0 rest IH] using pairs_ind;
    intros l' H.
  - injection H as <-. constructor.
  - rewrite fold_pairs_keep in H by assumption.
    destruct (fold_pairs tl) as [tl'|]; [|discriminate].
    injection H as <-. constructor; [apply same_kind_refl | apply IH; reflexivity].
  - cbn [fold_pairs] in H.
    destruct (py_div b a); [|discriminate].
    destruct (py_div c d); [|discriminate].
    destruct (fold_pairs rest) as [r|]; [|discriminate].
    injection H as <-.
    constructor; [exact I|]. constructor; [exact I|]. apply IH. reflexivity.
Qed.

Lemma same_kind_pen_wide l l' :
  Forall2 same_kind l l' -> Forall pen_wide l -> Forall pen_wide l'.
Proof.
  induction 1 as [|c c' l l' Hc _ IH]; intros Hl; [constructor|].
  inversion Hl; subst. constructor; [|apply IH; assumption].
  destruct c, c'; cbn in Hc; try exact I; try discriminate Hc;
    simplify_eq; assumption.
Qed.

Lemma ProcessOperators_wide host page : forall depth,
  on_forms page (ProcessOperators host depth page) all_wide
           (fun _ s' => all_wide s').
Proof.
  induction depth as [|depth IH]; intros name stream s d s' Hx Hs H.
  - discriminate H.
  - cbn [ProcessOperators] in H. unfold ProcessOperators_body, bind in H.
    destruct (exec_ops _ _ _ _ _ _ s) as [[l1|e] s1] eqn:Hops; [|discriminate].
    unfold lift in H. assert (s' = s1) as -> by congruence.
    eapply (exec_ops_wide host page _ (form_fonts stream) IH);
      [exact Hs | | exact Hops].
    constructor.
Qed.

(** X14. When the line width is at least 1 in the current state and in
    every saved one, as at the start of a page, every pen of the draw
    list [ProcessOperators] returns is at least 1 wide, forms
    included, and the line widths are still at least 1 afterwards. *)
Theorem pens_at_least_one_wide host page depth opslist pdf_fonts s d s' :
  all_wide s ->
  ProcessOperators host depth page opslist pdf_fonts s = (Ok d, s') ->
  Forall pen_wide d /\ all_wide s'.
Proof.
  intros Hs H. destruct depth as [|depth]; [discriminate H|].
  cbn [ProcessOperators] in H. unfold ProcessOperators_body, bind in H.
  destruct (exec_ops _ _ _ _ _ _ s) as [[l1|e] s1] eqn:Hops; [|discriminate].
  unfold lift in H.
  destruct (fold_transform (drawlist l1)) as [d'|e] eqn:Hf; [|discriminate].
  simplify_eq.
  destruct (exec_ops_wide host page _ pdf_fonts
              (ProcessOperators_wide host page depth) opslist
              (mkLocals [] [] None None) _ _ _
              Hs (List.Forall_nil _) Hops) as [Hw Hl].
  split; [|exact Hw].
  rewrite fold_transform_pairs in Hf.
  eapply same_kind_pen_wide; [eapply fold_pairs_same_kind, Hf | exact Hl].
Qed.

Lemma pens_at_least_one_wide_witness :
  exists d s',
    ProcessOperators plain_host 1 empty_page thin_stream helvetica fresh
    = (Ok d, s')
    /\ Forall pen_wide d /\ all_wide s'
    /\ In (SetPen (Pen (Colour 0 0 0 255) 1 PENSTYLE_SOLID CAP_BUTT JOIN_MITER []))
          d.
Proof.
  destruct (ProcessOperators plain_host 1 empty_page thin_stream helvetica fresh)
    as [[d|e] s'] eqn:H; [|vm_compute in H; discriminate H].
  exists d, s'. split; [reflexivity|].
  destruct (pens_at_least_one_wide plain_host empty_page 1 thin_stream
              helvetica fresh d s') as [Hd Hs].
  - split; [vm_compute; discriminate | constructor].
  - exact H.
  - split; [exact Hd|]. split; [exact Hs|].
    vm_compute in H. injection H as <- _. cbn. tauto.
Defined.

(** ** Rendering a draw list *)

Lemma gp_ready_true b entries :
  gp_ready b entries = true -> gp_ready true entries = true.
Proof.
  revert b. induction entries as [|c entries IH]; intros b H; [reflexivity|].
  destruct c; cbn [gp_ready] in *;
    try (apply andb_prop in H as [H1 H2]; rewrite (IH _ H2);
         rewrite ?orb_true_r; reflexivity).
  exact H.
Qed.

Lemma gp_ready_app b l1 l2 :
  gp_ready b l1 = true -> (forall b', gp_ready b' l2 = true) ->
  gp_ready b (l1 ++ l2) = true.
Proof.
  revert b. induction l1 as [|c l1 IH]; intros b H1 H2; [apply H2|].
  destruct c; cbn [app gp_ready] in *;
    try (apply andb_prop in H1 as [Hc H1]; rewrite Hc, IH by assumption;
         reflexivity).
  apply IH; assumption.
Qed.

Lemma gp_ready_simple b new :
  forallb simple_cmd new = true -> gp_ready b new = true.
Proof.
  induction new as [|c new IH]; intros H; [reflexivity|].
  cbn in H. apply andb_prop in H as [Hc H].
  destruct c; try discriminate Hc; cbn; auto.
Qed.

Lemma gp_ready_path_cmds segs tail :
  forallb is_path_cmd segs = true -> gp_ready true tail = true ->
  gp_ready true (segs ++ tail) = true.
Proof.
  induction segs as [|c segs IH]; intros H Ht; [exact Ht|].
  cbn in H. apply andb_prop in H as [Hc H].
  destruct c; try discriminate Hc; cbn; auto.
Qed.

Lemma gp_ready_DrawPath b g path action new path' :
  DrawPath g path action = Ok (new, path') -> gp_ready b new = true.
Proof.
  intros H. unfold DrawPath in H.
  destruct (acts action) as [[stroke fill] rule].
  destruct (DrawPath_loop None _) as [segs|e] eqn:Hl; [|discriminate].
  cbn in H. simplify_eq.
  destruct (DrawPath_loop_shape _ _ _ Hl) as (_ & Hp & _).
  destruct stroke, fill; cbn;
    apply gp_ready_path_cmds; auto.
Qed.

Lemma gp_ready_segment b g new : segment g new -> gp_ready b new = true.
Proof.
  intros [H | (p & a & p' & H)];
    [apply gp_ready_simple, H | eapply gp_ready_DrawPath, H].
Qed.

Lemma same_kind_gp_ready l l' :
  Forall2 same_kind l l' -> forall b, gp_ready b l' = gp_ready b l.
Proof.
  induction 1 as [|c c' l l' Hc _ IH]; intros b; [reflexivity|].
  destruct c, c'; cbn in Hc; try discriminate Hc; simplify_eq; cbn;
    rewrite ?IH; reflexivity.
Qed.

Lemma exec_ops_gp_ready host page rec pdf_fonts ops : forall l s l' s',
  gp_ready false (drawlist l) = true ->
  exec_ops host page rec pdf_fonts ops l s = (Ok l', s') ->
  gp_ready false (drawlist l') = true.
Proof.
  induction ops as [|op ops IH]; intros l s l' s' Hl H.
  - cbn in H. unfold ret in H. simplify_eq. exact Hl.
  - cbn [exec_ops] in H. unfold bind in H.
    destruct (exec_op host page rec pdf_fonts op l s) as [[l1|e] s1] eqn:Hop;
      [|discriminate].
    eapply IH; [|exact H].
    destruct (exec_op_appends _ _ _ _ _ _ _ _ _ Hop) as (new & -> & Hseg).
    apply gp_ready_app; [exact Hl|].
    intros b'. eapply gp_ready_segment, Hseg.
Qed.

Lemma ProcessOperators_gp_ready host page depth opslist pdf_fonts s d s' :
  ProcessOperators host depth page opslist pdf_fonts s = (Ok d, s') ->
  gp_ready false d = true.
Proof.
  intros H. destruct depth as [|depth]; [discriminate H|].
  cbn [ProcessOperators] in H. unfold ProcessOperators_body, bind in H.
  destruct (exec_ops _ _ _ _ _ _ s) as [[l1|e] s1] eqn:Hops; [|discriminate].
  unfold lift in H.
  destruct (fold_transform (drawlist l1)) as [d'|e] eqn:Hf; [|discriminate].
  simplify_eq. rewrite fold_transform_pairs in Hf.
  rewrite (same_kind_gp_ready _ _ (fold_pairs_same_kind _ _ Hf)).
  eapply (exec_ops_gp_ready _ _ _ _ _ (mkLocals [] [] None None)); eauto.
Qed.

Lemma gc_invoke_outcome gc call r :
  match gc_invoke gc call r with
  | Ok r' => gp r' = gp r /\ created r' = created r
             /\ calls r' = calls r ++ [call]
  | Raise e => e = HostError
  end.
Proof.
  unfold gc_invoke. destruct (gc_raises gc (calls r) call); cbn; auto.
Qed.

Lemma gc_invoke_calm gc call r :
  calm gc ->
  gc_invoke gc call r = Ok (mkRendering (calls r ++ [call]) (gp r) (created r)).
Proof. intros [H _]. unfold gc_invoke. rewrite H. reflexivity. Qed.

Lemma RenderPage_entry_bound gc entry r :
  (simple_cmd entry
   || match entry with
      | SetPen _ | SetBrush _ | CreatePath => true
      | _ => bool_decide (is_Some (gp r))
      end) = true ->
  match (RenderPage_entry gc entry r).1 with
  | Ok r' => (is_Some (gp r) -> is_Some (gp r'))
             /\ (entry = CreatePath -> is_Some (gp r'))
  | Raise e => e <> UnboundLocalError
  end.
Proof.
  intros H. unfold RenderPage_entry, read_gp, local.
  destruct entry; cbn [fst simple_cmd orb] in *;
    try (apply bool_decide_eq_true in H; destruct H as [p Hp]; rewrite Hp;
         cbn [rbind]);
    repeat match goal with
           | |- context [font_scale gc] => destruct (font_scale gc)
           | |- context [float_div ?a ?b] =>
               unfold float_div; destruct (Qeq_bool b 0)
           | |- context [gc_invoke gc ?c ?r] =>
               let H := fresh in
               pose proof (gc_invoke_outcome gc c r) as H;
               destruct (gc_invoke gc c r); cbn [rbind fst]
           end;
    cbn [fst gp];
    try (intuition (subst; try congruence; eauto; discriminate)).
Qed.

Lemma RenderPage_loop_bound gc entries : forall b r,
  gp_ready b entries = true ->
  (b = true -> is_Some (gp r)) ->
  (RenderPage_loop gc entries r).1.1 <> Raise UnboundLocalError.
Proof.
  induction entries as [|entry entries IH]; intros b r Hready Hb;
    [discriminate|].
  cbn [RenderPage_loop].
  assert (Hentry :
    (simple_cmd entry
     || match entry with
        | SetPen _ | SetBrush _ | CreatePath => true
        | _ => bool_decide (is_Some (gp r))
        end) = true
    /\ gp_ready (match entry with CreatePath => true | _ => b end) entries
       = true).
  { destruct entry; cbn [gp_ready simple_cmd orb] in *;
      try (apply andb_prop in Hready as [H1 H2]);
      try (split; [reflexivity | assumption]);
      split; try assumption;
      apply bool_decide_eq_true, Hb; destruct b; auto. }
  destruct Hentry as [He Hrest].
  pose proof (RenderPage_entry_bound gc entry r He) as Hstep.
  destruct (RenderPage_entry gc entry r) as [[r'|e] entry']; cbn [fst] in Hstep.
  - destruct Hstep as [Hkeep Hnew].
    specialize (IH _ r' Hrest).
    destruct (RenderPage_loop gc entries r') as [[res r''] rest].
    cbn in *. apply IH. intros Hb'.
    destruct entry; try (apply Hkeep, Hb, Hb'); apply Hnew; reflexivity.
  - cbn. congruence.
Qed.

Lemma RenderPage_entry_calm gc entry r :
  calm gc ->
  (simple_cmd entry
   || match entry with
      | SetPen _ | SetBrush _ | CreatePath => true
      | _ => bool_decide (is_Some (gp r))
      end) = true ->
  exists r' entry',
    RenderPage_entry gc entry r = (Ok r', entry')
    /\ (is_Some (gp r) -> is_Some (gp r'))
    /\ (entry = CreatePath -> is_Some (gp r'))
    /\ length (calls r')
       = (length (calls r)
          + match entry with ConcatTransform _ _ _ _ _ _ => 2 | _ => 1 end)%nat.
Proof.
  intros Hcalm H. pose proof Hcalm as [_ Hfs].
  unfold RenderPage_entry, read_gp, local.
  destruct entry; cbn [fst simple_cmd orb] in *;
    try (apply bool_decide_eq_true in H; destruct H as [p Hp]; rewrite Hp;
         cbn [rbind]).
  4: { destruct (font_scale gc) as [fs|].
       - rewrite gc_invoke_calm by exact Hcalm. unfold float_div.
         destruct (Qeq_bool fs 0) eqn:E;
           [apply Qeq_bool_iff in E; contradiction|].
         eexists _, _. split; [reflexivity|]. cbn [calls gp].
         rewrite length_app. cbn [length].
         repeat split; eauto; try discriminate.
       - rewrite gc_invoke_calm by exact Hcalm.
         eexists _, _. split; [reflexivity|]. cbn [calls gp].
         rewrite length_app. cbn [length].
         repeat split; eauto; try discriminate. }
  all: rewrite ?gc_invoke_calm by exact Hcalm; cbn [rbind];
    rewrite ?gc_invoke_calm by exact Hcalm; cbn [rbind calls gp created];
    eexists _, _; (split; [reflexivity|]); cbn [calls gp];
    rewrite ?length_app; cbn [length];
    repeat split; eauto; try discriminate; lia.
Qed.

Lemma RenderPage_loop_calm gc entries : forall b r,
  calm gc ->
  gp_ready b entries = true ->
  (b = true -> is_Some (gp r)) ->
  exists r' entries',
    RenderPage_loop gc entries r = (Ok tt, r', entries')
    /\ length (calls r')
       = (length (calls r) + length entries + transforms entries)%nat.
Proof.
  induction entries as [|entry entries IH]; intros b r Hcalm Hready Hb.
  { exists r, []. split; [reflexivity|]. cbn. lia. }
  cbn [RenderPage_loop].
  assert (Hentry :
    (simple_cmd entry
     || match entry with
        | SetPen _ | SetBrush _ | CreatePath => true
        | _ => bool_decide (is_Some (gp r))
        end) = true
    /\ gp_ready (match entry with CreatePath => true | _ => b end) entries
       = true).
  { destruct entry; cbn [gp_ready simple_cmd orb] in *;
      try (apply andb_prop in Hready as [H1 H2]);
      try (split; [reflexivity | assumption]);
      split; try assumption;
      apply bool_decide_eq_true, Hb; destruct b; auto. }
  destruct Hentry as [He Hrest].
  destruct (RenderPage_entry_calm gc entry r Hcalm He)
    as (r1 & entry' & -> & Hkeep & Hnew & Hlen).
  destruct (IH _ r1 Hcalm Hrest) as (r2 & rest & -> & Hlen2).
  { intros Hb'.
    destruct entry; try (apply Hkeep, Hb, Hb'); apply Hnew; reflexivity. }
  exists r2, (entry' :: rest). split; [reflexivity|].
  rewrite Hlen2, Hlen. unfold transforms.
  destruct entry; cbn [List.filter length]; lia.
Qed.

(** X15. [RenderPage] on a draw list that [ProcessOperators] returned
    never reads the path [gp] before a CreatePath bound it, so it
    does not raise UnboundLocalError; and on a graphics context that
    takes every call and has no zero font scale it returns, having
    made one call for each entry and one more, CreateMatrix, for each
    ConcatTransform. *)
Theorem draw_lists_render host page depth opslist pdf_fonts s d s' gc
    pagedrawings pageno :
  ProcessOperators host depth page opslist pdf_fonts s = (Ok d, s') ->
  pagedrawings !! pageno = Some d ->
  (RenderPage gc pagedrawings pageno).1.1 <> Raise UnboundLocalError
  /\ (calm gc ->
      (RenderPage gc pagedrawings pageno).1.1 = Ok tt
      /\ length (RenderPage gc pagedrawings pageno).1.2
         = (length d + transforms d)%nat).
Proof.
  intros H Hpage. unfold RenderPage. rewrite Hpage.
  pose proof (ProcessOperators_gp_ready _ _ _ _ _ _ _ _ H) as Hready.
  split.
  - pose proof (RenderPage_loop_bound gc d false (mkRendering [] None 0)
                  Hready ltac:(discriminate)) as Hb.
    destruct (RenderPage_loop gc d _) as [[res r] entries']. exact Hb.
  - intros Hcalm.
    destruct (RenderPage_loop_calm gc d false (mkRendering [] None 0)
                Hcalm Hready ltac:(discriminate)) as (r & entries' & -> & Hlen).
    cbn. split; [reflexivity | exact Hlen].
Qed.

Lemma draw_lists_render_witness :
  exists d s',
    ProcessOperators plain_host 1 empty_page thin_stream helvetica fresh
    = (Ok d, s')
    /\ (RenderPage plain_gc {[ 0 := d ]} 0).1.1 <> Raise UnboundLocalError
    /\ (calm plain_gc ->
        (RenderPage plain_gc {[ 0 := d ]} 0).1.1 = Ok tt
        /\ length (RenderPage plain_gc {[ 0 := d ]} 0).1.2
           = (length d + transforms d)%nat).
Proof.
  destruct (ProcessOperators plain_host 1 empty_page thin_stream helvetica fresh)
    as [[d|e] s'] eqn:H; [|vm_compute in H; discriminate H].
  exists d, s'. split; [reflexivity|].
  apply (draw_lists_render plain_host empty_page 1 thin_stream helvetica
           fresh d s' plain_gc {[ 0 := d ]} 0 H).
  apply lookup_singleton_eq.
Defined.









(** The sizes are not restored exactly: a font of size 7 rendered at
    the scale 0.6 is left with the size 7.000000000000001. *)
Lemma RenderPage_font_size_drifts :
  let gc := {| font_scale := Some (py_float (6 # 10));
               gc_raises := fun _ _ => false |} in
  let f := Font 7 FONTFAMILY_SWISS FONTSTYLE_NORMAL FONTWEIGHT_NORMAL "Arial" in
  exists r' f',
    RenderPage_loop gc [Cmd.SetFont f (Colour 0 0 0 255)]
                    (mkRendering [] None 0)
    = (Ok tt, r', [Cmd.SetFont f' (Colour 0 0 0 255)])
    /\ pointSize f' = (7881299347898369 # 1125899906842624)%Q
    /\ ~ (pointSize f' == 7)%Q.
Proof.
  eexists _, _. split; [vm_compute; reflexivity|].
  split; [reflexivity | discriminate].
Qed.

(** A font that the context refuses stays scaled in the list. *)
Lemma RenderPage_leaves_refused_font_scaled gc f colour rest r fs :
  font_scale gc = Some fs ->
  gc_raises gc (calls r) (gc_SetFont (Font_Scale f fs) colour) = true ->
  RenderPage_loop gc (Cmd.SetFont f colour :: rest) r
  = (Raise HostError, r, Cmd.SetFont (Font_Scale f fs) colour :: rest).
Proof.
  intros Hfs Hr. cbn [RenderPage_loop RenderPage_entry].
  rewrite Hfs. unfold gc_invoke. rewrite Hr. reflexivity.
Qed.


(** ** Forms *)

Lemma core_eq_refl s : core_eq s s.
Proof. split; reflexivity. Qed.

Lemma core_eq_sym s1 s2 : core_eq s1 s2 -> core_eq s2 s1.
Proof. intros [H1 H2]. split; congruence. Qed.

Lemma core_eq_trans s1 s2 s3 : core_eq s1 s2 -> core_eq s2 s3 -> core_eq s1 s3.
Proof. intros [H1 H2] [H3 H4]. split; congruence. Qed.

Lemma respects_ret {A} (a : A) : respects (ret a).
Proof. intros s1 s2 H. split; [reflexivity | exact H]. Qed.

Lemma respects_raise {A} e : respects (@raise A e).
Proof. intros s1 s2 H. split; [reflexivity | exact H]. Qed.

Lemma respects_lift {A} (r : result A) : respects (lift r).
Proof. intros s1 s2 H. split; [reflexivity | exact H]. Qed.

Lemma respects_bind {A B} (m : M A) (k : A -> M B) :
  respects m -> (forall a, respects (k a)) -> respects (bind m k).
Proof.
  intros Hm Hk s1 s2 H. unfold bind.
  destruct (Hm s1 s2 H) as [Hr Hs].
  destruct (m s1) as [[a|e] s1'], (m s2) as [[a'|e'] s2']; cbn in *;
    try discriminate Hr; simplify_eq.
  - apply Hk, Hs.
  - split; [reflexivity | exact Hs].
Qed.

Lemma respects_try_except {A} (m h : M A) :
  respects m -> respects h -> respects (try_except m h).
Proof.
  intros Hm Hh s1 s2 H. unfold try_except.
  destruct (Hm s1 s2 H) as [Hr Hs].
  destruct (m s1) as [[a|e] s1'], (m s2) as [[a'|e'] s2']; cbn in *;
    try discriminate Hr; simplify_eq.
  - split; [reflexivity | exact Hs].
  - apply Hh, Hs.
Qed.

Lemma respects_k_bind {A B} (m : M A) (k : A -> M B) :
  respects_k m -> (forall a, respects_k (k a)) -> respects_k (bind m k).
Proof.
  intros Hm Hk s1 s2 H. unfold bind.
  destruct (Hm s1 s2 H) as [Hr Hs].
  destruct (m s1) as [[a|e] s1'], (m s2) as [[a'|e'] s2']; cbn in *;
    try discriminate Hr; simplify_eq.
  - apply Hk, Hs.
  - split; [reflexivity | exact Hs].
Qed.

Lemma respects_k_ret {A} (a : A) : respects_k (ret a).
Proof. intros s1 s2 H. split; [reflexivity | exact H]. Qed.

Lemma respects_get_gstate : respects get_gstate.
Proof.
  intros s1 s2 H. unfold get_gstate. cbn. split; [|exact H].
  destruct H as [-> _]. reflexivity.
Qed.

Lemma respects_put_gstate g : respects (put_gstate g).
Proof.
  intros s1 s2 [H1 H2]. unfold put_gstate. cbn.
  split; [reflexivity|]. split; [reflexivity | exact H2].
Qed.

Lemma respects_report operator : respects (report operator).
Proof.
  intros s1 s2 H. unfold report, put_unimplemented.
  destruct (unimplemented s1 !! operator), (unimplemented s2 !! operator);
    cbn; split; try reflexivity; exact H.
Qed.

Ltac split_states :=
  repeat match goal with
         | s : interp |- _ => destruct s
         | H : core_eq _ _ |- _ => destruct H
         | H : core_eq_k _ _ |- _ => destruct H
         end; cbn in *; subst.

Ltac same_scrutinee :=
  repeat match goal with
         | H1 : ?x = ?a, H2 : ?x = ?b |- _ =>
             lazymatch a with b => fail | _ => rewrite H1 in H2 end
         end.

Lemma respects_k_DrawTextItem host textitem f :
  respects_k (DrawTextItem host textitem f).
Proof.
  intros s1 s2 H. split_states.
  unfold DrawTextItem. run_M.
  repeat case_match; simplify_eq; cbn in *;
    repeat (progress (same_scrutinee; simplify_eq));
    cbn; repeat split; reflexivity.
Qed.

Lemma respects_k_DrawTextItems host f textlist :
  respects_k (DrawTextItems host textlist f).
Proof.
  induction textlist as [|item textlist IH]; cbn [DrawTextItems].
  - apply respects_k_ret.
  - apply respects_k_bind; [apply respects_k_DrawTextItem|]. intros c.
    apply respects_k_bind; [exact IH|]. intros cs. apply respects_k_ret.
Qed.

(** [SetFont] reads nothing of the interpreter and writes [knownfont]. *)
Lemma SetFont_outcome pdfont size s :
  exists r kf, SetFont pdfont size s = (r, with_knownfont s kf)
               /\ forall s', SetFont pdfont size s' = (r, with_knownfont s' kf).
Proof.
  unfold SetFont, bind, ret, raise, put_knownfont, with_knownfont. cbn.
  destruct pdfont as [p|]; [|eauto].
  repeat match goal with
         | |- context [if ?b then _ else _] => destruct b
         end; cbn; destruct size; eauto.
Qed.

Lemma SetFont_core_k pdfont size s1 s2 :
  core_eq s1 s2 ->
  (SetFont pdfont size s1).1 = (SetFont pdfont size s2).1
  /\ core_eq_k (SetFont pdfont size s1).2 (SetFont pdfont size s2).2.
Proof.
  intros [H1 H2].
  destruct (SetFont_outcome pdfont size s1) as (r & kf & Hs1 & Hall).
  rewrite Hs1, (Hall s2). cbn. repeat split; assumption.
Qed.

Lemma respects_k_SetFont pdfont size : respects_k (SetFont pdfont size).
Proof.
  intros s1 s2 [H _]. apply SetFont_core_k, H.
Qed.

(** A computation that starts by resolving the font. *)
Lemma respects_after_SetFont {A} pdfont size (k : wxFont -> M A) :
  (forall f, respects_k (k f)) -> respects (bind (SetFont pdfont size) k).
Proof.
  intros Hk s1 s2 H. unfold bind.
  destruct (SetFont_core_k pdfont size s1 s2 H) as [Hr Hs].
  destruct (SetFont pdfont size s1) as [[f|e] s1'],
           (SetFont pdfont size s2) as [[f'|e'] s2']; cbn in *;
    try discriminate Hr; simplify_eq.
  - destruct (Hk f' s1' s2' Hs) as [Hr' [Hc _]]. split; assumption.
  - split; [reflexivity | apply Hs].
Qed.

Lemma respects_DrawTextString host text : respects (DrawTextString host text).
Proof.
  unfold DrawTextString.
  apply respects_bind; [apply respects_get_gstate|]. intros g.
  apply respects_after_SetFont. intros f0.
  apply respects_k_bind; [apply respects_k_SetFont|]. intros f1.
  apply respects_k_bind.
  - destruct (Qgtb _ _); [destruct text|];
      intros t1 t2 Ht; (split; [reflexivity | exact Ht]).
  - intros textlist. apply respects_k_bind;
      [apply respects_k_DrawTextItems | intros; apply respects_k_ret].
Qed.

Lemma respects_show_TJ_string host e2 : respects (show_TJ_string host e2).
Proof.
  unfold show_TJ_string.
  repeat apply respects_try_except;
    auto using respects_DrawTextString, respects_ret.
Qed.

Lemma respects_show_TJ_array host el : respects (show_TJ_array host el).
Proof.
  induction el as [|[n|e2] el IH]; cbn [show_TJ_array].
  - apply respects_ret.
  - exact IH.
  - apply respects_bind; [apply respects_show_TJ_string|]. intros d.
    apply respects_bind; [exact IH|]. intros ds. apply respects_ret.
Qed.

Lemma respects_show_TJ host operand : respects (show_TJ host operand).
Proof.
  induction operand as [|el operand IH]; cbn [show_TJ].
  - apply respects_ret.
  - apply respects_bind; [apply respects_show_TJ_array|]. intros d.
    apply respects_bind; [exact IH|]. intros ds. apply respects_ret.
Qed.

Ltac respects_step :=
  lazymatch goal with
  | |- respects (bind _ _) => apply respects_bind; [|intros ?]
  | |- respects (ret _) => apply respects_ret
  | |- respects (raise _) => apply respects_raise
  | |- respects (lift _) => apply respects_lift
  | |- respects get_gstate => apply respects_get_gstate
  | |- respects (put_gstate _) => apply respects_put_gstate
  | |- respects (report _) => apply respects_report
  | |- respects (DrawTextString _ _) => apply respects_DrawTextString
  | |- respects (show_TJ _ _) => apply respects_show_TJ
  | |- respects (match ?x with _ => _ end) => destruct x
  | |- respects (if ?b then _ else _) => destruct b
  | |- respects (let '(_, _) := ?p in _) => destruct p
  end.

Lemma respects_next_line dx dy : respects (next_line dx dy).
Proof. unfold next_line. repeat respects_step. Qed.

Lemma respects_next_line_leading : respects next_line_leading.
Proof.
  unfold next_line_leading. respects_step; [respects_step|].
  apply respects_next_line.
Qed.

Lemma respects_SetClippingPath path rule :
  respects (SetClippingPath path rule).
Proof. unfold SetClippingPath. repeat respects_step. Qed.

Lemma respects_push g : respects (fun s => put_saved_state (g :: saved_state s) s).
Proof.
  intros s1 s2 [H1 H2]. cbn. split; [reflexivity|].
  split; cbn; congruence.
Qed.

Lemma respects_pop :
  respects (fun s => match saved_state s with
                     | [] => (Raise IndexError, s)
                     | top :: stack =>
                         bind (put_saved_state stack) (fun _ => put_gstate top) s
                     end).
Proof.
  intros s1 s2 [H1 H2]. rewrite <- H2.
  destruct (saved_state s1) as [|top stack] eqn:E; cbn.
  - split; [reflexivity|]. split; congruence.
  - split; [reflexivity|]. split; reflexivity.
Qed.

(** Every operator but the invocation of a form reads nothing of the
    interpreter besides the graphics state and the saved states. *)
Lemma respects_exec_op host page rec pdf_fonts op l :
  invokes_form page op = false ->
  respects (exec_op host page rec pdf_fonts op l).
Proof.
  intros Hop. unfold exec_op.
  apply respects_bind; [apply respects_get_gstate|]. intros g.
  destruct op;
    try (repeat first [ apply respects_next_line_leading
                      | apply respects_next_line
                      | apply respects_SetClippingPath
                      | apply respects_push
                      | apply respects_pop
                      | respects_step ]; fail).
  (* Do *)
  cbn in Hop. unfold InsertXObject.
  destruct (XObject page !! name) as [[stream|stream|]|]; try discriminate Hop;
    repeat respects_step.
Qed.

(** A form whose operations are well nested leaves the graphics state
    and the saved states as it found them. *)
Lemma ProcessOperators_forms_core host page :
  forms_all well_nested page = true ->
  forall depth,
    on_forms page (ProcessOperators host depth page) (fun _ => True)
             (fun s s' => core_eq s' s).
Proof.
  intros Hforms depth name stream s d s' Hx _ H.
  destruct depth as [|depth]; [discriminate H|].
  cbn [ProcessOperators] in H. unfold ProcessOperators_body, bind in H.
  destruct (exec_ops _ _ _ _ _ _ s) as [[l1|e] s1] eqn:Hops; [|discriminate].
  unfold lift in H. assert (s' = s1) as -> by congruence. clear H.
  unfold form_oplist in Hops.
  change ([Op_q; Op_cm (Matrix stream)] ++ operations stream ++ [Op_Q])
    with ([Op_q] ++ (Op_cm (Matrix stream) :: operations stream) ++ [Op_Q])
    in Hops.
  rewrite exec_ops_app in Hops. unfold bind in Hops.
  cbn [exec_ops] in Hops. unfold bind at 1 in Hops.
  rewrite exec_op_q in Hops. unfold ret at 1 in Hops.
  rewrite exec_ops_app in Hops. unfold bind in Hops.
  destruct (exec_ops _ _ _ _ (Op_cm _ :: _) _ _) as [[l2|e] s2] eqn:Hbody;
    [|discriminate].
  edestruct (exec_ops_nesting host page _ (form_fonts stream)
               (ProcessOperators_forms_stack host page Hforms depth)
               (Op_cm (Matrix stream) :: operations stream) 0%nat 0%nat []
               (gstate s :: saved_state s))
    as (top' & Hl & Hs); [ | reflexivity | | exact Hbody | ].
  { cbn [nesting].
    pose proof (forms_all_lookup _ _ _ _ Hforms Hx) as Hw.
    apply bool_decide_eq_true in Hw. exact Hw. }
  { reflexivity. }
  destruct top'; [|discriminate]. cbn in Hs.
  cbn [exec_ops] in Hops. unfold bind in Hops.
  rewrite exec_op_Q, Hs in Hops. unfold ret in Hops. simplify_eq.
  split; reflexivity.
Qed.

Lemma exec_op_form_core host page depth pdf_fonts op l s l' s' :
  forms_all well_nested page = true ->
  invokes_form page op = true ->
  exec_op host page (ProcessOperators host depth page) pdf_fonts op l s
  = (Ok l', s') ->
  l' = l /\ core_eq s' s.
Proof.
  intros Hforms Hop H.
  destruct op; try discriminate Hop. cbn in Hop.
  destruct (XObject page !! name) as [[stream| |]|] eqn:Hx;
    try discriminate Hop.
  unfold exec_op, InsertXObject in H. rewrite Hx in H.
  unfold bind, get_gstate, ret, put_formdrawings in H.
  destruct (formdrawings s !! name) as [cached|].
  - simplify_eq. split; [reflexivity | apply core_eq_refl].
  - destruct (ProcessOperators host depth page _ _ s) as [[d|e] s1] eqn:Hr;
      [|discriminate].
    simplify_eq. split; [reflexivity|].
    apply (ProcessOperators_forms_core host page Hforms depth name stream
             s d s1 Hx I Hr).
Qed.

(** The run without the form invocations follows the run with them. *)
Lemma exec_ops_without_forms host page depth pdf_fonts :
  forms_all well_nested page = true ->
  forall ops l s1 s2 l' s1',
    core_eq s1 s2 ->
    exec_ops host page (ProcessOperators host depth page) pdf_fonts
             ops l s1 = (Ok l', s1') ->
    exists s2',
      exec_ops host page (ProcessOperators host depth page) pdf_fonts
               (without_forms page ops) l s2 = (Ok l', s2')
      /\ core_eq s1' s2'.
Proof.
  intros Hforms ops.
  induction ops as [|op ops IH]; intros l s1 s2 l' s1' Hs H.
  - cbn in H. unfold ret in H. simplify_eq. exists s2. split; [reflexivity|].
    exact Hs.
  - cbn [exec_ops] in H. unfold bind in H.
    destruct (exec_op host page _ pdf_fonts op l s1) as [[l1|e] s1a] eqn:Hop;
      [|discriminate].
    unfold without_forms. cbn [List.filter].
    destruct (invokes_form page op) eqn:Hf; cbn [negb].
    + destruct (exec_op_form_core _ _ _ _ _ _ _ _ _ Hforms Hf Hop) as [-> Hc].
      apply (IH l s1a s2 l' s1'); [|exact H].
      eapply core_eq_trans; eauto.
    + destruct (respects_exec_op host page (ProcessOperators host depth page)
                  pdf_fonts op l Hf s1 s2 Hs) as [Hr Hc].
      rewrite Hop in Hr, Hc.
      destruct (exec_op host page _ pdf_fonts op l s2) as [r2 s2a] eqn:Hop2.
      cbn [fst snd] in Hr, Hc. subst r2.
      destruct (IH l1 s1a _ l' s1' Hc H) as (s2' & Hrun & Hc').
      exists s2'. split; [|exact Hc'].
      cbn [exec_ops]. unfold bind. rewrite Hop2. exact Hrun.
Qed.

(** X17. Where the forms of the page are well nested, removing every
    [Do] of a form from an operator list changes neither the draw
    list [ProcessOperators] returns nor the graphics state and save
    stack it leaves: the form branch of [InsertXObject] fills
    [formdrawings] and returns nothing to draw. *)
Theorem forms_are_never_drawn host page depth opslist pdf_fonts s d s' :
  forms_all well_nested page = true ->
  ProcessOperators host depth page opslist pdf_fonts s = (Ok d, s') ->
  exists s'',
    ProcessOperators host depth page (without_forms page opslist) pdf_fonts s
    = (Ok d, s'')
    /\ gstate s'' = gstate s' /\ saved_state s'' = saved_state s'.
Proof.
  intros Hforms H. destruct depth as [|depth]; [discriminate H|].
  cbn [ProcessOperators] in *. unfold ProcessOperators_body, bind in *.
  destruct (exec_ops _ _ _ _ opslist _ s) as [[l1|e] s1] eqn:Hops;
    [|discriminate].
  unfold lift in H.
  destruct (fold_transform (drawlist l1)) as [d'|e] eqn:Hfold; [|discriminate].
  simplify_eq.
  destruct (exec_ops_without_forms host page depth pdf_fonts Hforms
              opslist _ s s _ _ (core_eq_refl s) Hops) as (s2 & -> & [Hg Hst]).
  exists s2. unfold lift. rewrite Hfold. auto.
Qed.


Lemma forms_are_never_drawn_witness :
  exists d s' s'',
    without_forms form_page form_stream
    = [Op_w 3; Op_path path_re [0; 0; 5; 5]%Q; Op_paint paint_f]
    /\ ProcessOperators plain_host 2 form_page form_stream helvetica fresh
       = (Ok d, s')
    /\ ProcessOperators plain_host 2 form_page
         (without_forms form_page form_stream) helvetica fresh
       = (Ok d, s'')
    /\ gstate s'' = gstate s' /\ saved_state s'' = saved_state s'.
Proof.
  destruct (ProcessOperators plain_host 2 form_page form_stream helvetica fresh)
    as [[d|e] s'] eqn:H; [|vm_compute in H; discriminate H].
  destruct (forms_are_never_drawn plain_host form_page 2 form_stream helvetica
              fresh d s') as (s'' & H'' & Hg & Hs);
    [reflexivity | exact H |].
  exists d, s', s''. split; [reflexivity|]. split; [reflexivity|].
  split; [exact H''|]. split; [exact Hg | exact Hs].
Defined.

(** ** Fonts of a page *)

Lemma FetchFonts_loop_readable fonts : forall acc,
  FetchFonts_loop fonts acc
  = fold_left (fun m kb => <[kb.1 := tail_of kb.2]> m) (readable_fonts fonts) acc.
Proof.
  induction fonts as [|[key [b| |]] fonts IH]; intros acc; cbn;
    try reflexivity. apply IH.
Qed.

Lemma fold_insert_lookup_notin (l : list (string * string)) :
  forall (acc : gmap string string) name,
  name ∉ map fst l ->
  fold_left (fun m kb => <[kb.1 := tail_of kb.2]> m) l acc !! name
  = acc !! name.
Proof.
  induction l as [|[k b] l IH]; intros acc name Hn; [reflexivity|].
  cbn in *. rewrite IH.
  - apply lookup_insert_ne. intros ->. apply Hn. constructor.
  - intros Hin. apply Hn. constructor. exact Hin.
Qed.

Lemma fold_insert_lookup_in (l : list (string * string)) :
  forall (acc : gmap string string) name b,
  NoDup (map fst l) -> (name, b) ∈ l ->
  fold_left (fun m kb => <[kb.1 := tail_of kb.2]> m) l acc !! name
  = Some (tail_of b).
Proof.
  induction l as [|[k b0] l IH]; intros acc name b Hnd Hin.
  - apply elem_of_nil in Hin. contradiction.
  - cbn in *. apply NoDup_cons in Hnd as [Hk Hnd].
    apply elem_of_cons in Hin as [Heq|Hin].
    + simplify_eq. rewrite fold_insert_lookup_notin by exact Hk.
      apply lookup_insert_eq.
    + apply IH; assumption.
Qed.

(** X18. [FetchFonts] returns the fonts that come before the first one
    whose [/BaseFont] cannot be read, each base font without its
    first character; that font and every later one are left out, so
    that [Tf] with one of their names raises KeyError. *)
Theorem FetchFonts_stops_at_unreadable_font fonts :
  NoDup (map fst (readable_fonts fonts)) ->
  exists pdf_fonts,
    FetchFonts (Found (Found fonts)) = Ok pdf_fonts
    /\ (forall key basefont,
          (key, basefont) ∈ readable_fonts fonts ->
          pdf_fonts !! key = Some (tail_of basefont))
    /\ (forall key,
          key ∉ map fst (readable_fonts fonts) -> pdf_fonts !! key = None)
    /\ (forall host page rec key size l s,
          key ∉ map fst (readable_fonts fonts) ->
          exec_op host page rec pdf_fonts (Op_Tf key size) l s
          = (Raise KeyError, s)).
Proof.
  intros Hnd. eexists. split; [reflexivity|].
  rewrite FetchFonts_loop_readable.
  split; [|split].
  - intros key b Hin. apply fold_insert_lookup_in; assumption.
  - intros key Hn. rewrite fold_insert_lookup_notin by exact Hn.
    apply lookup_empty.
  - intros host page rec key size l s Hn.
    unfold exec_op, bind, get_gstate.
    rewrite fold_insert_lookup_notin by exact Hn.
    rewrite lookup_empty. reflexivity.
Qed.

Lemma FetchFonts_stops_at_unreadable_font_witness :
  exists pdf_fonts,
    FetchFonts (Found (Found demo_fonts)) = Ok pdf_fonts
    /\ pdf_fonts !! "/F1"%string = Some "Helvetica"%string
    /\ pdf_fonts !! "/F3"%string = None
    /\ exec_op plain_host empty_page (ProcessOperators plain_host 0 empty_page)
               pdf_fonts (Op_Tf "/F3" 12) no_locals fresh
       = (Raise KeyError, fresh).
Proof.
  destruct (FetchFonts_stops_at_unreadable_font demo_fonts)
    as (pdf_fonts & Hf & Hin & Hout & HTf).
  - cbn. apply NoDup_singleton.
  - assert ("/F3"%string ∉ map fst (readable_fonts demo_fonts)) as Hn.
    { cbn. rewrite elem_of_cons, elem_of_nil. intros [E|[]]. discriminate E. }
    exists pdf_fonts. split; [exact Hf|]. split; [|split].
    + apply (Hin "/F1"%string "/Helvetica"%string). cbn. constructor.
    + apply Hout. exact Hn.
    + apply HTf. exact Hn.
Defined.

(** ** Drawing a range of pages *)

Lemma elem_of_py_range a b n : n ∈ py_range a b <-> a <= n < b.
Proof.
  unfold py_range. rewrite list_elem_of_fmap. split.
  - intros (i & -> & Hi). apply elem_of_seq in Hi. lia.
  - intros H. exists (Z.to_nat (n - a)). split; [lia|].
    apply elem_of_seq. lia.
Qed.

Lemma NoDup_py_range a b : NoDup (py_range a b).
Proof.
  unfold py_range. apply NoDup_fmap_2; [|apply NoDup_seq].
  intros i j H. lia.
Qed.

Lemma DrawFile_page_outcome host depth pdfdoc rp pageno generated p :
  match DrawFile_page host depth pdfdoc rp pageno generated p with
  | (Ok _, p') =>
      exists d, drawn_from host depth pdfdoc pageno d
                /\ pagedrawings p' = <[pageno := d]> (pagedrawings p)
                /\ exists evs, events p' = events p ++ evs
                               /\ Forall progress_event evs
  | (Raise _, p') =>
      pagedrawings p' = pagedrawings p /\ events p' = events p
  end.
Proof.
  unfold DrawFile_page.
  destruct (getPage pdfdoc pageno) as [page|e] eqn:Hp; [|auto].
  destruct (FetchFonts (page_fonts page)) as [pdf_fonts|e] eqn:Hf; [|auto].
  destruct (page_operators page) as [opslist|e] eqn:Ho; [|auto].
  destruct (ProcessOperators _ _ _ _ _ _) as [[d|e] s'] eqn:Hr; [|auto].
  exists d. split; [|split; [reflexivity|]].
  - exists page, opslist, pdf_fonts, (core p), s'. auto.
  - eexists. split; [reflexivity|]. destruct rp; repeat constructor.
Qed.

Lemma DrawFile_loop_outcome host depth pdfdoc rp pagenos :
  forall generated p,
    NoDup pagenos ->
    let '(r, p') := DrawFile_loop host depth pdfdoc rp pagenos generated p in
    (forall n, n ∉ pagenos -> pagedrawings p' !! n = pagedrawings p !! n)
    /\ (exists evs, events p' = events p ++ evs /\ Forall progress_event evs)
    /\ (r = Ok tt ->
        forall n, n ∈ pagenos ->
          exists d, drawn_from host depth pdfdoc n d
                    /\ pagedrawings p' !! n = Some d).
Proof.
  induction pagenos as [|pageno pagenos IH]; intros generated p Hnd.
  - cbn. split; [reflexivity|]. split.
    + exists []. rewrite app_nil_r. split; [reflexivity | constructor].
    + intros _ n Hn. apply elem_of_nil in Hn. contradiction.
  - cbn [DrawFile_loop].
    pose proof (DrawFile_page_outcome host depth pdfdoc rp pageno generated p)
      as Hpage.
    apply NoDup_cons in Hnd as [Hfresh Hnd].
    destruct (DrawFile_page host depth pdfdoc rp pageno generated p)
      as [[u|e] p1].
    + destruct Hpage as (d & Hd & Hpd & evs1 & Hev1 & Hp1).
      specialize (IH (generated + 1) p1 Hnd).
      destruct (DrawFile_loop host depth pdfdoc rp pagenos (generated + 1) p1)
        as [r p'].
      destruct IH as (Hout & (evs2 & Hev2 & Hp2) & Hin).
      split; [|split].
      * intros n Hn. rewrite Hout, Hpd.
        -- apply lookup_insert_ne. intros ->. apply Hn. constructor.
        -- intros Hn'. apply Hn. constructor. exact Hn'.
      * exists (evs1 ++ evs2). rewrite Hev2, Hev1, app_assoc.
        split; [reflexivity | apply Forall_app; auto].
      * intros Hr n Hn. apply elem_of_cons in Hn as [->|Hn].
        -- exists d. split; [exact Hd|].
           rewrite Hout by exact Hfresh. rewrite Hpd. apply lookup_insert_eq.
        -- apply Hin; assumption.
    + destruct Hpage as [Hpd Hev]. split; [|split].
      * intros n _. rewrite Hpd. reflexivity.
      * exists []. rewrite app_nil_r. split; [exact Hev | constructor].
      * discriminate.
Qed.

(** X19. When [DrawFile] returns, [pagedrawings] holds for every page
    from [frompage] to [topage] the draw list that
    [ProcessOperators] returns for the operators and fonts of that
    page from the state of a new page; the entries of other pages
    are as before, and the last thing it does is [GoPage(frompage)]. *)
Theorem DrawFile_stores_the_range host depth pdfdoc showloadprogress
    frompage topage p p' :
  DrawFile host depth pdfdoc showloadprogress frompage topage p = (Ok tt, p') ->
  (forall n, frompage <= n <= topage ->
     exists d, drawn_from host depth pdfdoc n d
               /\ pagedrawings p' !! n = Some d)
  /\ (forall n, ~ (frompage <= n <= topage) ->
        pagedrawings p' !! n = pagedrawings p !! n)
  /\ last (events p') = Some (GoPage frompage).
Proof.
  unfold DrawFile. intros H.
  set (rp := showloadprogress && (frompage =? 0)
             && (topage =? numpages pdfdoc - 1)) in *.
  set (p0 := mkProcessor (core p) (pagedrawings p) _) in *.
  pose proof (DrawFile_loop_outcome host depth pdfdoc rp
                (py_range frompage (topage + 1)) 0 p0
                (NoDup_py_range _ _)) as Hloop.
  destruct (DrawFile_loop host depth pdfdoc rp _ 0 p0) as [[u|e] p1];
    [|discriminate].
  destruct Hloop as (Hout & _ & Hin). simplify_eq. cbn [pagedrawings events].
  split; [|split].
  - intros n Hn. apply Hin; [destruct u; reflexivity|].
    apply elem_of_py_range. lia.
  - intros n Hn. rewrite Hout; [reflexivity|].
    rewrite elem_of_py_range. lia.
  - rewrite app_assoc. apply last_snoc.
Qed.

Lemma DrawFile_stores_the_range_witness :
  let p := mkProcessor fresh ∅ [] in
  exists p',
    DrawFile plain_host 2 demo_doc true 0 1 p = (Ok tt, p')
    /\ (forall n, 0 <= n <= 1 ->
          exists d, drawn_from plain_host 2 demo_doc n d
                    /\ pagedrawings p' !! n = Some d)
    /\ (forall n, ~ (0 <= n <= 1) ->
          pagedrawings p' !! n = pagedrawings p !! n)
    /\ last (events p') = Some (GoPage 0).
Proof.
  intros p.
  destruct (DrawFile plain_host 2 demo_doc true 0 1 p) as [[[]|e] p'] eqn:H;
    [|vm_compute in H; discriminate H].
  exists p'. split; [reflexivity|].
  exact (DrawFile_stores_the_range plain_host 2 demo_doc true 0 1 p p' H).
Defined.

(** X20. When a page makes [DrawFile] raise, the draw lists of the pages
    outside the range are as before, and nothing but the start and
    the updates of the progress dialog has been shown: the dialog is
    not ended and [GoPage] is not called. *)
Theorem DrawFile_failure_leaves_dialog_open host depth pdfdoc showloadprogress
    frompage topage p e p' :
  DrawFile host depth pdfdoc showloadprogress frompage topage p = (Raise e, p') ->
  (exists evs, events p' = events p ++ evs /\ Forall progress_event evs)
  /\ (forall n, ~ (frompage <= n <= topage) ->
        pagedrawings p' !! n = pagedrawings p !! n).
Proof.
  unfold DrawFile. intros H.
  set (rp := showloadprogress && (frompage =? 0)
             && (topage =? numpages pdfdoc - 1)) in *.
  set (p0 := mkProcessor (core p) (pagedrawings p) _) in *.
  pose proof (DrawFile_loop_outcome host depth pdfdoc rp
                (py_range frompage (topage + 1)) 0 p0
                (NoDup_py_range _ _)) as Hloop.
  destruct (DrawFile_loop host depth pdfdoc rp _ 0 p0) as [[u|e0] p1];
    [discriminate|].
  destruct Hloop as (Hout & (evs & Hev & Hp) & _). simplify_eq.
  split.
  - exists ((if rp then [Progress_start (numpages pdfdoc)] else []) ++ evs).
    rewrite Hev. subst p0. cbn [events]. rewrite <- app_assoc.
    split; [reflexivity|].
    apply Forall_app. split; [destruct rp; repeat constructor | exact Hp].
  - intros n Hn. rewrite Hout; [reflexivity|].
    rewrite elem_of_py_range. lia.
Qed.

Lemma DrawFile_failure_leaves_dialog_open_witness :
  let p := mkProcessor fresh ∅ [] in
  exists p',
    DrawFile plain_host 2 demo_doc true 1 2 p = (Raise IndexError, p')
    /\ (exists evs, events p' = events p ++ evs /\ Forall progress_event evs)
    /\ (forall n, ~ (1 <= n <= 2) ->
          pagedrawings p' !! n = pagedrawings p !! n)
    /\ pagedrawings p' !! 1 <> None.
Proof.
  intros p.
  destruct (DrawFile plain_host 2 demo_doc true 1 2 p) as [[u|e] p'] eqn:H;
    [vm_compute in H; discriminate H|].
  assert (e = IndexError) as -> by (vm_compute in H; congruence).
  exists p'. split; [reflexivity|].
  destruct (DrawFile_failure_leaves_dialog_open plain_host 2 demo_doc true 1 2
              p IndexError p' H) as [Hev Hout].
  split; [exact Hev|]. split; [exact Hout|].
  vm_compute in H. injection H as <-. vm_compute. discriminate.
Defined.

(** ** Rendering what was loaded *)

(** Without a [font_scale] attribute the loop of [RenderPage] leaves
    the list alone, whatever its outcome. *)
Lemma RenderPage_loop_unscaled gc entries :
  font_scale gc = None ->
  forall r, (RenderPage_loop gc entries r).2 = entries.
Proof.
  intros Hfs. induction entries as [|entry entries IH]; intros r;
    [reflexivity|].
  cbn [RenderPage_loop].
  assert ((RenderPage_entry gc entry r).2 = entry) as He.
  { unfold RenderPage_entry. rewrite Hfs. destruct entry; reflexivity. }
  destruct (RenderPage_entry gc entry r) as [[r1|e] entry1];
    cbn [snd] in He; subst entry1; [|reflexivity].
  specialize (IH r1).
  destruct (RenderPage_loop gc entries r1) as [[res r2] rest].
  cbn [snd] in *. subst rest. reflexivity.
Qed.

(** X21. After [DrawFile] returned, [RenderPage] on a page of the range
    finds its draw list and never reads [gp] unbound; on a graphics
    context that takes every call and has no zero font scale it
    returns, and without a [font_scale] attribute it leaves
    [pagedrawings] as they are, so that the page can be rendered
    again. *)
Theorem loaded_pages_render host depth pdfdoc showloadprogress frompage
    topage p p' gc pageno :
  DrawFile host depth pdfdoc showloadprogress frompage topage p = (Ok tt, p') ->
  frompage <= pageno <= topage ->
  (RenderPage gc (pagedrawings p') pageno).1.1 <> Raise UnboundLocalError
  /\ (calm gc -> (RenderPage gc (pagedrawings p') pageno).1.1 = Ok tt)
  /\ (font_scale gc = None ->
      (RenderPage gc (pagedrawings p') pageno).2 = pagedrawings p').
Proof.
  unfold DrawFile. intros H Hn.
  set (rp := showloadprogress && (frompage =? 0)
             && (topage =? numpages pdfdoc - 1)) in *.
  set (p0 := mkProcessor (core p) (pagedrawings p) _) in *.
  pose proof (DrawFile_loop_outcome host depth pdfdoc rp
                (py_range frompage (topage + 1)) 0 p0
                (NoDup_py_range _ _)) as Hloop.
  destruct (DrawFile_loop host depth pdfdoc rp _ 0 p0) as [[u|e] p1];
    [|discriminate].
  destruct Hloop as (_ & _ & Hin). simplify_eq. cbn [pagedrawings].
  destruct (Hin ltac:(destruct u; reflexivity) pageno)
    as (d & (page & opslist & pdf_fonts & s & s' & _ & _ & _ & Hd) & Hlook).
  { apply elem_of_py_range. lia. }
  pose proof (ProcessOperators_gp_ready _ _ _ _ _ _ _ _ Hd) as Hready.
  unfold RenderPage. rewrite Hlook.
  split; [|split].
  - pose proof (RenderPage_loop_bound gc d false (mkRendering [] None 0)
                  Hready ltac:(discriminate)) as Hb.
    destruct (RenderPage_loop gc d _) as [[res r] entries']. exact Hb.
  - intros Hcalm.
    destruct (RenderPage_loop_calm gc d false (mkRendering [] None 0)
                Hcalm Hready ltac:(discriminate)) as (r & entries' & -> & _).
    reflexivity.
  - intros Hfs.
    pose proof (RenderPage_loop_unscaled gc d Hfs (mkRendering [] None 0))
      as Hsame.
    destruct (RenderPage_loop gc d _) as [[res r] entries'].
    cbn [snd] in *. subst entries'. apply insert_id. exact Hlook.
Qed.


Lemma loaded_pages_render_witness :
  let p := mkProcessor fresh ∅ [] in
  exists p',
    DrawFile plain_host 2 demo_doc true 0 1 p = (Ok tt, p')
    /\ (RenderPage screen_gc (pagedrawings p') 1).1.1 = Ok tt
    /\ (RenderPage screen_gc (pagedrawings p') 1).2 = pagedrawings p'
    /\ (RenderPage plain_gc (pagedrawings p') 0).1.1 = Ok tt.
Proof.
  intros p.
  destruct (DrawFile plain_host 2 demo_doc true 0 1 p) as [[[]|e] p'] eqn:H;
    [|vm_compute in H; discriminate H].
  exists p'. split; [reflexivity|].
  destruct (loaded_pages_render plain_host 2 demo_doc true 0 1 p p'
              screen_gc 1 H ltac:(lia)) as (_ & Hcalm & Hsame).
  destruct (loaded_pages_render plain_host 2 demo_doc true 0 1 p p'
              plain_gc 0 H ltac:(lia)) as (_ & Hcalm' & _).
  split; [apply Hcalm; split; [reflexivity | exact I]|].
  split; [apply Hsame; reflexivity|].
  apply Hcalm'. split; [reflexivity | vm_compute; discriminate].
Defined.


(** ** Further examples *)
